(** * sitegen: a shallow embedding of [sitegen.py] and its specification

    The development follows the order of the program: the string
    operations of the Python runtime that the program calls, the regular
    expressions of the three directives, the data classes, the directive
    preprocessor, the tree builder, the include loader and the driver.

    Python strings are modelled as lists of characters; a character is a
    code point below 256.  Objects that the program shares and mutates
    (the [File] records held by [State.posts] and [State.static_pages])
    live in a store and are named by their address. *)

From Stdlib Require Import Ascii String ZArith Lia Bool.
From stdpp Require Import base list strings.

Local Open Scope Z_scope.
Local Open Scope list_scope.

(** ** Strings *)

Definition str := list ascii.

(** String literals of the source. *)
Definition lit (x : string) : str := list_ascii_of_string x.

(** [str.isspace] on one character; the same class is [\s] of [re] for
    [str] patterns.  Below code point 256 the members are TAB, LF, VT, FF,
    CR, FS, GS, RS, US, SPACE, NEL and NBSP. *)
Definition isspace (c : ascii) : bool :=
  let n := nat_of_ascii c in
  ((9 <=? n)%nat && (n <=? 13)%nat)
  || ((28 <=? n)%nat && (n <=? 32)%nat)
  || (n =? 133)%nat || (n =? 160)%nat.

(** [s.startswith(pre)] *)
Fixpoint startswith (s pre : str) : bool :=
  match pre, s with
  | [], _ => true
  | p :: pre', c :: s' => Ascii.eqb p c && startswith s' pre'
  | _ :: _, [] => false
  end.

(** [sub in s] *)
Fixpoint contains (sub s : str) : bool :=
  startswith s sub ||
  match s with
  | [] => false
  | _ :: s' => contains sub s'
  end.

(** [s.find(sub)]: the lowest index at which [sub] occurs, [-1] if none. *)
Fixpoint find_from (sub s : str) (i : Z) : Z :=
  if startswith s sub then i
  else match s with
       | [] => -1
       | _ :: s' => find_from sub s' (i + 1)
       end.

Definition find (s sub : str) : Z := find_from sub s 0.

(** [s[i:]]: a negative index counts from the end and is clamped at 0. *)
Definition slice_from (s : str) (i : Z) : str :=
  if i <? 0 then drop (Z.to_nat (Z.max 0 (Z.of_nat (length s) + i))) s
  else drop (Z.to_nat i) s.

(** [s.replace(old, new)]: every non-overlapping occurrence of [old],
    scanning from the left.  The first argument bounds the number of
    scanning steps; [replace] supplies the length of [s], which is
    enough. *)
Fixpoint replace_steps (n : nat) (old new s : str) : str :=
  match n with
  | O => s
  | S n' =>
      match s with
      | [] => []
      | c :: s' =>
          if startswith s old
          then new ++ replace_steps n' old new (drop (length old) s)
          else c :: replace_steps n' old new s'
      end
  end.

Definition replace (s old new : str) : str :=
  match old with
  | [] => new ++ flat_map (fun c => c :: new) s
  | _ :: _ => replace_steps (length s) old new s
  end.

(** [s.strip()] *)
Fixpoint lstrip (s : str) : str :=
  match s with
  | c :: s' => if isspace c then lstrip s' else s
  | [] => []
  end.

Definition rstrip (s : str) : str := rev (lstrip (rev s)).

Definition strip (s : str) : str := rstrip (lstrip s).

(** ** Regular expressions

    The three patterns of the program are sequences of literal
    characters, greedy repetitions of a character class, and one capture
    group around a greedy repetition.  [match_here] is the backtracking
    matcher of [re] restricted to these forms: a greedy repetition first
    takes as many characters as it can and gives them back one at a time
    while the rest of the pattern fails. *)

Inductive atom : Type :=
| Lit (c : ascii)                  (* a literal character *)
| Star (cls : ascii -> bool)       (* a class, starred *)
| Plus (cls : ascii -> bool)       (* a class, one or more *)
| Group1 (cls : ascii -> bool).    (* a starred class as capture group 1 *)

Definition regex := list atom.

(** What a successful match attempt yields: the matched text and the
    text of group 1 when the group took part. *)
Definition hit : Type := str * option str.

Definition consume (c : ascii) (r : option hit) : option hit :=
  match r with
  | Some (m, g) => Some (c :: m, g)
  | None => None
  end.

Fixpoint greedy (cls : ascii -> bool) (k : str -> option hit) (s : str)
  : option hit :=
  match s with
  | c :: s' =>
      if cls c then
        match greedy cls k s' with
        | Some (m, g) => Some (c :: m, g)
        | None => k s
        end
      else k s
  | [] => k []
  end.

Fixpoint greedy_group (cls : ascii -> bool) (k : str -> option hit) (s : str)
  : option (str * str) :=
  let stop :=
    match k s with
    | Some (m, _) => Some (m, [])
    | None => None
    end in
  match s with
  | c :: s' =>
      if cls c then
        match greedy_group cls k s' with
        | Some (m, g) => Some (c :: m, c :: g)
        | None => stop
        end
      else stop
  | [] => stop
  end.

Fixpoint match_here (re : regex) : str -> option hit :=
  match re with
  | [] => fun _ => Some ([], None)
  | Lit c :: re' => fun s =>
      match s with
      | c' :: s' => if Ascii.eqb c c' then consume c' (match_here re' s') else None
      | [] => None
      end
  | Star cls :: re' => greedy cls (match_here re')
  | Plus cls :: re' => fun s =>
      match s with
      | c :: s' => if cls c then consume c (greedy cls (match_here re') s') else None
      | [] => None
      end
  | Group1 cls :: re' => fun s =>
      match greedy_group cls (match_here re') s with
      | Some (m, g) => Some (m, Some g)
      | None => None
      end
  end.

(** A match object: [m[0]], [m[1]] and where the match starts.  The
    patterns have at most one group, so [m.lastindex] is 1 when [m_1] is
    [Some] and [None] otherwise. *)
Record Match : Type := {
  m_start : nat;
  m_0 : str;
  m_1 : option str
}.

(** [re.search]: the match at the leftmost position that has one. *)
Fixpoint search_from (re : regex) (s : str) (i : nat) : option Match :=
  match match_here re s with
  | Some (m, g) => Some {| m_start := i; m_0 := m; m_1 := g |}
  | None =>
      match s with
      | [] => None
      | _ :: s' => search_from re s' (S i)
      end
  end.

Definition re_search (re : regex) (s : str) : option Match := search_from re s O.

Definition lits (x : string) : regex := map Lit (lit x).

(** The double quote. *)
Definition dquote : ascii := "034"%char.

(** [.] without DOTALL: any character but the newline. *)
Definition dot (c : ascii) : bool := negb (Ascii.eqb c "010"%char).

(** The pattern of [title]: two opening braces, [\s] starred, the word
    title, [\s] one or more times, a double quote, group 1 around a
    starred dot, a double quote, [\s] starred, two closing braces. *)
Definition pat_title : regex :=
  lits "{{" ++ [Star isspace] ++ lits "title" ++ [Plus isspace]
  ++ [Lit dquote; Group1 dot; Lit dquote] ++ [Star isspace] ++ lits "}}".

(** The pattern of [desc]: the same with the word desc. *)
Definition pat_desc : regex :=
  lits "{{" ++ [Star isspace] ++ lits "desc" ++ [Plus isspace]
  ++ [Lit dquote; Group1 dot; Lit dquote] ++ [Star isspace] ++ lits "}}".

(** The pattern of [posts]: two opening braces, [\s] starred, the word
    posts, [\s] starred, two closing braces. *)
Definition pat_posts : regex :=
  lits "{{" ++ [Star isspace] ++ lits "posts" ++ [Star isspace] ++ lits "}}".

(** ** Results and exceptions *)

Definition errstr := str.

(** [Result] of the [result] package. *)
Inductive Result (T : Type) : Type :=
| Ok (v : T)
| Err (e : errstr).

Arguments Ok {T} v.
Arguments Err {T} e.

Definition is_err {T} (r : Result T) : bool :=
  match r with
  | Ok _ => false
  | Err _ => true
  end.

(** The exceptions that the modelled code lets escape. *)
Inductive exn : Type :=
| UnwrapError (e : errstr)   (* [unwrap] called on an [Err] *)
| AttributeError             (* an attribute of [None] was read *)
| TypeError                  (* [path_join] was given [None] *)
| OSError                    (* a file-system call failed and nothing caught it *)
| ValueError.                (* a text could not be decoded, encoded or parsed *)

Inductive outcome (A : Type) : Type :=
| Return (a : A)
| Raise (e : exn).

Arguments Return {A} a.
Arguments Raise {A} e.

(** ** Data classes *)

Record Config : Type := {
  Config_posts_dir : option str;
  Config_include_before : option str;
  Config_include_after : option str;
  Config_static_src : option str;
  Config_static_dest : option str
}.

Record FileMetadata : Type := {
  FileMetadata_title : str;
  FileMetadata_desc : str
}.

Record File : Type := {
  File_path : str;
  File_metadata : FileMetadata;
  File_is_post : bool;
  File_md : str;
  File_html : str
}.

(** [FileMetadata()] *)
Definition new_FileMetadata : FileMetadata :=
  {| FileMetadata_title := []; FileMetadata_desc := [] |}.

(** [File(path=p, is_post=b)] *)
Definition new_File (p : str) (b : bool) : File :=
  {| File_path := p; File_metadata := new_FileMetadata; File_is_post := b;
     File_md := []; File_html := [] |}.

#[warnings="-register-all"] Inductive FileTree : Type :=
| MkFileTree (path : str) (files : list File) (trees : list FileTree).

Definition FileTree_path (t : FileTree) : str :=
  match t with MkFileTree p _ _ => p end.
Definition FileTree_files (t : FileTree) : list File :=
  match t with MkFileTree _ fs _ => fs end.
Definition FileTree_trees (t : FileTree) : list FileTree :=
  match t with MkFileTree _ _ ts => ts end.

(** A [File] object is shared between the lists of [State] and the loops
    that mutate it, so the lists hold addresses into a store of [File]
    objects.  Every address held by a [State] was allocated by
    [process_pages]. *)
Abbreviation addr := nat (only parsing).
Abbreviation Store := (list File) (only parsing).

Record State : Type := {
  State_posts : list addr;
  State_static_pages : list addr;
  State_include_before : str;
  State_include_after : str
}.

(** [State()] *)
Definition new_State : State :=
  {| State_posts := []; State_static_pages := [];
     State_include_before := []; State_include_after := [] |}.

#[global] Instance File_inhabited : Inhabited File := populate (new_File [] false).

(** ** Computations with a mutable state and exceptions *)

Definition ST (S A : Type) : Type := S -> S * outcome A.

(** Computations on the store of [File] objects. *)
Definition M (A : Type) : Type := ST Store A.

Definition ret {S A} (a : A) : ST S A := fun h => (h, Return a).

Definition raise {S A} (e : exn) : ST S A := fun h => (h, Raise e).

Definition bind {S A B} (m : ST S A) (k : A -> ST S B) : ST S B :=
  fun h =>
    match m h with
    | (h', Return a) => k a h'
    | (h', Raise e) => (h', Raise e)
    end.

Notation "x <- m ;; k" := (bind m (fun x => k))
  (at level 100, m at next level, right associativity).
Notation "m ;; k" := (bind m (fun _ => k))
  (at level 100, right associativity).

(** [r.unwrap()] *)
(** A call that leaves the state alone. *)
Definition lift {S A} (o : outcome A) : ST S A := fun s => (s, o).

Definition unwrap {S T} (r : Result T) : ST S T :=
  match r with
  | Ok v => ret v
  | Err e => raise (UnwrapError e)
  end.

(** Reading the object at an address. *)
Definition load (a : addr) : M File := fun h => (h, Return (h !!! a)).

Definition with_title (t : str) (f : File) : File :=
  {| File_path := File_path f;
     File_metadata := {| FileMetadata_title := t;
                         FileMetadata_desc := FileMetadata_desc (File_metadata f) |};
     File_is_post := File_is_post f; File_md := File_md f; File_html := File_html f |}.

Definition with_desc (d : str) (f : File) : File :=
  {| File_path := File_path f;
     File_metadata := {| FileMetadata_title := FileMetadata_title (File_metadata f);
                         FileMetadata_desc := d |};
     File_is_post := File_is_post f; File_md := File_md f; File_html := File_html f |}.

Definition with_md (x : str) (f : File) : File :=
  {| File_path := File_path f; File_metadata := File_metadata f;
     File_is_post := File_is_post f; File_md := x; File_html := File_html f |}.

Definition with_html (x : str) (f : File) : File :=
  {| File_path := File_path f; File_metadata := File_metadata f;
     File_is_post := File_is_post f; File_md := File_md f; File_html := x |}.

(** Attribute assignments on the object at an address. *)
Definition set_title (a : addr) (t : str) : M unit :=
  fun h => (alter (with_title t) a h, Return tt).
Definition set_desc (a : addr) (d : str) : M unit :=
  fun h => (alter (with_desc d) a h, Return tt).
Definition set_md (a : addr) (x : str) : M unit :=
  fun h => (alter (with_md x) a h, Return tt).
Definition set_html (a : addr) (x : str) : M unit :=
  fun h => (alter (with_html x) a h, Return tt).

Fixpoint for_each {S A} (l : list A) (body : A -> ST S unit) : ST S unit :=
  match l with
  | [] => ret tt
  | x :: l' => body x ;; for_each l' body
  end.

(** ** The directive preprocessor *)

Definition nl : str := ["010"%char].

Definition quoted (x : str) : str := dquote :: x ++ [dquote].

(** The [url] of [posts]: the path from its first slash on, every [.md]
    replaced by [.html]. *)
Definition post_url (path : str) : str :=
  replace (slice_from path (find path (lit "/"))) (lit ".md") (lit ".html").

(** What one iteration of the loop of [posts] appends to [posts_html]. *)
Definition post_block (url title desc : str) : str :=
  lit "<div class=" ++ quoted (lit "post") ++ lit ">" ++ nl
  ++ lit "<div class=" ++ quoted (lit "post-heading") ++ lit ">" ++ nl
  ++ lit "<a href=" ++ quoted url ++ lit ">" ++ title ++ lit "</a>" ++ nl
  ++ lit "</div>" ++ nl
  ++ lit "<div class=" ++ quoted (lit "post-desc") ++ lit ">" ++ nl
  ++ desc ++ nl
  ++ lit "</div>" ++ nl
  ++ lit "</div>" ++ nl.

Definition entry_of (p : File) : str :=
  let url := post_url (File_path p) in
  post_block url (FileMetadata_title (File_metadata p)) (FileMetadata_desc (File_metadata p)).

(** The loop of [posts] over [state.posts], reading each object as it is
    in the store at that moment. *)
Definition posts_loop (state : State) : M str :=
  fun h => (h, Return (fold_left (fun posts_html p => posts_html ++ entry_of (h !!! p))
                                 (State_posts state) [])).

Definition wrap_posts (posts_html : str) : str :=
  lit "<div class=" ++ quoted (lit "posts") ++ lit ">" ++ posts_html ++ lit "</div>".

(** The inner functions of [preprocess_md].  They read the variable [md]
    of the enclosing call and take the text to edit as [s]. *)
Definition title (file_metadata : addr) (md s : str) : M (Result str) :=
  match re_search pat_title md with
  | None => ret (Err (lit "Invalid match on 'title'"))
  | Some m =>
      match m_1 m with
      | None => ret (Err (lit "Invalid match on 'title'"))   (* [m.lastindex != 1] *)
      | Some m1 =>
          set_title file_metadata m1 ;;
          let s := replace s (m_0 m) [] in
          let s := lit "# " ++ m1 ++ nl ++ s in
          ret (Ok s)
      end
  end.

Definition desc (file_metadata : addr) (md s : str) : M (Result str) :=
  match re_search pat_desc md with
  | None => ret (Err (lit "Invalid match on 'desc'"))
  | Some m =>
      match m_1 m with
      | None => ret (Err (lit "Invalid match on 'desc'"))   (* [m.lastindex != 1] *)
      | Some m1 =>
          set_desc file_metadata m1 ;;
          ret (Ok (replace s (m_0 m) []))
      end
  end.

Definition posts (state : State) (md s : str) : M (Result str) :=
  match re_search pat_posts md with
  | None => ret (Err (lit "Invalid match on 'posts'"))
  | Some m =>
      posts_html <- posts_loop state ;;
      let posts_html := wrap_posts posts_html in
      ret (Ok (replace s (m_0 m) posts_html))
  end.

Definition title_step (file_metadata : addr) (md : str) : M str :=
  if contains (lit "{{ title") md || contains (lit "{{title") md
  then r <- title file_metadata md md ;; unwrap r
  else ret md.

Definition desc_step (file_metadata : addr) (md : str) : M str :=
  if contains (lit "{{ desc") md || contains (lit "{{desc") md
  then r <- desc file_metadata md md ;; unwrap r
  else ret md.

Definition posts_step (state : State) (md : str) : M str :=
  if contains (lit "{{ posts") md || contains (lit "{{posts") md
  then r <- posts state md md ;; unwrap r
  else ret md.

Definition toc_step (md : str) : str :=
  if contains (lit "[toc]") md then replace md (lit "[toc]") (lit "[TOC]") else md.

Definition preprocess_md (state : State) (file_metadata : addr) (md : str)
  : M (Result str) :=
  md <- title_step file_metadata md ;;
  md <- desc_step file_metadata md ;;
  md <- posts_step state md ;;
  let md := toc_step md in
  let md := strip md in
  ret (Ok md).

(** The body of the loop of [preprocess_pages]: the metadata object
    handed to [preprocess_md] is the one of [p], named by the address of
    [p]. *)
Definition preprocess_page (state : State) (p : addr) : M unit :=
  f <- load p ;;
  r <- preprocess_md state p (File_md f) ;;
  x <- unwrap r ;;
  set_md p x.

(** [preprocess_pages(state, tree)]; the source does not use [tree]. *)
Definition preprocess_pages (state : State) : M unit :=
  for_each (State_posts state ++ State_static_pages state) (preprocess_page state).

(** ** Paths and the file system *)

(** [s.endswith(suf)] *)
Definition endswith (s suf : str) : bool := startswith (rev s) (rev suf).

(** [os.path.join(a, b)] of [posixpath]. *)
Definition path_join (a b : str) : str :=
  if startswith b (lit "/") then b
  else if bool_decide (a = []) || endswith a (lit "/") then a ++ b
  else a ++ lit "/" ++ b.

(** [s.rfind(sub)]: the highest index at which [sub] occurs, [-1] if none. *)
Fixpoint rfind_from (sub s : str) (i : Z) : Z :=
  match s with
  | [] => if startswith [] sub then i else -1
  | _ :: s' =>
      let r := rfind_from sub s' (i + 1) in
      if 0 <=? r then r else if startswith s sub then i else -1
  end.

Definition rfind (s sub : str) : Z := rfind_from sub s 0.

(** [s[:i]] *)
Definition slice_to (s : str) (i : Z) : str :=
  if i <? 0 then take (Z.to_nat (Z.max 0 (Z.of_nat (length s) + i))) s
  else take (Z.to_nat i) s.

(** What [listdir] and [isdir] observe below the source directory.  A
    [Stale] entry is a directory when [isdir] looks at it and no longer
    one when [listdir] is called ([NotADirectoryError]); listing an
    [Unreadable] directory raises another [OSError]. *)
#[warnings="-register-all"] Inductive fsnode : Type :=
| RegularFile
| Directory (entries : list (str * fsnode))
| Stale
| Unreadable.

Definition isdir (n : fsnode) : bool :=
  match n with
  | RegularFile => false
  | Directory _ | Stale | Unreadable => true
  end.

(** [str(e)] of the [NotADirectoryError] that [listdir(dir)] raises. *)
Definition not_a_directory (dir : str) : errstr :=
  lit "[Errno 20] Not a directory: '" ++ dir ++ lit "'".

(** The calls by which the run acts on what is outside the process:
    [print(text)], [pathlib.Path(path).mkdir(parents=True, exist_ok=True)],
    [open(path, "w")] with the [write(data)] under it, and
    [shutil.copytree(src, dst)]. *)
Inductive event : Type :=
| Print (text : str)
| Mkdir (path : str)
| WriteText (path data : str)
| CopyTree (src dst : str).

(** The environment of one run.  [W_open path] is what [open(path)] and
    the [read()] under it do: the text, or the exception raised (an
    [OSError] such as [FileNotFoundError], or the [ValueError] of bytes
    that are not text).  [W_io log c] is what the call [c] to [mkdir],
    [open] and [write], or [copytree] does when the calls of [log] have
    been made before it: [None] when it returns, the exception when it
    raises (an [OSError] such as [FileExistsError] or
    [FileNotFoundError], or the [ValueError] of a text that cannot be
    encoded). *)
Record World : Type := {
  W_srcdir : str;                        (* [args.srcdir] *)
  W_outdir : str;                        (* [args.outdir] *)
  W_config : outcome (Result Config);    (* what [read_config(srcdir)] does *)
  W_open : str -> outcome str;           (* [open(path).read()] *)
  W_tree : fsnode;                       (* the source directory *)
  W_markdown : str -> str;               (* [markdown.markdown(md, extensions=EXTENSIONS)] *)
  W_io : list event -> event -> option exn
}.

(** ** The tree builder *)

Definition excluded (config : Config) : list (option str) :=
  [ Some (lit "config.json");
    Config_include_before config;
    Config_include_after config;
    Config_static_src config ].

(** [build_file_tree(dir, root, config, tree)], where [node] is what the
    file system holds at [dir].  Every call works on a tree that is empty
    when the call starts: the one made for [tree is None], or the [t] that
    the caller has just appended.  The subtree filled by the recursive
    call is the object the caller appended, so the caller's list holds
    the filled subtree. *)
Fixpoint build_file_tree (node : fsnode) (dir root : str) (config : Config)
  : outcome (Result FileTree) :=
  match node with
  | RegularFile | Stale => Return (Err (not_a_directory dir))
  | Unreadable => Raise OSError
  | Directory dir_files =>
      (fix loop (dir_files : list (str * fsnode))
                (files : list File) (trees : list FileTree)
         : outcome (Result FileTree) :=
         match dir_files with
         | [] => Return (Ok (MkFileTree dir files trees))
         | (fname, child) :: rest =>
             if bool_decide (Some fname ∈ excluded config) then loop rest files trees
             else
               let p := path_join dir fname in
               if isdir child then
                 match build_file_tree child p root config with
                 | Raise e => Raise e
                 | Return (Err e) => Return (Err e)
                 | Return (Ok t) => loop rest files (trees ++ [t])
                 end
               else
                 match Config_posts_dir config with
                 | None => Raise TypeError
                 | Some posts_dir =>
                     let x := path_join root posts_dir in
                     let f := new_File p (bool_decide (dir = x)) in
                     loop rest (files ++ [f]) trees
                 end
         end) dir_files [] []
  end.

(** ** The include loader *)

(** [with open(path) as f: ... f.read()] *)
Definition open_read {S} (w : World) (path : str) : ST S str :=
  fun s => (s, W_open w path).

Definition set_include_before (x : str) : ST State unit :=
  fun state =>
    ({| State_posts := State_posts state; State_static_pages := State_static_pages state;
        State_include_before := x; State_include_after := State_include_after state |},
     Return tt).

Definition set_include_after (x : str) : ST State unit :=
  fun state =>
    ({| State_posts := State_posts state; State_static_pages := State_static_pages state;
        State_include_before := State_include_before state; State_include_after := x |},
     Return tt).

(** [try: body except Exception: pass] *)
Definition try_pass {S} (body : ST S unit) : ST S unit :=
  fun s =>
    match body s with
    | (s', Return _) => (s', Return tt)
    | (s', Raise _) => (s', Return tt)
    end.

Definition load_before_after_files (w : World) (root : str) (config : Config)
  : ST State unit :=
  try_pass
    ((match Config_include_before config with
      | Some include_before =>
          text <- open_read w (path_join root include_before) ;;
          set_include_before text
      | None => ret tt
      end) ;;
     (match Config_include_after config with
      | Some include_after =>
          text <- open_read w (path_join root include_after) ;;
          set_include_after text
      | None => ret tt
      end)).

(** ** Loading, rendering and writing *)

(** [load_md_file(state, metadata, path)], which uses [path] alone.
    The two handlers catch an [OSError] ([IOError] is its other name,
    [FileNotFoundError] one of its kinds); they build an [Err] and drop
    it, so the call falls through to the last line.  Any other
    exception of the read escapes. *)
Definition load_md_file (w : World) (path : str) : outcome (Result str) :=
  match W_open w path with
  | Return text => Return (Ok text)
  | Raise OSError => Return (Err (lit "Failed to compile file " ++ path))
  | Raise e => Raise e
  end.

(** A new [File] object enters the store. *)
Definition alloc (f : File) : M addr := fun h => (h ++ [f], Return (length h)).

Definition append_file (state : State) (is_post : bool) (a : addr) : State :=
  if is_post
  then {| State_posts := State_posts state ++ [a];
          State_static_pages := State_static_pages state;
          State_include_before := State_include_before state;
          State_include_after := State_include_after state |}
  else {| State_posts := State_posts state;
          State_static_pages := State_static_pages state ++ [a];
          State_include_before := State_include_before state;
          State_include_after := State_include_after state |}.

(** The first loop of [process_pages].  The tree holds the [File] objects
    by value; the loop is where an object enters the store, and from
    then on the lists of [state] and the later loops name it by its
    address.  The tree is not read again after [process_pages], so its
    own view of the objects is not kept up to date. *)
Fixpoint process_files (w : World) (files : list File) (state : State) : M State :=
  match files with
  | [] => ret state
  | file :: rest =>
      a <- alloc file ;;
      let state := append_file state (File_is_post file) a in
      r <- lift (load_md_file w (File_path file)) ;;
      text <- unwrap r ;;
      set_md a text ;;
      process_files w rest state
  end.

Fixpoint process_tree (w : World) (tree : FileTree) : State -> M State :=
  match tree with
  | MkFileTree _ files trees => fun state =>
      state <- process_files w files state ;;
      (fix subtrees (ts : list FileTree) (state : State) : M State :=
         match ts with
         | [] => ret state
         | subtree :: ts' =>
             state <- process_tree w subtree state ;;
             subtrees ts' state
         end) trees state
  end.

(** [process_pages(state, tree)]; [tree] is [None] when [main] took it
    from an [Err]. *)
Definition process_pages (w : World) (state : State) (tree : option FileTree)
  : M State :=
  match tree with
  | None => raise AttributeError
  | Some tree => process_tree w tree state
  end.

(** [render_md] *)
Definition render_md (w : World) (md : str) : Result str := Ok (W_markdown w md).

Definition compile_files (w : World) (state : State) : M unit :=
  for_each (State_static_pages state ++ State_posts state)
    (fun file =>
       f <- load file ;;
       body <- unwrap (render_md w (File_md f)) ;;
       set_html file (State_include_before state ++ body ++ State_include_after state)).

(** The calls of [write_file(path, data)], in the order in which it
    makes them; when one of them raises, the later ones are not made
    (see [perform]). *)
Definition write_file (path data : str) : list event :=
  [ Mkdir (slice_to path (rfind path (lit "/")));
    WriteText (replace path (lit ".md") (lit ".html")) data ].

(** The calls of [write_files(state, srcdir, outdir)], in the order in
    which it makes them: those of [write_file] for each page, then for
    each post. *)
Definition write_files (state : State) (srcdir outdir : str) (h : Store) : list event :=
  flat_map
    (fun p =>
       let f := h !!! p in
       write_file (replace (File_path f) srcdir (outdir ++ lit "/")) (File_html f))
    (State_static_pages state ++ State_posts state).

(** Making the call [c]: it enters the log of the calls made, and it
    returns or raises as the environment has it. *)
Definition call (w : World) (c : event) : ST (list event) unit :=
  fun log =>
    (log ++ [c],
     match W_io w log c with
     | None => Return tt
     | Some e => Raise e
     end).

(** Making the calls of a list in order: the first one that raises ends
    the function that makes them, and no later call is made. *)
Definition perform (w : World) (calls : list event) : ST (list event) unit :=
  for_each calls (call w).

(** ** The driver *)

(** [r.ok()] *)
Definition ok {T} (r : Result T) : option T :=
  match r with
  | Ok v => Some v
  | Err _ => None
  end.

(** What [print(r.err())] shows. *)
Definition err_text {T} (r : Result T) : str :=
  match r with
  | Err e => e
  | Ok _ => lit "None"
  end.

(** [x is None] *)
Definition is_None {A} (x : option A) : bool :=
  match x with
  | None => true
  | Some _ => false
  end.

Definition path_join_opt (a : str) (b : option str) : outcome str :=
  match b with
  | Some b => Return (path_join a b)
  | None => Raise TypeError
  end.

(** [main]: the calls of the run and either the value returned, which
    is the exit code, or the exception that escapes.  Nothing catches
    the exception of a call of [write_files] or of [copytree]. *)
Definition main (w : World) : list event * outcome Z :=
  let srcdir := W_srcdir w in
  let outdir := W_outdir w in
  match W_config w with
  | Raise e => ([], Raise e)
  | Return (Err e) => ([Print e], Return 1)
  | Return (Ok config) =>
      let state := fst (load_before_after_files w srcdir config new_State) in
      match build_file_tree (W_tree w) srcdir srcdir config with
      | Raise e => ([], Raise e)
      | Return r_tree =>
          (* [r_tree is None]: the name is bound to a [Result] object *)
          if is_None (Some r_tree) then ([Print (err_text r_tree)], Return 1)
          else
            let tree := ok r_tree in
            match process_pages w state tree [] with
            | (_, Raise e) => ([], Raise e)
            | (h, Return state) =>
                match preprocess_pages state h with
                | (_, Raise e) => ([], Raise e)
                | (h, Return _) =>
                    match compile_files w state h with
                    | (_, Raise e) => ([], Raise e)
                    | (h, Return _) =>
                        match perform w (write_files state srcdir outdir h) [] with
                        | (written, Raise e) => (written, Raise e)
                        | (written, Return _) =>
                            match path_join_opt srcdir (Config_static_src config),
                                  path_join_opt outdir (Config_static_dest config) with
                            | Return src, Return dst =>
                                match call w (CopyTree src dst) written with
                                | (log, Raise e) => (log, Raise e)
                                | (log, Return _) => (log, Return 0)
                                end
                            | Raise e, _ | _, Raise e => (written, Raise e)
                            end
                        end
                    end
                end
            end
      end
  end.


(** ** Reading the configuration

    [read_config] is modelled on what [json.loads] returns.  The
    attributes of the [Config] object it builds can hold any such value;
    [typed_config] gives the [Config] of above when each of them is a
    string or [None]. *)

(** A value returned by [json.loads]; a float is kept by its text, a
    dict by the list of its items, each key once. *)
#[warnings="-register-all"] Inductive pyvalue : Type :=
| PyNone
| PyBool (b : bool)
| PyInt (n : Z)
| PyFloat (text : str)
| PyStr (s : str)
| PyList (items : list pyvalue)
| PyDict (items : list (str * pyvalue)).

(** [j[key]] on the items of a dict: [None] stands for the [KeyError]. *)
Fixpoint dict_get (key : str) (items : list (str * pyvalue)) : option pyvalue :=
  match items with
  | [] => None
  | (k, v) :: rest => if bool_decide (k = key) then Some v else dict_get key rest
  end.

(** The [Config] object while [read_config] fills it. *)
Record RawConfig : Type := {
  Raw_posts_dir : pyvalue;
  Raw_include_before : pyvalue;
  Raw_include_after : pyvalue;
  Raw_static_src : pyvalue;
  Raw_static_dest : pyvalue
}.

(** [Config()] *)
Definition new_RawConfig : RawConfig :=
  {| Raw_posts_dir := PyNone; Raw_include_before := PyNone;
     Raw_include_after := PyNone; Raw_static_src := PyNone;
     Raw_static_dest := PyNone |}.

(** [setattr(c, name, v)] for the names of the five attributes; the loop
    of [read_config] uses no other name. *)
Definition setattr (c : RawConfig) (name : str) (v : pyvalue) : RawConfig :=
  if bool_decide (name = lit "posts_dir") then
    {| Raw_posts_dir := v; Raw_include_before := Raw_include_before c;
       Raw_include_after := Raw_include_after c; Raw_static_src := Raw_static_src c;
       Raw_static_dest := Raw_static_dest c |}
  else if bool_decide (name = lit "include_before") then
    {| Raw_posts_dir := Raw_posts_dir c; Raw_include_before := v;
       Raw_include_after := Raw_include_after c; Raw_static_src := Raw_static_src c;
       Raw_static_dest := Raw_static_dest c |}
  else if bool_decide (name = lit "include_after") then
    {| Raw_posts_dir := Raw_posts_dir c; Raw_include_before := Raw_include_before c;
       Raw_include_after := v; Raw_static_src := Raw_static_src c;
       Raw_static_dest := Raw_static_dest c |}
  else if bool_decide (name = lit "static_src") then
    {| Raw_posts_dir := Raw_posts_dir c; Raw_include_before := Raw_include_before c;
       Raw_include_after := Raw_include_after c; Raw_static_src := v;
       Raw_static_dest := Raw_static_dest c |}
  else if bool_decide (name = lit "static_dest") then
    {| Raw_posts_dir := Raw_posts_dir c; Raw_include_before := Raw_include_before c;
       Raw_include_after := Raw_include_after c; Raw_static_src := Raw_static_src c;
       Raw_static_dest := v |}
  else c.

Definition props : list str :=
  [ lit "posts dir"; lit "include before"; lit "include after";
    lit "static src"; lit "static dest" ].

(** What opening, reading and parsing [config.json] comes to. *)
Inductive config_source : Type :=
| Missing                 (* [open] raises [FileNotFoundError] *)
| Unopenable              (* [open] or [read] raises another [OSError] *)
| Malformed               (* [read] or [json.loads] raises a [ValueError] *)
| Parsed (j : pyvalue).

(** The exceptions that escape [read_config]. *)
Inductive config_exn : Type :=
| ConfigOSError
| ConfigValueError.

Inductive config_outcome : Type :=
| ConfigReturn (r : Result RawConfig)
| ConfigRaise (e : config_exn).

(** The loop over [props] on the items of a dict: a [KeyError] leaves the
    attribute as it is. *)
Fixpoint fill_config (items : list (str * pyvalue)) (props : list str) (c : RawConfig)
  : RawConfig :=
  match props with
  | [] => c
  | prop :: rest =>
      match dict_get prop items with
      | Some v => fill_config items rest (setattr c (replace prop (lit " ") (lit "_")) v)
      | None => fill_config items rest c
      end
  end.

(** [read_config(root)].  Subscripting a value that is not a dict with a
    string raises a [TypeError], which the function turns into an [Err];
    [type_error] is the text of that exception. *)
Definition read_config (type_error : pyvalue -> str) (root : str) (source : config_source)
  : config_outcome :=
  let path := path_join root (lit "config.json") in
  match source with
  | Missing =>
      ConfigReturn (Err (lit "Couldn't find " ++ path ++ lit ". Does it exist?"))
  | Unopenable => ConfigRaise ConfigOSError
  | Malformed => ConfigRaise ConfigValueError
  | Parsed (PyDict items) => ConfigReturn (Ok (fill_config items props new_RawConfig))
  | Parsed j => ConfigReturn (Err (lit "Failed to read config: " ++ type_error j))
  end.

(** An attribute as a field of [Config]. *)
Definition typed_field (v : pyvalue) : option (option str) :=
  match v with
  | PyNone => Some None
  | PyStr s => Some (Some s)
  | _ => None
  end.

Definition typed_config (c : RawConfig) : option Config :=
  match typed_field (Raw_posts_dir c), typed_field (Raw_include_before c),
        typed_field (Raw_include_after c), typed_field (Raw_static_src c),
        typed_field (Raw_static_dest c) with
  | Some a, Some b, Some c', Some d, Some e =>
      Some {| Config_posts_dir := a; Config_include_before := b;
              Config_include_after := c'; Config_static_src := d;
              Config_static_dest := e |}
  | _, _, _, _, _ => None
  end.
(** * Vocabulary of the properties *)

(** [first_at old s k]: the leftmost occurrence of [old] in [s] is at [k]. *)
Definition first_at (old s : str) (k : nat) : Prop :=
  startswith (drop k s) old = true /\
  forall i, (i < k)%nat -> startswith (drop i s) old = false.

(** [parses re m]: the pattern [re] can consume exactly the text [m]. *)
Inductive parses : regex -> str -> Prop :=
| parses_nil : parses [] []
| parses_lit c re m :
    parses re m -> parses (Lit c :: re) (c :: m)
| parses_star cls re ws m :
    forallb cls ws = true -> parses re m -> parses (Star cls :: re) (ws ++ m)
| parses_plus cls re c ws m :
    cls c = true -> forallb cls ws = true -> parses re m ->
    parses (Plus cls :: re) (c :: ws ++ m)
| parses_group cls re ws m :
    forallb cls ws = true -> parses re m -> parses (Group1 cls :: re) (ws ++ m).

(** [untouched l h h']: the objects outside [l] are the same in [h'] as in [h]. *)
Definition untouched (l : list addr) (h h' : Store) : Prop :=
  forall b, b ∉ l -> h' !!! b = h !!! b.

Definition title_token (md : str) : bool :=
  contains (lit "{{ title") md || contains (lit "{{title") md.

Definition desc_token (md : str) : bool :=
  contains (lit "{{ desc") md || contains (lit "{{desc") md.

Definition posts_token (md : str) : bool :=
  contains (lit "{{ posts") md || contains (lit "{{posts") md.

(** What [preprocess_md] does before it comes to [posts]. *)
Definition title_desc_steps (file_metadata : addr) (md : str) : M str :=
  md <- title_step file_metadata md ;; desc_step file_metadata md.



(** The href in the words of the specification: the source path without
    the root-directory prefix, its Markdown extension replaced by the HTML
    extension. *)
Definition strip_root (root path : str) : str :=
  if startswith path root then drop (length root) path else path.

Definition swap_extension (path : str) : str :=
  if endswith path (lit ".md")
  then take (length path - 3) path ++ lit ".html"
  else path.

Definition spec_href (root path : str) : str := swap_extension (strip_root root path).

(** [subtree s t]: [s] is [t] or lies below it. *)
Inductive subtree : FileTree -> FileTree -> Prop :=
| subtree_here t : subtree t t
| subtree_below s c path files trees :
    c ∈ trees -> subtree s c -> subtree s (MkFileTree path files trees).

(** The classification of the file [f] found in the directory [dir]. *)
Definition classified (root : str) (config : Config) (dir : str) (f : File) : Prop :=
  exists posts_dir fname,
    Config_posts_dir config = Some posts_dir /\
    File_path f = path_join dir fname /\
    (File_is_post f = true <-> dir = path_join root posts_dir).

(** Every file of the tree is as [File(path=p, is_post=b)] made it. *)
Definition fresh_tree (t : FileTree) : Prop :=
  forall sub f, subtree sub t -> f ∈ FileTree_files sub ->
    File_metadata f = new_FileMetadata.

(** What holds of the state and the store while [process_pages] runs: the
    two lists name distinct allocated objects, and no metadata has been
    written yet. *)
Definition store_ok (state : State) (h : Store) : Prop :=
  NoDup (State_posts state) /\
  NoDup (State_static_pages state) /\
  (forall a, a ∈ State_posts state -> a ∉ State_static_pages state) /\
  (forall a, a ∈ State_posts state \/ a ∈ State_static_pages state -> (a < length h)%nat) /\
  Forall (fun f => File_metadata f = new_FileMetadata) h.

(** Every file of the tree is classified by the directory that holds it. *)
Definition well_classified (root : str) (config : Config) (t : FileTree) : Prop :=
  forall sub f, subtree sub t -> f ∈ FileTree_files sub ->
    classified root config (FileTree_path sub) f.

(** The loop of [build_file_tree] over the listing of [dir], with the
    call on a subdirectory as [rec]. *)
Fixpoint build_loop (rec : fsnode -> str -> outcome (Result FileTree))
    (dir root : str) (config : Config) (dir_files : list (str * fsnode))
    (files : list File) (trees : list FileTree) : outcome (Result FileTree) :=
  match dir_files with
  | [] => Return (Ok (MkFileTree dir files trees))
  | (fname, child) :: rest =>
      if bool_decide (Some fname ∈ excluded config)
      then build_loop rec dir root config rest files trees
      else
        let p := path_join dir fname in
        if isdir child then
          match rec child p with
          | Raise e => Raise e
          | Return (Err e) => Return (Err e)
          | Return (Ok t) => build_loop rec dir root config rest files (trees ++ [t])
          end
        else
          match Config_posts_dir config with
          | None => Raise TypeError
          | Some posts_dir =>
              let x := path_join root posts_dir in
              let f := new_File p (bool_decide (dir = x)) in
              build_loop rec dir root config rest (files ++ [f]) trees
          end
  end.

(** ** Example inputs *)

(** A directive with no blanks but the one before its argument. *)
Definition directive (keyword arg : string) : str :=
  lit "{{" ++ lit keyword ++ lit " " ++ quoted (lit arg) ++ lit "}}".

(** A loaded file, as [process_pages] leaves it. *)
Definition loaded (path : string) (is_post : bool) (md : str) : File :=
  with_md md (new_File (lit path) is_post).

(** Two posts and one page; the first post and the page carry the posts
    index. *)
Definition blog_state : State :=
  {| State_posts := [0%nat; 1%nat]; State_static_pages := [2%nat];
     State_include_before := []; State_include_after := [] |}.

Definition blog_store : Store :=
  [ loaded "root/posts/a.md" true (directive "title" "A" ++ nl ++ lit "{{posts}}");
    loaded "root/posts/b.md" true (directive "title" "B" ++ nl ++ directive "desc" "second");
    loaded "root/index.md" false (lit "{{ posts }}") ].


Definition blog_config : Config :=
  {| Config_posts_dir := Some (lit "posts");
     Config_include_before := Some (lit "header.html");
     Config_include_after := None;
     Config_static_src := Some (lit "static");
     Config_static_dest := Some (lit "static") |}.

(** A source directory with a page, a post, a draft below the posts
    directory, and the static directory. *)
Definition blog_tree : fsnode :=
  Directory
    [ (lit "config.json", RegularFile);
      (lit "index.md", RegularFile);
      (lit "posts",
       Directory [ (lit "a.md", RegularFile);
                   (lit "drafts", Directory [ (lit "d.md", RegularFile) ]) ]);
      (lit "static", Directory [ (lit "style.css", RegularFile) ]) ].

(** The files that can be read; the configured [header.html] is not among
    them, and opening it raises a [FileNotFoundError]. *)
Definition blog_open (path : str) : outcome str :=
  if bool_decide (path = lit "site/index.md") then Return (lit "{{ posts }}")
  else if bool_decide (path = lit "site/posts/a.md") then Return (directive "title" "A")
  else if bool_decide (path = lit "site/posts/drafts/d.md") then Return (lit "draft")
  else Raise OSError.

(** An output directory in which every call succeeds. *)
Definition io_ok (log : list event) (c : event) : option exn := None.

(** An output directory that has a [static] directory from an earlier
    run: [copytree] raises a [FileExistsError]. *)
Definition io_second_run (log : list event) (c : event) : option exn :=
  match c with
  | CopyTree _ _ => Some OSError
  | _ => None
  end.

Definition blog_world : World :=
  {| W_srcdir := lit "site"; W_outdir := lit "out";
     W_config := Return (Ok blog_config);
     W_open := blog_open;
     W_tree := blog_tree;
     W_markdown := fun md => lit "<p>" ++ md ++ lit "</p>";
     W_io := io_ok |}.

(** The same run when the posts directory stops being a directory between
    [isdir] and [listdir]. *)
Definition stale_world : World :=
  {| W_srcdir := lit "site"; W_outdir := lit "out";
     W_config := Return (Ok blog_config);
     W_open := blog_open;
     W_tree := Directory [ (lit "index.md", RegularFile); (lit "posts", Stale) ];
     W_markdown := fun md => lit "<p>" ++ md ++ lit "</p>";
     W_io := io_ok |}.

(** The tree that [build_file_tree] makes of [blog_tree]. *)
Definition drafts_subtree : FileTree :=
  MkFileTree (lit "site/posts/drafts") [new_File (lit "site/posts/drafts/d.md") false] [].

Definition posts_subtree : FileTree :=
  MkFileTree (lit "site/posts") [new_File (lit "site/posts/a.md") true] [drafts_subtree].

Definition blog_file_tree : FileTree :=
  MkFileTree (lit "site") [new_File (lit "site/index.md") false] [posts_subtree].

(** ** Vocabulary of the further properties *)

(** [prepend w r]: the match [r] with the text [w] consumed before it. *)
Definition prepend (w : str) (r : option hit) : option hit :=
  match r with
  | Some (m, g) => Some (w ++ m, g)
  | None => None
  end.

(** The end of the two quoted patterns: the closing quote, blanks, the
    closing braces. *)
Definition pat_closing : regex :=
  [Lit dquote] ++ [Star isspace] ++ lits "}}".

(** [quote_free_line s]: no double quote stands before the first newline
    of [s]. *)
Fixpoint quote_free_line (s : str) : bool :=
  match s with
  | [] => true
  | c :: r =>
      if Ascii.eqb c "010"%char then true
      else negb (Ascii.eqb c dquote) && quote_free_line r
  end.

(** A title or description directive as it is written: the braces, blanks
    [ws1], the keyword, blanks [ws2], the quoted argument [arg], blanks
    [ws3], the braces. *)
Definition written_directive (keyword : string) (ws1 ws2 arg ws3 : str) : str :=
  lit "{{" ++ ws1 ++ lit keyword ++ ws2 ++ quoted arg ++ ws3 ++ lit "}}".

(** A posts directive as it is written. *)
Definition written_posts (ws1 ws2 : str) : str :=
  lit "{{" ++ ws1 ++ lit "posts" ++ ws2 ++ lit "}}".

(** The two quoted patterns are one pattern in the keyword. *)
Definition quoted_pattern (keyword : string) : regex :=
  lits "{{" ++ [Star isspace] ++ lits keyword ++ [Plus isspace]
  ++ [Lit dquote] ++ [Group1 dot] ++ pat_closing.

(** The blanks and the argument with which a title or description
    directive is written. *)
Record written : Type := {
  w_ws1 : str;      (* after the opening braces *)
  w_ws2 : str;      (* between the keyword and the quoted argument *)
  w_arg : str;
  w_ws3 : str       (* before the closing braces *)
}.

Definition directive_text (keyword : string) (d : written) : str :=
  written_directive keyword (w_ws1 d) (w_ws2 d) (w_arg d) (w_ws3 d).

(** [well_written d]: no blank or one blank follows the opening braces,
    so the pre-check sees the directive; blanks stand before the
    argument; the argument has no newline and no two opening braces;
    blanks stand before the closing braces. *)
Definition well_written (d : written) : Prop :=
  (w_ws1 d = [] \/ w_ws1 d = lit " ") /\
  w_ws2 d <> [] /\ forallb isspace (w_ws2 d) = true /\
  forallb dot (w_arg d) = true /\
  contains (lit "{{") (w_arg d) = false /\
  forallb isspace (w_ws3 d) = true.

(** A character that is no opening brace. *)
Definition not_open (c : ascii) : bool := negb (Ascii.eqb c "{"%char).

(** [plain s]: no two opening braces stand in [s], and [s] does not end
    with an opening brace. *)
Definition plain (s : str) : Prop := contains (lit "{{") (s ++ lit "{") = false.

(** The heading line that the title step puts before the document. *)
Definition heading (title : option str) : str :=
  match title with
  | Some t => lit "# " ++ t ++ nl
  | None => []
  end.

(** The store after the title and the description of the record at [a]
    have been set, each when there is one. *)
Definition with_metadata (title desc : option str) (a : addr) (h : Store) : Store :=
  let h := match title with Some t => alter (with_title t) a h | None => h end in
  match desc with Some d => alter (with_desc d) a h | None => h end.

(** [idempotent_on state a h md title desc body]: on the document [md]
    of the record at [a], [preprocess_md] sets the title and the
    description given and returns the heading of the title followed by
    [body], with the markers in uppercase and the ends trimmed; on that
    output a second pass, of the title and description steps or of all
    of [preprocess_md], changes neither the text nor the store. *)
Definition idempotent_on (state : State) (a : addr) (h : Store) (md : str)
    (title desc : option str) (body : str) : Prop :=
  let h1 := with_metadata title desc a h in
  let out := strip (toc_step (heading title ++ body)) in
  preprocess_md state a md h = (h1, Return (Ok out)) /\
  title_desc_steps a out h1 = (h1, Return out) /\
  preprocess_md state a out h1 = (h1, Return (Ok out)).

(** [single_line f]: the title and the description of [f] have no newline. *)
Definition single_line (f : File) : Prop :=
  forallb dot (FileMetadata_title (File_metadata f)) = true /\
  forallb dot (FileMetadata_desc (File_metadata f)) = true.

(** [same_record f f']: [f'] is [f] up to its document and its metadata. *)
Definition same_record (f f' : File) : Prop :=
  File_path f' = File_path f /\
  File_is_post f' = File_is_post f /\
  File_html f' = File_html f.

(** The files of a tree in the order in which [process_pages] visits
    them: the files of a directory, then its subdirectories. *)
Fixpoint tree_files (t : FileTree) : list File :=
  match t with
  | MkFileTree _ files trees => files ++ flat_map tree_files trees
  end.

(** [healthy n]: every entry below [n] can be listed when [isdir] says it
    is a directory. *)
Fixpoint healthy (n : fsnode) : bool :=
  match n with
  | RegularFile => true
  | Directory entries => forallb (fun e => healthy (snd e)) entries
  | Stale | Unreadable => false
  end.

Definition is_excluded (config : Config) (fname : str) : bool :=
  bool_decide (Some fname ∈ excluded config).

(** The paths of the regular files directly in [dir] that are not
    excluded, in the order of the listing. *)
Definition paths_here (config : Config) (dir : str) (entries : list (str * fsnode))
  : list str :=
  flat_map (fun e => if is_excluded config (fst e) || isdir (snd e)
                     then [] else [path_join dir (fst e)])
           entries.

(** The paths found below the subdirectories of [dir] that are not
    excluded, with [rec] for the paths below one subdirectory. *)
Definition paths_below (rec : fsnode -> str -> list str)
    (config : Config) (dir : str) (entries : list (str * fsnode)) : list str :=
  flat_map (fun e => if is_excluded config (fst e) || negb (isdir (snd e))
                     then [] else rec (snd e) (path_join dir (fst e)))
           entries.

(** The paths of the content files of the directory [node] at [dir], read
    off the file system: the files of the directory, then what is below
    its subdirectories; excluded names are left out with all that is
    below them. *)
Fixpoint content_paths (config : Config) (node : fsnode) (dir : str) : list str :=
  match node with
  | Directory entries =>
      paths_here config dir entries
      ++ flat_map (fun e => if is_excluded config (fst e) || negb (isdir (snd e))
                            then [] else content_paths config (snd e) (path_join dir (fst e)))
                  entries
  | RegularFile | Stale | Unreadable => []
  end.

(** [subtrees_mirror P config dir entries trees]: the trees of [trees]
    are, in the order of the listing [entries] of [dir], the trees of
    the listed directories that are not excluded: each has the path of
    [dir] joined with the name of its entry and is in the relation [P]
    with what the file system holds under that name. *)
Fixpoint subtrees_mirror (P : fsnode -> FileTree -> Prop) (config : Config) (dir : str)
    (entries : list (str * fsnode)) (trees : list FileTree) : Prop :=
  match entries with
  | [] => trees = []
  | (fname, child) :: rest =>
      if is_excluded config fname || negb (isdir child)
      then subtrees_mirror P config dir rest trees
      else match trees with
           | c :: trees' =>
               FileTree_path c = path_join dir fname /\ P child c /\
               subtrees_mirror P config dir rest trees'
           | [] => False
           end
  end.

(** [mirrors config node t]: the tree [t] is the directory [node]
    without the excluded names.  The files of [t] carry, in the order of
    the listing, the paths of the listed names that are not excluded and
    are no directories; the subtrees of [t] are, in that order, the
    trees of the listed directories that are not excluded, and each of
    them mirrors its directory in the same way. *)
Fixpoint mirrors (config : Config) (node : fsnode) (t : FileTree) : Prop :=
  match node with
  | Directory entries =>
      map File_path (FileTree_files t) = paths_here config (FileTree_path t) entries /\
      subtrees_mirror (mirrors config) config (FileTree_path t) entries (FileTree_trees t)
  | RegularFile | Stale | Unreadable => False
  end.

(** The object that [process_pages] stores for [file]: the file with the
    text that was read for it. *)
Definition loaded_file (w : World) (file : File) : File :=
  with_md (match W_open w (File_path file) with
           | Return text => text
           | Raise _ => []
           end) file.

(** The exception that escapes [process_pages] when the read of the
    content file [path] raises [e]: the [UnwrapError] of the [Err] that
    [load_md_file] returns for an [OSError], every other exception as it
    is. *)
Definition load_error (path : str) (e : exn) : exn :=
  match e with
  | OSError => UnwrapError (lit "Failed to compile file " ++ path)
  | _ => e
  end.

(** [readable w path]: opening and reading [path] gives a text. *)
Definition readable (w : World) (path : str) : Prop :=
  exists text, W_open w path = Return text.

(** The addresses of the files of [files] whose [is_post] is [want], when
    the first file is stored at [base] and the others follow it. *)
Fixpoint addresses (base : nat) (files : list File) (want : bool) : list addr :=
  match files with
  | [] => []
  | file :: rest =>
      (if Bool.eqb (File_is_post file) want then [base] else [])
      ++ addresses (S base) rest want
  end.

(** The state with more posts and more pages at the ends of its lists. *)
Definition extend_state (state : State) (posts pages : list addr) : State :=
  {| State_posts := State_posts state ++ posts;
     State_static_pages := State_static_pages state ++ pages;
     State_include_before := State_include_before state;
     State_include_after := State_include_after state |}.

(** The html that [compile_files] gives to the object at [a]. *)
Definition wrapped (w : World) (state : State) (h : Store) (a : addr) : str :=
  State_include_before state ++ W_markdown w (File_md (h !!! a)) ++ State_include_after state.

(** The body of the loop of [compile_files]. *)
Definition compile_body (w : World) (state : State) (file : addr) : M unit :=
  f <- load file ;;
  body <- unwrap (render_md w (File_md f)) ;;
  set_html file (State_include_before state ++ body ++ State_include_after state).




(** The end of [main], from [write_files] on. *)
Definition write_phase (w : World) (config : Config) (state : State) (h : Store)
  : list event * outcome Z :=
  match perform w (write_files state (W_srcdir w) (W_outdir w) h) [] with
  | (written, Raise e) => (written, Raise e)
  | (written, Return _) =>
      match path_join_opt (W_srcdir w) (Config_static_src config),
            path_join_opt (W_outdir w) (Config_static_dest config) with
      | Return src, Return dst =>
          match call w (CopyTree src dst) written with
          | (log, Raise e) => (log, Raise e)
          | (log, Return _) => (log, Return 0)
          end
      | Raise e, _ | _, Raise e => (written, Raise e)
      end
  end.

(** [kept_but_html f f']: [f'] is [f] up to its html. *)
Definition kept_but_html (f f' : File) : Prop :=
  File_path f' = File_path f /\ File_metadata f' = File_metadata f /\
  File_is_post f' = File_is_post f /\ File_md f' = File_md f.


(** ** Vocabulary for the configuration *)

(** The value that [read_config] gives to the attribute of a key: the
    value of the key in the dict, [None] when the dict has no such key. *)
Definition attribute (key : str) (items : list (str * pyvalue)) : pyvalue :=
  default PyNone (dict_get key items).

Definition is_dict (j : pyvalue) : bool :=
  match j with
  | PyDict _ => true
  | _ => false
  end.

(** What [main] gets from [read_config]: its result, or the exception
    that escapes it.  A configuration with an attribute that is neither
    a string nor [None] is not a [Config] of above. *)
Definition seen_by_main (o : config_outcome) : option (outcome (Result Config)) :=
  match o with
  | ConfigReturn (Ok c) =>
      match typed_config c with
      | Some config => Some (Return (Ok config))
      | None => None
      end
  | ConfigReturn (Err e) => Some (Return (Err e))
  | ConfigRaise ConfigOSError => Some (Raise OSError)
  | ConfigRaise ConfigValueError => Some (Raise ValueError)
  end.

(** The run [w] is one in which [config.json] is [source]. *)
Definition reads_config (type_error : pyvalue -> str) (source : config_source) (w : World)
  : Prop :=
  seen_by_main (read_config type_error (W_srcdir w) source) = Some (W_config w).

(** The text of the [TypeError] of CPython 3.11 for a subscript with a
    string; a dict raises none. *)
Definition type_error_311 (j : pyvalue) : str :=
  match j with
  | PyNone => lit "'NoneType' object is not subscriptable"
  | PyBool _ => lit "'bool' object is not subscriptable"
  | PyInt _ => lit "'int' object is not subscriptable"
  | PyFloat _ => lit "'float' object is not subscriptable"
  | PyStr _ => lit "string indices must be integers, not 'str'"
  | PyList _ => lit "list indices must be integers or slices, not str"
  | PyDict _ => []
  end.

(** The items of a [config.json] for [blog_config], with a key that
    [read_config] does not know. *)
Definition blog_items : list (str * pyvalue) :=
  [ (lit "posts dir", PyStr (lit "posts"));
    (lit "author", PyStr (lit "nobody"));
    (lit "include before", PyStr (lit "header.html"));
    (lit "static src", PyStr (lit "static"));
    (lit "static dest", PyStr (lit "static")) ].
(** * Properties *)

(** ** The string operations *)

Lemma startswith_nil s : startswith s [] = true.
Proof. destruct s; reflexivity. Qed.

Lemma startswith_app pre r : startswith (pre ++ r) pre = true.
Proof.
  induction pre as [|p pre IH]; simpl.
  - apply startswith_nil.
  - rewrite Ascii.eqb_refl. exact IH.
Qed.

Lemma startswith_split s pre : startswith s pre = true -> s = pre ++ drop (length pre) s.
Proof.
  revert s. induction pre as [|p pre IH]; intros s H.
  - reflexivity.
  - destruct s as [|c s]; simpl in H; [discriminate|].
    apply andb_true_iff in H as [Hc Hs]. apply Ascii.eqb_eq in Hc. subst c.
    simpl. f_equal. apply IH, Hs.
Qed.

Lemma startswith_true_iff s pre : startswith s pre = true <-> exists r, s = pre ++ r.
Proof.
  split.
  - intros H. eexists. apply startswith_split, H.
  - intros [r ->]. apply startswith_app.
Qed.

Lemma startswith_app_l s pre r : startswith s pre = true -> startswith (s ++ r) pre = true.
Proof.
  intros H. apply startswith_true_iff in H as [t ->].
  rewrite <- app_assoc. apply startswith_app.
Qed.

Lemma contains_true_iff sub s :
  contains sub s = true <-> exists i, startswith (drop i s) sub = true.
Proof.
  induction s as [|c s IH]; simpl.
  - rewrite orb_false_r. split.
    + intros H. exists O. exact H.
    + intros [i H]. destruct i; exact H.
  - rewrite orb_true_iff, IH. split.
    + intros [H|[i H]]; [exists O|exists (S i)]; exact H.
    + intros [[|i] H]; [left|right; exists i]; exact H.
Qed.

Lemma contains_false_drop sub s i : contains sub s = false -> startswith (drop i s) sub = false.
Proof.
  intros H. destruct (startswith (drop i s) sub) eqn:E; [|reflexivity].
  assert (contains sub s = true) by (apply contains_true_iff; eauto). congruence.
Qed.

Lemma contains_false_suffix sub s i : contains sub s = false -> contains sub (drop i s) = false.
Proof.
  intros H. destruct (contains sub (drop i s)) eqn:E; [|reflexivity].
  apply contains_true_iff in E as [j E]. rewrite drop_drop in E.
  rewrite (contains_false_drop _ _ _ H) in E. discriminate.
Qed.

Lemma first_at_head old s : startswith s old = true -> first_at old s 0.
Proof. intros H. split; [exact H|]. intros i Hi. lia. Qed.

Lemma first_at_tail old c s k :
  first_at old (c :: s) (S k) -> startswith (c :: s) old = false /\ first_at old s k.
Proof.
  intros [H1 H2]. split.
  - apply (H2 O). lia.
  - split; [exact H1|]. intros i Hi. apply (H2 (S i)). lia.
Qed.

Lemma find_from_first_at sub s i :
  find_from sub s i = -1 \/
  exists k, find_from sub s i = i + Z.of_nat k /\ first_at sub s k.
Proof.
  revert i. induction s as [|c s IH]; intros i; cbn [find_from].
  - destruct (startswith [] sub) eqn:E; [right|left; reflexivity].
    exists O. split; [lia|]. apply first_at_head, E.
  - destruct (startswith (c :: s) sub) eqn:E.
    + right. exists O. split; [lia|]. apply first_at_head, E.
    + destruct (IH (i + 1)) as [H|[k [H1 [H2 H3]]]]; [left; exact H|right].
      exists (S k). split; [lia|]. split; [exact H2|].
      intros [|j] Hj; [exact E|]. apply H3. lia.
Qed.

Lemma find_first_at s sub k : find s sub = Z.of_nat k -> first_at sub s k.
Proof.
  unfold find. intros H.
  destruct (find_from_first_at sub s 0) as [E|[k' [E F]]]; [lia|].
  replace k with k' by lia. exact F.
Qed.

Lemma replace_steps_nil n old new : replace_steps n old new [] = [].
Proof. destruct n; reflexivity. Qed.

Lemma replace_steps_enough old new n m s :
  old <> [] -> (length s <= n)%nat -> (length s <= m)%nat ->
  replace_steps n old new s = replace_steps m old new s.
Proof.
  intros Hold. revert m s.
  induction n as [|n IH]; intros m s Hn Hm.
  - destruct s; [|simpl in Hn; lia]. now rewrite !replace_steps_nil.
  - destruct s as [|c s]; [now rewrite !replace_steps_nil|].
    destruct m as [|m]; [simpl in Hm; lia|].
    simpl in Hn, Hm. simpl.
    destruct old as [|o old]; [congruence|].
    destruct (Ascii.eqb o c && startswith s old).
    + f_equal. apply IH; simpl; rewrite length_drop; lia.
    + f_equal. apply IH; lia.
Qed.

Lemma replace_nil old new : old <> [] -> replace [] old new = [].
Proof. destruct old; [congruence|reflexivity]. Qed.

Lemma replace_cons c s old new :
  old <> [] ->
  replace (c :: s) old new =
    if startswith (c :: s) old
    then new ++ replace (drop (length old) (c :: s)) old new
    else c :: replace s old new.
Proof.
  intros Hold. unfold replace.
  destruct old as [|o old]; [congruence|].
  cbn [length replace_steps].
  destruct (startswith (c :: s) (o :: old)).
  - f_equal. apply replace_steps_enough; [discriminate| |lia].
    simpl. rewrite length_drop. lia.
  - reflexivity.
Qed.

Lemma replace_absent s old new : old <> [] -> contains old s = false -> replace s old new = s.
Proof.
  intros Hold. induction s as [|c s IH]; intros H.
  - apply replace_nil, Hold.
  - cbn [contains] in H. apply orb_false_iff in H as [H1 H2].
    rewrite replace_cons, H1 by exact Hold. f_equal. apply IH, H2.
Qed.

(** Replacing a text whose leftmost occurrence is at [length u] and which
    does not occur in what follows that occurrence. *)
Lemma replace_once u old v new :
  old <> [] -> first_at old (u ++ old ++ v) (length u) -> contains old v = false ->
  replace (u ++ old ++ v) old new = u ++ new ++ v.
Proof.
  intros Hold. induction u as [|c u IH]; intros Hfirst Hv.
  - simpl. destruct old as [|o old]; [congruence|].
    change ((o :: old) ++ v) with (o :: (old ++ v)).
    rewrite replace_cons by discriminate.
    change (o :: (old ++ v)) with ((o :: old) ++ v).
    rewrite startswith_app, drop_app_length.
    now rewrite replace_absent.
  - change ((c :: u) ++ old ++ v) with (c :: (u ++ old ++ v)) in *.
    apply first_at_tail in Hfirst as [H1 H2].
    rewrite replace_cons, H1 by exact Hold.
    simpl. f_equal. apply IH; assumption.
Qed.

Lemma lstrip_suffix s : exists v, s = v ++ lstrip s.
Proof.
  induction s as [|c s [v IH]]; simpl.
  - exists []. reflexivity.
  - destruct (isspace c).
    + exists (c :: v). simpl. f_equal. exact IH.
    + exists []. reflexivity.
Qed.

Lemma lstrip_head s :
  match lstrip s with
  | [] => True
  | c :: _ => isspace c = false
  end.
Proof.
  induction s as [|c s IH]; simpl; [exact I|].
  destruct (isspace c) eqn:E; [exact IH|exact E].
Qed.

Lemma lstrip_fixed s :
  match s with [] => True | c :: _ => isspace c = false end -> lstrip s = s.
Proof. destruct s as [|c s]; simpl; [reflexivity|]. intros ->. reflexivity. Qed.

Lemma lstrip_idem s : lstrip (lstrip s) = lstrip s.
Proof. apply lstrip_fixed, lstrip_head. Qed.

Lemma rstrip_prefix s : exists v, s = rstrip s ++ v.
Proof.
  unfold rstrip. destruct (lstrip_suffix (rev s)) as [v Hv].
  exists (rev v). rewrite <- rev_app_distr, <- Hv. symmetry. apply rev_involutive.
Qed.

Lemma rstrip_idem s : rstrip (rstrip s) = rstrip s.
Proof. unfold rstrip. rewrite rev_involutive, lstrip_idem. reflexivity. Qed.

Lemma strip_idem s : strip (strip s) = strip s.
Proof.
  unfold strip.
  assert (H : lstrip (rstrip (lstrip s)) = rstrip (lstrip s)).
  { apply lstrip_fixed.
    pose proof (lstrip_head s) as Hh.
    destruct (rstrip_prefix (lstrip s)) as [v Hv].
    destruct (rstrip (lstrip s)) as [|c r]; [exact I|].
    rewrite Hv in Hh. exact Hh. }
  rewrite H. apply rstrip_idem.
Qed.

(** ** The matcher *)

Lemma greedy_inv cls k s m g :
  greedy cls k s = Some (m, g) ->
  exists ws m', m = ws ++ m' /\ forallb cls ws = true /\
                s = ws ++ drop (length ws) s /\ k (drop (length ws) s) = Some (m', g).
Proof.
  revert m g. induction s as [|c s IH]; intros m g H; cbn [greedy] in H.
  - exists [], m. auto.
  - destruct (cls c) eqn:Ec; [destruct (greedy cls k s) as [[m1 g1]|] eqn:Er|].
    + inversion H; subst; clear H.
      destruct (IH _ _ eq_refl) as (ws & m' & -> & Hws & Hs & Hk).
      exists (c :: ws), m'. simpl. rewrite Ec, Hws. repeat split; auto.
      f_equal. exact Hs.
    + exists [], m. auto.
    + exists [], m. auto.
Qed.

Lemma greedy_group_inv cls k s m grp :
  greedy_group cls k s = Some (m, grp) ->
  exists m' g, m = grp ++ m' /\ forallb cls grp = true /\
               s = grp ++ drop (length grp) s /\ k (drop (length grp) s) = Some (m', g).
Proof.
  assert (Hstop : forall s m grp,
             match k s with Some (m, _) => Some (m, []) | None => None end = Some (m, grp) ->
             exists m' g, m = grp ++ m' /\ forallb cls grp = true /\
                          s = grp ++ drop (length grp) s /\
                          k (drop (length grp) s) = Some (m', g)).
  { intros s0 m0 grp0 H. destruct (k s0) as [[m1 g1]|] eqn:Ek; [|discriminate].
    inversion H; subst. exists m0, g1. auto. }
  revert m grp. induction s as [|c s IH]; intros m grp H; cbn [greedy_group] in H.
  - apply Hstop, H.
  - destruct (cls c) eqn:Ec; [destruct (greedy_group cls k s) as [[m1 g1]|] eqn:Er|].
    + inversion H; subst; clear H.
      destruct (IH _ _ eq_refl) as (m' & g & -> & Hws & Hs & Hk).
      exists m', g. simpl. rewrite Ec, Hws. repeat split; auto.
      f_equal. exact Hs.
    + apply Hstop, H.
    + apply Hstop, H.
Qed.

(** The matcher is sound: what it reports as [m[0]] is a prefix of the
    text and is consumed by the pattern. *)
Lemma match_here_sound re s m g :
  match_here re s = Some (m, g) -> parses re m /\ s = m ++ drop (length m) s.
Proof.
  revert s m g. induction re as [|a re IH]; intros s m g H.
  - inversion H; subst. split; [constructor|reflexivity].
  - destruct a as [c|cls|cls|cls]; cbn [match_here] in H.
    + destruct s as [|c' s]; [discriminate|].
      destruct (Ascii.eqb c c') eqn:Ec; [|discriminate].
      apply Ascii.eqb_eq in Ec. subst c'.
      destruct (match_here re s) as [[m1 g1]|] eqn:Er; [|discriminate].
      inversion H; subst. destruct (IH _ _ _ Er) as [Hp Hs].
      split; [constructor; exact Hp|]. simpl. f_equal. exact Hs.
    + apply greedy_inv in H as (ws & m' & -> & Hws & Hs & Hk).
      destruct (IH _ _ _ Hk) as [Hp Hd]. split; [constructor; assumption|].
      rewrite length_app, <- drop_drop, <- app_assoc, <- Hd. exact Hs.
    + destruct s as [|c s]; [discriminate|].
      destruct (cls c) eqn:Ec; [|discriminate].
      destruct (greedy cls (match_here re) s) as [[m1 g1]|] eqn:Er; [|discriminate].
      inversion H; subst.
      apply greedy_inv in Er as (ws & m' & -> & Hws & Hs & Hk).
      destruct (IH _ _ _ Hk) as [Hp Hd]. split; [constructor; assumption|].
      simpl. f_equal.
      rewrite length_app, <- drop_drop, <- app_assoc, <- Hd. exact Hs.
    + destruct (greedy_group cls (match_here re) s) as [[m1 g1]|] eqn:Er; [|discriminate].
      inversion H; subst.
      apply greedy_group_inv in Er as (m' & g' & -> & Hws & Hs & Hk).
      destruct (IH _ _ _ Hk) as [Hp Hd]. split; [constructor; assumption|].
      rewrite length_app, <- drop_drop, <- app_assoc, <- Hd. exact Hs.
Qed.

Lemma greedy_complete cls k ws s :
  forallb cls ws = true -> is_Some (k s) -> is_Some (greedy cls k (ws ++ s)).
Proof.
  intros Hws Hk.
  assert (Hbase : is_Some (greedy cls k s)).
  { destruct s as [|c s]; cbn [greedy]; [exact Hk|].
    destruct (cls c); [|exact Hk].
    destruct (greedy cls k s) as [[m g]|]; [eauto|exact Hk]. }
  induction ws as [|c ws IH]; [exact Hbase|].
  simpl in Hws. apply andb_true_iff in Hws as [Hc Hws].
  simpl. rewrite Hc. destruct (IH Hws) as [[m g] ->]. eauto.
Qed.

Lemma greedy_group_complete cls k ws s :
  forallb cls ws = true -> is_Some (k s) -> is_Some (greedy_group cls k (ws ++ s)).
Proof.
  intros Hws [[m0 g0] Hk].
  assert (Hbase : is_Some (greedy_group cls k s)).
  { destruct s as [|c s]; cbn [greedy_group]; rewrite Hk; [eauto|].
    destruct (cls c); [|eauto].
    destruct (greedy_group cls k s) as [[m g]|]; eauto. }
  induction ws as [|c ws IH]; [exact Hbase|].
  simpl in Hws. apply andb_true_iff in Hws as [Hc Hws].
  simpl. rewrite Hc. destruct (IH Hws) as [[m g] ->]. eauto.
Qed.

(** The matcher is complete: it finds a match wherever the pattern can
    consume a prefix of the text. *)
Lemma match_here_complete re m :
  parses re m -> forall r, is_Some (match_here re (m ++ r)).
Proof.
  induction 1 as [|c re m _ IH|cls re ws m Hws _ IH|cls re c ws m Hc Hws _ IH
                 |cls re ws m Hws _ IH]; intros r.
  - simpl. eauto.
  - simpl. rewrite Ascii.eqb_refl. destruct (IH r) as [[m1 g1] ->]. simpl. eauto.
  - cbn [match_here]. rewrite <- app_assoc. apply greedy_complete; auto.
  - cbn [match_here app]. rewrite Hc, <- app_assoc.
    destruct (greedy_complete cls (match_here re) ws (m ++ r) Hws (IH r)) as [[m1 g1] ->].
    simpl. eauto.
  - cbn [match_here]. rewrite <- app_assoc.
    destruct (greedy_group_complete cls (match_here re) ws (m ++ r) Hws (IH r))
      as [[m1 g1] ->].
    eauto.
Qed.

Lemma search_from_spec re s i m :
  search_from re s i = Some m ->
  exists k, m_start m = (i + k)%nat /\
            match_here re (drop k s) = Some (m_0 m, m_1 m) /\
            forall j, (j < k)%nat -> match_here re (drop j s) = None.
Proof.
  revert i. induction s as [|c s IH]; intros i H; cbn [search_from] in H.
  - destruct (match_here re []) as [[m0 g]|] eqn:E; [|discriminate].
    inversion H; subst; clear H. exists O. simpl.
    split; [lia|]. split; [exact E|]. intros j Hj. lia.
  - destruct (match_here re (c :: s)) as [[m0 g]|] eqn:E.
    + inversion H; subst; clear H. exists O. simpl.
      split; [lia|]. split; [exact E|]. intros j Hj. lia.
    + destruct (IH _ H) as (k & Hk & Hm & Hlt).
      exists (S k). split; [lia|]. split; [exact Hm|].
      intros [|j] Hj; [exact E|]. apply Hlt. lia.
Qed.

(** [re.search] reports the leftmost match: its text stands in the
    document at [m_start], and nowhere to the left of it. *)
Lemma re_search_first_at re s m :
  re_search re s = Some m ->
  first_at (m_0 m) s (m_start m) /\
  s = take (m_start m) s ++ m_0 m ++ drop (m_start m + length (m_0 m)) s.
Proof.
  intros H. apply search_from_spec in H as (k & Hk & Hm & Hlt).
  simpl in Hk. subst k.
  destruct (match_here_sound _ _ _ _ Hm) as [Hp Hs].
  split; [split|].
  - apply startswith_true_iff. eauto.
  - intros i Hi. destruct (startswith (drop i s) (m_0 m)) eqn:E; [|reflexivity].
    apply startswith_true_iff in E as [r E].
    destruct (match_here_complete _ _ Hp r) as [x Hx].
    rewrite <- E, (Hlt i Hi) in Hx. discriminate.
  - rewrite drop_drop in Hs. rewrite <- Hs. symmetry. apply take_drop.
Qed.

(** ** The store *)

Lemma alter_other (f : File -> File) (a b : addr) (h : Store) :
  b <> a -> alter f a h !!! b = h !!! b.
Proof. intros H. apply list_lookup_total_alter_ne. congruence. Qed.

(** An attribute assignment changes the attribute it names and no other. *)
Lemma alter_field {B} (proj : File -> B) (f : File -> File) (a b : addr) (h : Store) :
  (forall x, proj (f x) = proj x) -> proj (alter f a h !!! b) = proj (h !!! b).
Proof.
  intros H. rewrite list_lookup_total_alter.
  case_decide as E; [|reflexivity]. destruct E as [-> _]. apply H.
Qed.

Lemma untouched_refl l h : untouched l h h.
Proof. intros b _. reflexivity. Qed.

Lemma untouched_trans l h1 h2 h3 :
  untouched l h1 h2 -> untouched l h2 h3 -> untouched l h1 h3.
Proof. intros H1 H2 b Hb. rewrite (H2 b Hb). apply H1, Hb. Qed.

Lemma untouched_weaken l k h h' :
  (forall b, b ∈ l -> b ∈ k) -> untouched l h h' -> untouched k h h'.
Proof. intros Hsub H b Hb. apply H. intros Hl. apply Hb, Hsub, Hl. Qed.

Lemma untouched_alter f a h : untouched [a] h (alter f a h).
Proof.
  intros b Hb. apply alter_other. intros ->. apply Hb. constructor.
Qed.

(** ** The steps of [preprocess_md] *)

Lemma title_step_run a md h :
  title_step a md h =
    if title_token md then
      match re_search pat_title md with
      | Some m =>
          match m_1 m with
          | Some t => (alter (with_title t) a h,
                       Return (lit "# " ++ t ++ nl ++ replace md (m_0 m) []))
          | None => (h, Raise (UnwrapError (lit "Invalid match on 'title'")))
          end
      | None => (h, Raise (UnwrapError (lit "Invalid match on 'title'")))
      end
    else (h, Return md).
Proof.
  unfold title_step, title_token, title.
  destruct (contains (lit "{{ title") md || contains (lit "{{title") md); [|reflexivity].
  destruct (re_search pat_title md) as [m|]; [|reflexivity].
  destruct (m_1 m); reflexivity.
Qed.

Lemma desc_step_run a md h :
  desc_step a md h =
    if desc_token md then
      match re_search pat_desc md with
      | Some m =>
          match m_1 m with
          | Some d => (alter (with_desc d) a h, Return (replace md (m_0 m) []))
          | None => (h, Raise (UnwrapError (lit "Invalid match on 'desc'")))
          end
      | None => (h, Raise (UnwrapError (lit "Invalid match on 'desc'")))
      end
    else (h, Return md).
Proof.
  unfold desc_step, desc_token, desc.
  destruct (contains (lit "{{ desc") md || contains (lit "{{desc") md); [|reflexivity].
  destruct (re_search pat_desc md) as [m|]; [|reflexivity].
  destruct (m_1 m); reflexivity.
Qed.

Lemma fold_left_flat_map {A} (f : A -> str) (l : list A) (init : str) :
  fold_left (fun acc x => acc ++ f x) l init = init ++ flat_map f l.
Proof.
  revert init. induction l as [|x l IH]; intros init; simpl.
  - symmetry. apply app_nil_r.
  - rewrite IH, <- app_assoc. reflexivity.
Qed.

Lemma posts_loop_run state h :
  posts_loop state h = (h, Return (flat_map (fun p => entry_of (h !!! p)) (State_posts state))).
Proof. unfold posts_loop. rewrite fold_left_flat_map. reflexivity. Qed.

Lemma posts_run state md s h :
  posts state md s h =
    match re_search pat_posts md with
    | Some m =>
        (h, Return (Ok (replace s (m_0 m)
                          (wrap_posts (flat_map (fun p => entry_of (h !!! p))
                                                (State_posts state))))))
    | None => (h, Return (Err (lit "Invalid match on 'posts'")))
    end.
Proof.
  unfold posts. destruct (re_search pat_posts md) as [m|]; [|reflexivity].
  unfold bind. rewrite posts_loop_run. reflexivity.
Qed.

Lemma posts_step_store state md h : fst (posts_step state md h) = h.
Proof.
  unfold posts_step.
  destruct (contains (lit "{{ posts") md || contains (lit "{{posts") md); [|reflexivity].
  unfold bind. rewrite posts_run.
  destruct (re_search pat_posts md); reflexivity.
Qed.

Lemma title_step_untouched a md h : untouched [a] h (fst (title_step a md h)).
Proof.
  rewrite title_step_run.
  destruct (title_token md); [|apply untouched_refl].
  destruct (re_search pat_title md) as [m|]; [|apply untouched_refl].
  destruct (m_1 m); [apply untouched_alter|apply untouched_refl].
Qed.

Lemma desc_step_untouched a md h : untouched [a] h (fst (desc_step a md h)).
Proof.
  rewrite desc_step_run.
  destruct (desc_token md); [|apply untouched_refl].
  destruct (re_search pat_desc md) as [m|]; [|apply untouched_refl].
  destruct (m_1 m); [apply untouched_alter|apply untouched_refl].
Qed.

Lemma title_desc_steps_untouched a md h : untouched [a] h (fst (title_desc_steps a md h)).
Proof.
  unfold title_desc_steps, bind.
  pose proof (title_step_untouched a md h) as H1.
  destruct (title_step a md h) as [h1 [md1|e]]; simpl in *; [|exact H1].
  apply (untouched_trans _ _ _ _ H1), desc_step_untouched.
Qed.

(** [preprocess_md] is its title and description steps, then the posts
    step, then the marker and the trimming. *)
Lemma preprocess_md_split state a md h :
  preprocess_md state a md h =
    (md <- title_desc_steps a md ;;
     md <- posts_step state md ;;
     ret (Ok (strip (toc_step md)))) h.
Proof.
  unfold preprocess_md, title_desc_steps, bind.
  destruct (title_step a md h) as [h1 [md1|e]]; [|reflexivity].
  destruct (desc_step a md1 h1) as [h2 [md2|e]]; reflexivity.
Qed.

Lemma preprocess_md_untouched state a md h : untouched [a] h (fst (preprocess_md state a md h)).
Proof.
  rewrite preprocess_md_split. unfold bind.
  pose proof (title_desc_steps_untouched a md h) as H1.
  destruct (title_desc_steps a md h) as [h1 [md1|e]]; simpl in *; [|exact H1].
  pose proof (posts_step_store state md1 h1) as H2.
  destruct (posts_step state md1 h1) as [h2 [md2|e]]; simpl in *; subst h2; exact H1.
Qed.

Lemma preprocess_page_untouched state p h : untouched [p] h (fst (preprocess_page state p h)).
Proof.
  unfold preprocess_page, bind, load.
  pose proof (preprocess_md_untouched state p (File_md (h !!! p)) h) as H1.
  destruct (preprocess_md state p (File_md (h !!! p)) h) as [h1 [[x|e]|e]];
    simpl in *; try exact H1.
  apply (untouched_trans _ _ _ _ H1), untouched_alter.
Qed.

Lemma for_each_untouched state l h :
  untouched l h (fst (for_each l (preprocess_page state) h)).
Proof.
  revert h. induction l as [|p l IH]; intros h; simpl.
  - apply untouched_refl.
  - unfold bind.
    pose proof (preprocess_page_untouched state p h) as H1.
    destruct (preprocess_page state p h) as [h1 [[]|e]]; simpl in *.
    + apply untouched_trans with h1.
      * eapply untouched_weaken; [|exact H1]. intros b Hb. apply elem_of_cons.
        left. apply list_elem_of_singleton in Hb. exact Hb.
      * eapply untouched_weaken; [|apply IH]. intros b Hb. apply elem_of_cons. auto.
    + eapply untouched_weaken; [|exact H1]. intros b Hb. apply elem_of_cons.
      left. apply list_elem_of_singleton in Hb. exact Hb.
Qed.

Lemma for_each_app {S A} (l k : list A) (body : A -> ST S unit) h :
  for_each (l ++ k) body h = (for_each l body ;; for_each k body) h.
Proof.
  revert h. induction l as [|x l IH]; intros h; simpl.
  - reflexivity.
  - unfold bind in *. destruct (body x h) as [h1 [[]|e]]; [apply IH|reflexivity].
Qed.

Lemma posts_step_run state md h :
  posts_step state md h =
    if posts_token md then
      match re_search pat_posts md with
      | Some m =>
          (h, Return (replace md (m_0 m)
                        (wrap_posts (flat_map (fun p => entry_of (h !!! p))
                                              (State_posts state)))))
      | None => (h, Raise (UnwrapError (lit "Invalid match on 'posts'")))
      end
    else (h, Return md).
Proof.
  unfold posts_step, posts_token.
  destruct (contains (lit "{{ posts") md || contains (lit "{{posts") md); [|reflexivity].
  unfold bind. rewrite posts_run.
  destruct (re_search pat_posts md); reflexivity.
Qed.

(** [preprocess_page] in terms of the steps of [preprocess_md]. *)
Lemma preprocess_page_run state p h :
  preprocess_page state p h =
    match title_desc_steps p (File_md (h !!! p)) h with
    | (h1, Return md1) =>
        match posts_step state md1 h1 with
        | (h2, Return md2) => (alter (with_md (strip (toc_step md2))) p h2, Return tt)
        | (h2, Raise e) => (h2, Raise e)
        end
    | (h1, Raise e) => (h1, Raise e)
    end.
Proof.
  unfold preprocess_page, bind, load. rewrite preprocess_md_split. unfold bind.
  destruct (title_desc_steps p (File_md (h !!! p)) h) as [h1 [md1|e]]; [|reflexivity].
  destruct (posts_step state md1 h1) as [h2 [md2|e]]; reflexivity.
Qed.

(** ** The url of a post *)

Lemma find_from_absent_char c u v i :
  contains [c] u = false -> find_from [c] (u ++ c :: v) i = i + Z.of_nat (length u).
Proof.
  revert i. induction u as [|x u IH]; intros i H.
  - cbn [app find_from startswith]. rewrite Ascii.eqb_refl, startswith_nil. simpl. lia.
  - cbn [contains] in H. apply orb_false_iff in H as [H1 H2].
    cbn [startswith] in H1. rewrite startswith_nil in H1.
    cbn [app find_from startswith]. rewrite startswith_nil, H1, (IH _ H2).
    simpl length. lia.
Qed.

Lemma slice_from_length u v : slice_from (u ++ v) (Z.of_nat (length u)) = v.
Proof.
  unfold slice_from.
  destruct (Z.of_nat (length u) <? 0) eqn:E; [apply Z.ltb_lt in E; lia|].
  rewrite Nat2Z.id. apply drop_app_length.
Qed.

Lemma post_url_root_stripped root stem :
  contains (lit "/") root = false ->
  find (lit "/" ++ stem ++ lit ".md") (lit ".md") = Z.of_nat (length (lit "/" ++ stem)) ->
  post_url (root ++ lit "/" ++ stem ++ lit ".md") = lit "/" ++ stem ++ lit ".html".
Proof.
  intros Hroot Hext. unfold post_url, find.
  change (lit "/") with ["/"%char] in *.
  cbn [app] in *.
  rewrite (find_from_absent_char "/"%char root (stem ++ lit ".md") 0 Hroot).
  rewrite Z.add_0_l, slice_from_length.
  change ("/"%char :: stem ++ lit ".md") with (("/"%char :: stem) ++ lit ".md" ++ []).
  rewrite replace_once.
  - rewrite app_nil_r. reflexivity.
  - discriminate.
  - apply find_first_at. rewrite app_nil_r. exact Hext.
  - reflexivity.
Qed.

Lemma spec_href_root_stripped root stem :
  spec_href root (root ++ lit "/" ++ stem ++ lit ".md") = lit "/" ++ stem ++ lit ".html".
Proof.
  unfold spec_href, strip_root. rewrite startswith_app, drop_app_length.
  unfold swap_extension, endswith.
  replace (lit "/" ++ stem ++ lit ".md") with ((lit "/" ++ stem) ++ lit ".md")
    by now rewrite <- app_assoc.
  rewrite rev_app_distr, startswith_app, length_app.
  change (length (lit ".md")) with 3%nat.
  replace (length (lit "/" ++ stem) + 3 - 3)%nat with (length (lit "/" ++ stem)) by lia.
  rewrite take_app_length, <- app_assoc. reflexivity.
Qed.

(** ** Facts about the two quoted directives *)

Lemma title_match_nonempty s m0 g : match_here pat_title s = Some (m0, g) -> m0 <> [].
Proof.
  intros H. apply match_here_sound in H as [Hp _].
  inversion Hp; subst; discriminate.
Qed.

Lemma desc_match_nonempty s m0 g : match_here pat_desc s = Some (m0, g) -> m0 <> [].
Proof.
  intros H. apply match_here_sound in H as [Hp _].
  inversion Hp; subst; discriminate.
Qed.

Lemma re_search_match re s m :
  re_search re s = Some m -> exists t, match_here re t = Some (m_0 m, m_1 m).
Proof. intros H. apply search_from_spec in H as (k & _ & H & _). eauto. Qed.

(** Deleting the text of the leftmost match when it does not occur again
    after the match: what stands before and after the match is kept. *)
Lemma replace_match re md m new :
  re_search re md = Some m ->
  m_0 m <> [] ->
  contains (m_0 m) (drop (m_start m + length (m_0 m)) md) = false ->
  replace md (m_0 m) new
    = take (m_start m) md ++ new ++ drop (m_start m + length (m_0 m)) md.
Proof.
  intros Hm Hne Hrest.
  destruct (re_search_first_at _ _ _ Hm) as [Hfirst Hsplit].
  assert (Hlen : length (take (m_start m) md) = m_start m).
  { apply length_take_le.
    assert (Hl : length md = length (take (m_start m) md ++ m_0 m
                        ++ drop (m_start m + length (m_0 m)) md)) by (f_equal; exact Hsplit).
    rewrite !length_app, length_take in Hl.
    destruct (m_0 m) as [|c r]; [congruence|]. simpl in Hl. lia. }
  rewrite Hsplit at 1. apply replace_once.
  - exact Hne.
  - rewrite <- Hsplit, Hlen. exact Hfirst.
  - exact Hrest.
Qed.

(** ** The tree builder *)

Lemma fsnode_induction (P : fsnode -> Prop) :
  P RegularFile -> P Stale -> P Unreadable ->
  (forall entries, Forall (fun e => P (snd e)) entries -> P (Directory entries)) ->
  forall n, P n.
Proof.
  intros HR HS HU HD. fix IH 1. intros [|entries| |].
  - exact HR.
  - apply HD.
    exact ((fix go (es : list (str * fsnode)) : Forall (fun e => P (snd e)) es :=
              match es return Forall (fun e => P (snd e)) es with
              | [] => List.Forall_nil _
              | e :: es' => List.Forall_cons _ e es' (IH (snd e)) (go es')
              end) entries).
  - exact HS.
  - exact HU.
Qed.

Lemma build_file_tree_loop entries dir root config :
  build_file_tree (Directory entries) dir root config
    = build_loop (fun child p => build_file_tree child p root config)
        dir root config entries [] [].
Proof.
  cbn [build_file_tree].
  match goal with
  | |- ?loop _ _ _ = _ =>
      enough (H : forall es files trees,
                 loop es files trees
                 = build_loop (fun child p => build_file_tree child p root config)
                     dir root config es files trees) by apply H
  end.
  induction es as [|[fname child] es IH]; intros files trees; [reflexivity|].
  cbn [build_loop].
  destruct (bool_decide (Some fname ∈ excluded config)); [apply IH|].
  destruct (isdir child).
  - destruct (build_file_tree child (path_join dir fname) root config) as [[t|e]|e];
      [apply IH|reflexivity|reflexivity].
  - destruct (Config_posts_dir config); [apply IH|reflexivity].
Qed.

Lemma well_classified_node root config dir files trees :
  (forall f, f ∈ files -> classified root config dir f) ->
  (forall c, c ∈ trees -> well_classified root config c) ->
  well_classified root config (MkFileTree dir files trees).
Proof.
  intros Hf Ht sub f Hsub Hin. inversion Hsub; subst.
  - apply Hf, Hin.
  - eapply Ht; eassumption.
Qed.

Lemma build_loop_classified rec dir root config es :
  Forall (fun e => forall p t, rec (snd e) p = Return (Ok t) ->
                     FileTree_path t = p /\ well_classified root config t) es ->
  forall files trees t,
    (forall f, f ∈ files -> classified root config dir f) ->
    (forall c, c ∈ trees -> well_classified root config c) ->
    build_loop rec dir root config es files trees = Return (Ok t) ->
    FileTree_path t = dir /\ well_classified root config t.
Proof.
  induction 1 as [|[fname child] es Hchild _ IH]; intros files trees t Hf Ht Hrun;
    cbn [build_loop] in Hrun.
  - inversion Hrun; subst. split; [reflexivity|]. now apply well_classified_node.
  - destruct (bool_decide (Some fname ∈ excluded config)); [eapply IH; eassumption|].
    destruct (isdir child).
    + destruct (rec child (path_join dir fname)) as [[c|e]|e] eqn:Erec; try discriminate.
      apply (IH files (trees ++ [c]) t Hf); [|exact Hrun].
      intros c' Hc'. apply elem_of_app in Hc' as [Hc'|Hc']; [apply Ht, Hc'|].
      apply list_elem_of_singleton in Hc'. subst c'.
      apply (Hchild _ _ Erec).
    + destruct (Config_posts_dir config) as [posts_dir|] eqn:Epd; [|discriminate].
      apply (IH (files ++ [new_File (path_join dir fname)
                             (bool_decide (dir = path_join root posts_dir))]) trees t);
        [|exact Ht|exact Hrun].
      intros f Hin. apply elem_of_app in Hin as [Hin|Hin]; [apply Hf, Hin|].
      apply list_elem_of_singleton in Hin. subst f.
      exists posts_dir, fname. split; [exact Epd|]. split; [reflexivity|].
      simpl. apply bool_decide_eq_true.
Qed.

Lemma build_file_tree_classified root config node :
  forall dir t,
    build_file_tree node dir root config = Return (Ok t) ->
    FileTree_path t = dir /\ well_classified root config t.
Proof.
  induction node as [| | |entries IH] using fsnode_induction; intros dir t Hrun;
    try discriminate.
  rewrite build_file_tree_loop in Hrun.
  eapply build_loop_classified; [| | |exact Hrun].
  - eapply Forall_impl; [exact IH|]. intros [fname child] Hc p t'. apply Hc.
  - intros f Hf. inversion Hf.
  - intros c Hc. inversion Hc.
Qed.

Lemma build_loop_fresh rec dir root config es :
  Forall (fun e => forall p t, rec (snd e) p = Return (Ok t) -> fresh_tree t) es ->
  forall files trees t,
    (forall f, f ∈ files -> File_metadata f = new_FileMetadata) ->
    (forall c, c ∈ trees -> fresh_tree c) ->
    build_loop rec dir root config es files trees = Return (Ok t) ->
    fresh_tree t.
Proof.
  induction 1 as [|[fname child] es Hchild _ IH]; intros files trees t Hf Ht Hrun;
    cbn [build_loop] in Hrun.
  - inversion Hrun; subst. intros sub f Hsub Hin. inversion Hsub; subst.
    + apply Hf, Hin.
    + eapply Ht; eassumption.
  - destruct (bool_decide (Some fname ∈ excluded config)); [eapply IH; eassumption|].
    destruct (isdir child).
    + destruct (rec child (path_join dir fname)) as [[c|e]|e] eqn:Erec; try discriminate.
      apply (IH files (trees ++ [c]) t Hf); [|exact Hrun].
      intros c' Hc'. apply elem_of_app in Hc' as [Hc'|Hc']; [apply Ht, Hc'|].
      apply list_elem_of_singleton in Hc'. subst c'. apply (Hchild _ _ Erec).
    + destruct (Config_posts_dir config) as [posts_dir|]; [|discriminate].
      eapply IH; [|exact Ht|exact Hrun].
      intros f Hin. apply elem_of_app in Hin as [Hin|Hin]; [apply Hf, Hin|].
      apply list_elem_of_singleton in Hin. subst f. reflexivity.
Qed.

(** The files of a tree that [build_file_tree] returns are new. *)
Lemma build_file_tree_fresh root config node :
  forall dir t, build_file_tree node dir root config = Return (Ok t) -> fresh_tree t.
Proof.
  induction node as [| | |entries IH] using fsnode_induction; intros dir t Hrun;
    try discriminate.
  rewrite build_file_tree_loop in Hrun.
  eapply build_loop_fresh; [| | |exact Hrun].
  - eapply Forall_impl; [exact IH|]. intros [fname child] Hc p t'. apply Hc.
  - intros f Hf. inversion Hf.
  - intros c Hc. inversion Hc.
Qed.

(** ** Loading the pages *)

Lemma FileTree_induction (P : FileTree -> Prop) :
  (forall path files trees, Forall P trees -> P (MkFileTree path files trees)) ->
  forall t, P t.
Proof.
  intros H. fix IH 1. intros [path files trees]. apply H.
  exact ((fix go (ts : list FileTree) : Forall P ts :=
            match ts return Forall P ts with
            | [] => List.Forall_nil _
            | t :: ts' => List.Forall_cons _ t ts' (IH t) (go ts')
            end) trees).
Qed.

Lemma store_ok_empty : store_ok new_State [].
Proof.
  repeat split; try constructor.
  - intros a Ha. inversion Ha.
  - intros a [Ha|Ha]; inversion Ha.
Qed.

Lemma store_ok_step state h file text :
  File_metadata file = new_FileMetadata ->
  store_ok state h ->
  store_ok (append_file state (File_is_post file) (length h))
           (alter (with_md text) (length h) (h ++ [file])).
Proof.
  intros Hfile (Hp & Hs & Hdis & Hlt & Hall).
  assert (Hnew_p : length h ∉ State_posts state).
  { intros Hin. specialize (Hlt _ (or_introl Hin)). lia. }
  assert (Hnew_s : length h ∉ State_static_pages state).
  { intros Hin. specialize (Hlt _ (or_intror Hin)). lia. }
  assert (Hall' : Forall (fun f => File_metadata f = new_FileMetadata)
                    (alter (with_md text) (length h) (h ++ [file]))).
  { apply Forall_alter.
    - apply Forall_app. split; [exact Hall|]. apply Forall_singleton. exact Hfile.
    - intros f _ Hf. exact Hf. }
  assert (Hlen : length (alter (with_md text) (length h) (h ++ [file])) = S (length h)).
  { rewrite length_alter, length_app. simpl. lia. }
  unfold append_file. destruct (File_is_post file); simpl.
  - split; [|split; [|split; [|split]]]; try assumption.
    + apply NoDup_app. split; [exact Hp|]. split; [|apply NoDup_singleton].
      intros a Ha Hb. apply list_elem_of_singleton in Hb. subst a. exact (Hnew_p Ha).
    + intros a Ha. apply elem_of_app in Ha as [Ha|Ha]; [apply Hdis, Ha|].
      apply list_elem_of_singleton in Ha. subst a. exact Hnew_s.
    + intros a Ha. rewrite Hlen.
      destruct Ha as [Ha|Ha].
      * apply elem_of_app in Ha as [Ha|Ha].
        -- specialize (Hlt _ (or_introl Ha)). lia.
        -- apply list_elem_of_singleton in Ha. lia.
      * specialize (Hlt _ (or_intror Ha)). lia.
  - split; [|split; [|split; [|split]]]; try assumption.
    + apply NoDup_app. split; [exact Hs|]. split; [|apply NoDup_singleton].
      intros a Ha Hb. apply list_elem_of_singleton in Hb. subst a. exact (Hnew_s Ha).
    + intros a Ha Hb. apply elem_of_app in Hb as [Hb|Hb]; [exact (Hdis a Ha Hb)|].
      apply list_elem_of_singleton in Hb. subst a. exact (Hnew_p Ha).
    + intros a Ha. rewrite Hlen.
      destruct Ha as [Ha|Ha].
      * specialize (Hlt _ (or_introl Ha)). lia.
      * apply elem_of_app in Ha as [Ha|Ha].
        -- specialize (Hlt _ (or_intror Ha)). lia.
        -- apply list_elem_of_singleton in Ha. lia.
Qed.

(** One turn of the first loop of [process_pages]. *)
Lemma process_files_step w file rest state h :
  process_files w (file :: rest) state h
    = match W_open w (File_path file) with
      | Return text =>
          process_files w rest (append_file state (File_is_post file) (length h))
            (alter (with_md text) (length h) (h ++ [file]))
      | Raise OSError =>
          (h ++ [file],
           Raise (UnwrapError (lit "Failed to compile file " ++ File_path file)))
      | Raise e => (h ++ [file], Raise e)
      end.
Proof.
  cbn [process_files]. unfold bind, alloc, lift, load_md_file, unwrap, set_md, raise, ret.
  destruct (W_open w (File_path file)) as [text|[]]; reflexivity.
Qed.

Lemma process_files_ok w files :
  (forall f, f ∈ files -> File_metadata f = new_FileMetadata) ->
  forall state h state' h',
    store_ok state h ->
    process_files w files state h = (h', Return state') ->
    store_ok state' h'.
Proof.
  induction files as [|file rest IH]; intros Hfresh state h state' h' Hok Hrun.
  - inversion Hrun; subst. exact Hok.
  - rewrite process_files_step in Hrun.
    destruct (W_open w (File_path file)) as [text|[]]; try discriminate.
    eapply IH; [| |exact Hrun].
    + intros f Hf. apply Hfresh. now constructor.
    + apply store_ok_step; [|exact Hok]. apply Hfresh. constructor.
Qed.

Lemma process_tree_ok w t :
  fresh_tree t ->
  forall state h state' h',
    store_ok state h ->
    process_tree w t state h = (h', Return state') ->
    store_ok state' h'.
Proof.
  induction t as [path files trees IH] using FileTree_induction.
  intros Hfresh state h state' h' Hok Hrun.
  cbn [process_tree] in Hrun. unfold bind in Hrun.
  destruct (process_files w files state h) as [h1 [state1|e]] eqn:Efiles; [|discriminate].
  assert (Hok1 : store_ok state1 h1).
  { eapply process_files_ok; [|exact Hok|exact Efiles].
    intros f Hf. apply (Hfresh (MkFileTree path files trees) f); [constructor|exact Hf]. }
  assert (Hsub : forall c, c ∈ trees -> fresh_tree c).
  { intros c Hc sub f Hs Hf. apply (Hfresh sub f); [|exact Hf].
    econstructor; eassumption. }
  clear Efiles Hok Hfresh. revert state1 h1 Hok1 Hrun.
  induction IH as [|c cs Hc _ IHcs]; intros state1 h1 Hok1 Hrun.
  - inversion Hrun; subst. exact Hok1.
  - unfold bind in Hrun.
    destruct (process_tree w c state1 h1) as [h2 [state2|e]] eqn:Ec; [|discriminate].
    eapply IHcs; [| |exact Hrun].
    + intros c' Hc'. apply Hsub. now constructor.
    + eapply Hc; [|exact Hok1|exact Ec]. apply Hsub. constructor.
Qed.

(** After [process_pages] on a tree from [build_file_tree], started from
    the empty state, the posts are distinct objects, none of them is
    also a page, and every object has the metadata of a new [File]. *)
Lemma process_pages_fresh w node dir root config t state h :
  build_file_tree node dir root config = Return (Ok t) ->
  process_pages w new_State (Some t) [] = (h, Return state) ->
  NoDup (State_posts state) /\
  (forall a, a ∈ State_posts state -> a ∉ State_static_pages state) /\
  (forall a, File_metadata (h !!! a) = new_FileMetadata).
Proof.
  intros Hbuild Hrun.
  destruct (process_tree_ok w t (build_file_tree_fresh _ _ _ _ _ Hbuild)
              new_State [] state h store_ok_empty Hrun)
    as (Hp & _ & Hdis & _ & Hall).
  split; [exact Hp|]. split; [exact Hdis|].
  intros a. rewrite list_lookup_total_alt.
  destruct (h !! a) as [f|] eqn:Ea; [|reflexivity].
  rewrite Forall_forall in Hall. apply Hall, list_elem_of_lookup. eauto.
Qed.

(** ** The examples of the specification *)

Example title_hello :
  let md := lit "{{ title " ++ quoted (lit "Hello") ++ lit " }}" ++ nl ++ lit "Body text" in
  let h := [loaded "root/page.md" false md] in
  preprocess_md blog_state 0%nat md h
    = (alter (with_title (lit "Hello")) 0%nat h,
       Return (Ok (lit "# Hello" ++ nl ++ nl ++ lit "Body text"))).
Proof. vm_compute. reflexivity. Qed.

Example desc_one_blank :
  let md := lit "{{ desc " ++ quoted (lit "x") ++ lit " }}" in
  let h := [loaded "root/page.md" false md] in
  contains (lit "{{desc") md = false /\
  preprocess_md blog_state 0%nat md h
    = (alter (with_desc (lit "x")) 0%nat h, Return (Ok [])).
Proof. split; vm_compute; reflexivity. Qed.

Example url_of_post : post_url (lit "root/sub/post.md") = lit "/sub/post.html".
Proof. vm_compute. reflexivity. Qed.

Example blog_tree_built :
  build_file_tree blog_tree (lit "site") (lit "site") blog_config
    = Return (Ok blog_file_tree).
Proof. vm_compute. reflexivity. Qed.

Example blog_run :
  main blog_world =
    ([ Mkdir (lit "out/");
       WriteText (lit "out//index.html")
         (lit "<p>" ++ wrap_posts (post_block (lit "/posts/a.html") (lit "A") [])
          ++ lit "</p>");
       Mkdir (lit "out//posts/drafts");
       WriteText (lit "out//posts/drafts/d.html") (lit "<p>draft</p>");
       Mkdir (lit "out//posts");
       WriteText (lit "out//posts/a.html") (lit "<p># A</p>");
       CopyTree (lit "site/static") (lit "out/static") ],
     Return 0).
Proof. vm_compute. reflexivity. Qed.

(** ** Matching a written directive *)

Lemma consume_prepend c r : consume c r = prepend [c] r.
Proof. destruct r as [[m g]|]; reflexivity. Qed.

Lemma prepend_prepend u v r : prepend u (prepend v r) = prepend (u ++ v) r.
Proof. destruct r as [[m g]|]; simpl; [rewrite app_assoc|]; reflexivity. Qed.

Lemma match_lits w re s :
  match_here (map Lit w ++ re) (w ++ s) = prepend w (match_here re s).
Proof.
  induction w as [|c w IH]; simpl.
  - destruct (match_here re s) as [[m g]|]; reflexivity.
  - rewrite Ascii.eqb_refl, IH, consume_prepend, prepend_prepend. reflexivity.
Qed.

(** A greedy repetition that runs into a character outside its class
    takes the whole run, when the rest of the pattern matches there. *)
Lemma greedy_exact cls k ws s :
  forallb cls ws = true ->
  match s with [] => True | c :: _ => cls c = false end ->
  is_Some (k s) ->
  greedy cls k (ws ++ s) = prepend ws (k s).
Proof.
  intros Hws Hs [[m g] Hk]. rewrite Hk. simpl.
  induction ws as [|c ws IH]; simpl.
  - destruct s as [|c r]; simpl; [exact Hk|]. rewrite Hs. exact Hk.
  - simpl in Hws. apply andb_true_iff in Hws as [Hc Hws].
    rewrite Hc, (IH Hws). reflexivity.
Qed.

Lemma greedy_group_none cls k s :
  (forall x y, s = x ++ y -> forallb cls x = true -> k y = None) ->
  greedy_group cls k s = None.
Proof.
  induction s as [|c r IH]; intros H; cbn [greedy_group].
  - rewrite (H [] [] eq_refl eq_refl). reflexivity.
  - rewrite (H [] (c :: r) eq_refl eq_refl).
    destruct (cls c) eqn:Ec; [|reflexivity].
    rewrite IH; [reflexivity|].
    intros x y -> Hx. apply (H (c :: x) y eq_refl). simpl. now rewrite Ec, Hx.
Qed.

(** A greedy group ends where the rest of the pattern matches and matches
    nowhere further along the run of its class. *)
Lemma greedy_group_exact cls k grp s m g0 :
  forallb cls grp = true ->
  k s = Some (m, g0) ->
  (forall x y, x <> [] -> s = x ++ y -> forallb cls x = true -> k y = None) ->
  greedy_group cls k (grp ++ s) = Some (grp ++ m, grp).
Proof.
  intros Hgrp Hk Hlater.
  assert (Hbase : greedy_group cls k s = Some (m, [])).
  { destruct s as [|c r]; cbn [greedy_group]; rewrite Hk; [reflexivity|].
    destruct (cls c) eqn:Ec; [|reflexivity].
    rewrite greedy_group_none; [reflexivity|].
    intros x y -> Hx. apply (Hlater (c :: x) y); [discriminate|reflexivity|].
    simpl. now rewrite Ec, Hx. }
  induction grp as [|c grp IH]; [exact Hbase|].
  simpl in Hgrp. apply andb_true_iff in Hgrp as [Hc Hgrp].
  simpl. rewrite Hc, (IH Hgrp). reflexivity.
Qed.

Lemma isspace_not_dquote c : isspace c = true -> Ascii.eqb c dquote = false.
Proof.
  intros H. destruct (Ascii.eqb c dquote) eqn:E; [|reflexivity].
  apply Ascii.eqb_eq in E. subst c. discriminate.
Qed.

Lemma isspace_not_brace c : isspace c = true -> c <> "}"%char.
Proof. intros H ->. discriminate. Qed.

Lemma pat_closing_here ws3 rest :
  forallb isspace ws3 = true ->
  match_here pat_closing (dquote :: ws3 ++ lit "}}" ++ rest)
    = Some (dquote :: ws3 ++ lit "}}", None).
Proof.
  intros Hws. unfold pat_closing. cbn [app match_here].
  rewrite Ascii.eqb_refl.
  rewrite (greedy_exact isspace (match_here (lits "}}")) ws3 (lit "}}" ++ rest)).
  - reflexivity.
  - exact Hws.
  - reflexivity.
  - eexists. reflexivity.
Qed.

Lemma pat_closing_needs_quote y :
  match y with [] => True | c :: _ => Ascii.eqb c dquote = false end ->
  match_here pat_closing y = None.
Proof.
  intros H. unfold pat_closing. cbn [app match_here].
  destruct y as [|c r]; [reflexivity|].
  rewrite Ascii.eqb_sym, H. reflexivity.
Qed.

Lemma quote_free_line_suffix x y :
  forallb dot x = true -> quote_free_line (x ++ y) = true ->
  match y with [] => True | c :: _ => Ascii.eqb c dquote = false end.
Proof.
  induction x as [|c x IH]; intros Hx Hq.
  - destruct y as [|c r]; [exact I|]. simpl in Hq.
    destruct (Ascii.eqb c "010"%char) eqn:En.
    + apply Ascii.eqb_eq in En. subst c. reflexivity.
    + apply andb_true_iff in Hq as [Hq _]. now apply negb_true_iff in Hq.
  - simpl in Hx. apply andb_true_iff in Hx as [Hc Hx].
    unfold dot in Hc. apply negb_true_iff in Hc.
    simpl in Hq. rewrite Hc in Hq. apply andb_true_iff in Hq as [_ Hq].
    exact (IH Hx Hq).
Qed.

Lemma quote_free_line_blanks ws z :
  forallb isspace ws = true -> quote_free_line z = true -> quote_free_line (ws ++ z) = true.
Proof.
  intros Hws Hz. induction ws as [|c ws IH]; [exact Hz|].
  simpl in Hws. apply andb_true_iff in Hws as [Hc Hws].
  simpl. destruct (Ascii.eqb c "010"%char); [reflexivity|].
  rewrite (isspace_not_dquote c Hc). simpl. exact (IH Hws).
Qed.

(** The group of a quoted pattern ends at the closing quote of the
    written directive when no other double quote follows on the line. *)
Lemma quoted_group_here arg ws3 rest :
  forallb dot arg = true ->
  forallb isspace ws3 = true ->
  quote_free_line rest = true ->
  match_here ([Group1 dot] ++ pat_closing) (arg ++ dquote :: ws3 ++ lit "}}" ++ rest)
    = Some (arg ++ dquote :: ws3 ++ lit "}}", Some arg).
Proof.
  intros Harg Hws Hrest. cbn [app match_here].
  change (greedy_group dot (match_here (Lit dquote :: Star isspace :: lits "}}")))
    with (greedy_group dot (match_here pat_closing)).
  rewrite (greedy_group_exact dot (match_here pat_closing) arg
             (dquote :: ws3 ++ lit "}}" ++ rest) (dquote :: ws3 ++ lit "}}") None).
  - reflexivity.
  - exact Harg.
  - apply pat_closing_here, Hws.
  - intros x y Hx Hsplit Hdot. apply pat_closing_needs_quote.
    destruct x as [|c x]; [congruence|].
    injection Hsplit as Hc Hxy. subst c.
    cbn [forallb] in Hdot. apply andb_true_iff in Hdot as [_ Hdot].
    apply (quote_free_line_suffix x y Hdot).
    rewrite <- Hxy. apply quote_free_line_blanks; [exact Hws|].
    exact Hrest.
Qed.

Lemma match_here_lit c re s :
  match_here (Lit c :: re) (c :: s) = consume c (match_here re s).
Proof. cbn [match_here]. rewrite Ascii.eqb_refl. reflexivity. Qed.

Lemma match_here_plus cls re c s :
  cls c = true ->
  match_here (Plus cls :: re) (c :: s) = consume c (greedy cls (match_here re) s).
Proof. intros H. cbn [match_here]. rewrite H. reflexivity. Qed.

Lemma match_here_star cls re s :
  match_here (Star cls :: re) s = greedy cls (match_here re) s.
Proof. reflexivity. Qed.

Lemma quoted_pattern_here keyword ws1 ws2 arg ws3 rest :
  match lit keyword with [] => False | c :: _ => isspace c = false end ->
  forallb isspace ws1 = true ->
  ws2 <> [] -> forallb isspace ws2 = true ->
  forallb dot arg = true ->
  forallb isspace ws3 = true ->
  quote_free_line rest = true ->
  match_here (quoted_pattern keyword) (written_directive keyword ws1 ws2 arg ws3 ++ rest)
    = Some (written_directive keyword ws1 ws2 arg ws3, Some arg).
Proof.
  intros Hkw Hws1 Hne Hws2 Harg Hws3 Hrest.
  pose proof (quoted_group_here arg ws3 rest Harg Hws3 Hrest) as HA.
  set (tail := arg ++ dquote :: ws3 ++ lit "}}" ++ rest) in *.
  set (tail_m := arg ++ dquote :: ws3 ++ lit "}}") in *.
  assert (HB : match_here ([Lit dquote] ++ [Group1 dot] ++ pat_closing) (dquote :: tail)
               = Some (dquote :: tail_m, Some arg)).
  { change ([Lit dquote] ++ [Group1 dot] ++ pat_closing)
      with (Lit dquote :: ([Group1 dot] ++ pat_closing)).
    rewrite match_here_lit, HA. reflexivity. }
  assert (HC : match_here ([Plus isspace] ++ [Lit dquote] ++ [Group1 dot] ++ pat_closing)
                 (ws2 ++ dquote :: tail)
               = Some (ws2 ++ dquote :: tail_m, Some arg)).
  { destruct ws2 as [|c ws2]; [congruence|].
    cbn [forallb] in Hws2. apply andb_true_iff in Hws2 as [Hc Hws2].
    change ([Plus isspace] ++ [Lit dquote] ++ [Group1 dot] ++ pat_closing)
      with (Plus isspace :: ([Lit dquote] ++ [Group1 dot] ++ pat_closing)).
    change ((c :: ws2) ++ dquote :: tail) with (c :: (ws2 ++ dquote :: tail)).
    rewrite (match_here_plus _ _ _ _ Hc).
    rewrite (greedy_exact isspace _ ws2 (dquote :: tail) Hws2);
      [|reflexivity|rewrite HB; eauto].
    rewrite HB. reflexivity. }
  assert (HD : match_here (lits keyword ++ [Plus isspace] ++ [Lit dquote]
                           ++ [Group1 dot] ++ pat_closing)
                 (lit keyword ++ ws2 ++ dquote :: tail)
               = Some (lit keyword ++ ws2 ++ dquote :: tail_m, Some arg)).
  { unfold lits. rewrite match_lits, HC. reflexivity. }
  assert (HE : match_here ([Star isspace] ++ lits keyword ++ [Plus isspace] ++ [Lit dquote]
                           ++ [Group1 dot] ++ pat_closing)
                 (ws1 ++ lit keyword ++ ws2 ++ dquote :: tail)
               = Some (ws1 ++ lit keyword ++ ws2 ++ dquote :: tail_m, Some arg)).
  { change ([Star isspace] ++ lits keyword ++ [Plus isspace] ++ [Lit dquote]
            ++ [Group1 dot] ++ pat_closing)
      with (Star isspace :: (lits keyword ++ [Plus isspace] ++ [Lit dquote]
                             ++ [Group1 dot] ++ pat_closing)).
    rewrite match_here_star.
    rewrite (greedy_exact isspace _ ws1 (lit keyword ++ ws2 ++ dquote :: tail) Hws1).
    - rewrite HD. reflexivity.
    - destruct (lit keyword) as [|c r]; [contradiction|exact Hkw].
    - rewrite HD. eauto. }
  unfold quoted_pattern, written_directive, quoted.
  replace ((lit "{{" ++ ws1 ++ lit keyword ++ ws2 ++ (dquote :: arg ++ [dquote])
            ++ ws3 ++ lit "}}") ++ rest)
    with (lit "{{" ++ ws1 ++ lit keyword ++ ws2 ++ dquote :: tail).
  2:{ unfold tail. rewrite <- ?app_assoc. cbn [app]. rewrite <- ?app_assoc. reflexivity. }
  unfold lits at 1. rewrite match_lits, HE. simpl prepend.
  do 2 f_equal. unfold tail_m. rewrite <- ?app_assoc. cbn [app].
  rewrite <- ?app_assoc. reflexivity.
Qed.

Lemma posts_pattern_here ws1 ws2 rest :
  forallb isspace ws1 = true ->
  forallb isspace ws2 = true ->
  match_here pat_posts (written_posts ws1 ws2 ++ rest) = Some (written_posts ws1 ws2, None).
Proof.
  intros Hws1 Hws2.
  assert (HA : match_here ([Star isspace] ++ lits "}}") (ws2 ++ lit "}}" ++ rest)
               = Some (ws2 ++ lit "}}", None)).
  { change ([Star isspace] ++ lits "}}") with (Star isspace :: lits "}}").
    rewrite match_here_star.
    rewrite (greedy_exact isspace _ ws2 (lit "}}" ++ rest) Hws2);
      [reflexivity|reflexivity|eexists; reflexivity]. }
  assert (HB : match_here (lits "posts" ++ [Star isspace] ++ lits "}}")
                 (lit "posts" ++ ws2 ++ lit "}}" ++ rest)
               = Some (lit "posts" ++ ws2 ++ lit "}}", None)).
  { unfold lits at 1. rewrite match_lits, HA. reflexivity. }
  assert (HC : match_here ([Star isspace] ++ lits "posts" ++ [Star isspace] ++ lits "}}")
                 (ws1 ++ lit "posts" ++ ws2 ++ lit "}}" ++ rest)
               = Some (ws1 ++ lit "posts" ++ ws2 ++ lit "}}", None)).
  { change ([Star isspace] ++ lits "posts" ++ [Star isspace] ++ lits "}}")
      with (Star isspace :: (lits "posts" ++ [Star isspace] ++ lits "}}")).
    rewrite match_here_star.
    rewrite (greedy_exact isspace _ ws1 (lit "posts" ++ ws2 ++ lit "}}" ++ rest) Hws1).
    - rewrite HB. reflexivity.
    - reflexivity.
    - rewrite HB. eauto. }
  unfold pat_posts, written_posts.
  replace ((lit "{{" ++ ws1 ++ lit "posts" ++ ws2 ++ lit "}}") ++ rest)
    with (lit "{{" ++ ws1 ++ lit "posts" ++ ws2 ++ lit "}}" ++ rest)
    by (rewrite <- ?app_assoc; reflexivity).
  unfold lits at 1. rewrite match_lits, HC. reflexivity.
Qed.

(** ** Finding the leftmost directive *)

Lemma startswith_app_long u z w :
  (length w <= length u)%nat -> startswith (u ++ z) w = startswith u w.
Proof.
  revert w. induction u as [|c u IH]; intros w Hlen.
  - destruct w; [now rewrite !startswith_nil|simpl in Hlen; lia].
  - destruct w as [|d w]; [reflexivity|].
    simpl in Hlen. simpl. f_equal. apply IH. lia.
Qed.

Lemma no_open_before p z j :
  contains (lit "{{") (p ++ lit "{") = false ->
  (j < length p)%nat ->
  startswith (drop j (p ++ "{"%char :: z)) (lit "{{") = false.
Proof.
  intros Hp Hj.
  replace (p ++ "{"%char :: z) with ((p ++ lit "{") ++ z)
    by (rewrite <- app_assoc; reflexivity).
  rewrite drop_app_le by (rewrite length_app; simpl; lia).
  rewrite startswith_app_long.
  - apply contains_false_drop, Hp.
  - rewrite length_drop, length_app. simpl. lia.
Qed.

Lemma braces_needed re z :
  startswith z (lit "{{") = false -> match_here (lits "{{" ++ re) z = None.
Proof.
  intros H.
  change (lits "{{" ++ re) with (Lit "{"%char :: Lit "{"%char :: re).
  change (lit "{{") with ["{"%char; "{"%char] in H.
  destruct z as [|a [|b z]]; cbn [match_here].
  - reflexivity.
  - destruct (Ascii.eqb "{" a); reflexivity.
  - cbn [startswith] in H. rewrite startswith_nil, andb_true_r in H.
    destruct (Ascii.eqb "{" a); [|reflexivity].
    destruct (Ascii.eqb "{" b); [discriminate|reflexivity].
Qed.

Lemma search_from_skip re p s i m g :
  (forall j, (j < length p)%nat -> match_here re (drop j (p ++ s)) = None) ->
  match_here re s = Some (m, g) ->
  search_from re (p ++ s) i = Some {| m_start := i + length p; m_0 := m; m_1 := g |}.
Proof.
  revert i. induction p as [|c p IH]; intros i Hskip Hm.
  - simpl. destruct s; cbn [search_from]; rewrite Hm; do 2 f_equal; lia.
  - pose proof (Hskip O ltac:(simpl; lia)) as H0. cbn [drop app] in H0.
    cbn [app search_from]. rewrite H0.
    rewrite (IH (S i)); [do 2 f_equal; simpl; lia| |exact Hm].
    intros j Hj. apply (Hskip (S j)). simpl. lia.
Qed.

(** The leftmost match of a pattern that opens with two braces, in a
    document that has no two braces before the directive. *)
Lemma re_search_after_prefix re p z m g :
  contains (lit "{{") (p ++ lit "{") = false ->
  match_here (lits "{{" ++ re) ("{"%char :: z) = Some (m, g) ->
  re_search (lits "{{" ++ re) (p ++ "{"%char :: z)
    = Some {| m_start := length p; m_0 := m; m_1 := g |}.
Proof.
  intros Hp Hm. unfold re_search.
  rewrite (search_from_skip _ p ("{"%char :: z) 0 m g); [reflexivity| |exact Hm].
  intros j Hj. apply braces_needed, no_open_before; assumption.
Qed.

Lemma contains_middle sub p z : contains sub (p ++ sub ++ z) = true.
Proof.
  apply contains_true_iff. exists (length p).
  rewrite drop_app_length. apply startswith_app.
Qed.

(** Replacing from the leftmost occurrence on. *)
Lemma replace_first u old v new :
  old <> [] -> first_at old (u ++ old ++ v) (length u) ->
  replace (u ++ old ++ v) old new = u ++ new ++ replace v old new.
Proof.
  intros Hold. induction u as [|c u IH]; intros Hfirst.
  - simpl. destruct old as [|o old]; [congruence|].
    change ((o :: old) ++ v) with (o :: (old ++ v)).
    rewrite replace_cons by discriminate.
    change (o :: (old ++ v)) with ((o :: old) ++ v).
    rewrite startswith_app, drop_app_length. reflexivity.
  - change ((c :: u) ++ old ++ v) with (c :: (u ++ old ++ v)) in *.
    apply first_at_tail in Hfirst as [H1 H2].
    rewrite replace_cons, H1 by exact Hold.
    simpl. f_equal. apply IH; assumption.
Qed.

Lemma replace_found re md m new p v :
  re_search re md = Some m ->
  m_0 m <> [] ->
  md = p ++ m_0 m ++ v ->
  m_start m = length p ->
  replace md (m_0 m) new = p ++ new ++ replace v (m_0 m) new.
Proof.
  intros Hm Hne Hmd Hstart.
  destruct (re_search_first_at _ _ _ Hm) as [Hfirst _].
  rewrite Hstart in Hfirst. rewrite Hmd in *.
  apply replace_first; assumption.
Qed.

Lemma quoted_directive_search keyword prefix ws1 ws2 arg ws3 rest :
  match lit keyword with [] => False | c :: _ => isspace c = false end ->
  contains (lit "{{") (prefix ++ lit "{") = false ->
  forallb isspace ws1 = true ->
  ws2 <> [] -> forallb isspace ws2 = true ->
  forallb dot arg = true ->
  forallb isspace ws3 = true ->
  quote_free_line rest = true ->
  re_search (quoted_pattern keyword)
    (prefix ++ written_directive keyword ws1 ws2 arg ws3 ++ rest)
  = Some {| m_start := length prefix;
            m_0 := written_directive keyword ws1 ws2 arg ws3;
            m_1 := Some arg |}.
Proof.
  intros Hkw Hprefix Hws1 Hne Hws2 Harg Hws3 Hrest.
  pose proof (quoted_pattern_here keyword ws1 ws2 arg ws3 rest
                Hkw Hws1 Hne Hws2 Harg Hws3 Hrest) as Hhere.
  assert (Hd : written_directive keyword ws1 ws2 arg ws3 ++ rest
               = "{"%char :: tl (written_directive keyword ws1 ws2 arg ws3 ++ rest))
    by reflexivity.
  rewrite Hd in Hhere |- *.
  apply (re_search_after_prefix _ prefix _ _ _ Hprefix Hhere).
Qed.

Lemma posts_directive_search prefix ws1 ws2 rest :
  contains (lit "{{") (prefix ++ lit "{") = false ->
  forallb isspace ws1 = true ->
  forallb isspace ws2 = true ->
  re_search pat_posts (prefix ++ written_posts ws1 ws2 ++ rest)
  = Some {| m_start := length prefix; m_0 := written_posts ws1 ws2; m_1 := None |}.
Proof.
  intros Hprefix Hws1 Hws2.
  pose proof (posts_pattern_here ws1 ws2 rest Hws1 Hws2) as Hhere.
  assert (Hd : written_posts ws1 ws2 ++ rest
               = "{"%char :: tl (written_posts ws1 ws2 ++ rest)) by reflexivity.
  rewrite Hd in Hhere |- *.
  apply (re_search_after_prefix
           ([Star isspace] ++ lits "posts" ++ [Star isspace] ++ lits "}}")
           prefix _ _ _ Hprefix Hhere).
Qed.

(** ** What the steps write *)

(** The text of group 1 is made of characters of the class of a group of
    the pattern. *)
Lemma match_here_group re s m g :
  match_here re s = Some (m, Some g) ->
  exists cls, In (Group1 cls) re /\ forallb cls g = true.
Proof.
  revert s m. induction re as [|a re IH]; intros s m H.
  - discriminate.
  - destruct a as [c|cls|cls|cls]; cbn [match_here] in H.
    + destruct s as [|c' s]; [discriminate|].
      destruct (Ascii.eqb c c'); [|discriminate].
      destruct (match_here re s) as [[m1 g1]|] eqn:Er; [|discriminate].
      inversion H; subst. destruct (IH _ _ Er) as (cls & Hin & Hg).
      exists cls. split; [right; exact Hin|exact Hg].
    + apply greedy_inv in H as (ws & m' & _ & _ & _ & Hk).
      destruct (IH _ _ Hk) as (cls' & Hin & Hg).
      exists cls'. split; [right; exact Hin|exact Hg].
    + destruct s as [|c s]; [discriminate|].
      destruct (cls c); [|discriminate].
      destruct (greedy cls (match_here re) s) as [[m1 g1]|] eqn:Er; [|discriminate].
      inversion H; subst.
      apply greedy_inv in Er as (ws & m' & _ & _ & _ & Hk).
      destruct (IH _ _ Hk) as (cls' & Hin & Hg).
      exists cls'. split; [right; exact Hin|exact Hg].
    + destruct (greedy_group cls (match_here re) s) as [[m1 g1]|] eqn:Er; [|discriminate].
      inversion H; subst.
      apply greedy_group_inv in Er as (m' & g' & _ & Hg & _).
      exists cls. split; [left; reflexivity|exact Hg].
Qed.

(** A pattern with a group reports a group with every match. *)
Lemma match_here_captures re s m g :
  match_here re s = Some (m, g) ->
  (exists cls, In (Group1 cls) re) -> exists x, g = Some x.
Proof.
  revert s m. induction re as [|a re IH]; intros s m H [cls Hin].
  - destruct Hin.
  - destruct a as [c|cls'|cls'|cls']; cbn [match_here] in H.
    + destruct Hin as [Hin|Hin]; [discriminate|].
      destruct s as [|c' s]; [discriminate|].
      destruct (Ascii.eqb c c'); [|discriminate].
      destruct (match_here re s) as [[m1 g1]|] eqn:Er; [|discriminate].
      inversion H; subst. eapply IH; eauto.
    + destruct Hin as [Hin|Hin]; [discriminate|].
      apply greedy_inv in H as (ws & m' & _ & _ & _ & Hk).
      eapply IH; eauto.
    + destruct Hin as [Hin|Hin]; [discriminate|].
      destruct s as [|c s]; [discriminate|].
      destruct (cls' c); [|discriminate].
      destruct (greedy cls' (match_here re) s) as [[m1 g1]|] eqn:Er; [|discriminate].
      inversion H; subst.
      apply greedy_inv in Er as (ws & m' & _ & _ & _ & Hk).
      eapply IH; eauto.
    + destruct (greedy_group cls' (match_here re) s) as [[m1 g1]|]; [|discriminate].
      inversion H; subst. eauto.
Qed.

Lemma title_match_group md m :
  re_search pat_title md = Some m -> exists g, m_1 m = Some g.
Proof.
  intros Hm. destruct (re_search_match _ _ _ Hm) as [s Hs].
  apply (match_here_captures _ _ _ _ Hs). exists dot.
  cbn. repeat first [left; reflexivity|right].
Qed.

Lemma desc_match_group md m :
  re_search pat_desc md = Some m -> exists g, m_1 m = Some g.
Proof.
  intros Hm. destruct (re_search_match _ _ _ Hm) as [s Hs].
  apply (match_here_captures _ _ _ _ Hs). exists dot.
  cbn. repeat first [left; reflexivity|right].
Qed.

(** Deleting from the leftmost match on: the text before the match is
    kept, and the deletion goes on in the text after it. *)
Lemma replace_from_match re md m new :
  re_search re md = Some m ->
  m_0 m <> [] ->
  replace md (m_0 m) new
    = take (m_start m) md ++ new
      ++ replace (drop (m_start m + length (m_0 m)) md) (m_0 m) new.
Proof.
  intros Hm Hne.
  destruct (re_search_first_at _ _ _ Hm) as [Hfirst Hsplit].
  assert (Hlen : length (take (m_start m) md) = m_start m).
  { apply length_take_le.
    assert (Hl : length md = length (take (m_start m) md ++ m_0 m
                        ++ drop (m_start m + length (m_0 m)) md)) by (f_equal; exact Hsplit).
    rewrite !length_app, length_take in Hl.
    destruct (m_0 m) as [|c r]; [congruence|]. simpl in Hl. lia. }
  rewrite Hsplit at 1. apply replace_first.
  - exact Hne.
  - rewrite <- Hsplit, Hlen. exact Hfirst.
Qed.

Lemma title_group_single_line md m t :
  re_search pat_title md = Some m -> m_1 m = Some t -> forallb dot t = true.
Proof.
  intros Hm Ht. destruct (re_search_match _ _ _ Hm) as [s Hs]. rewrite Ht in Hs.
  destruct (match_here_group _ _ _ _ Hs) as (cls & Hin & Hg).
  cbn in Hin.
  repeat (destruct Hin as [Hin|Hin]; [try discriminate|]); try contradiction.
  injection Hin as <-. exact Hg.
Qed.

Lemma desc_group_single_line md m t :
  re_search pat_desc md = Some m -> m_1 m = Some t -> forallb dot t = true.
Proof.
  intros Hm Ht. destruct (re_search_match _ _ _ Hm) as [s Hs]. rewrite Ht in Hs.
  destruct (match_here_group _ _ _ _ Hs) as (cls & Hin & Hg).
  cbn in Hin.
  repeat (destruct Hin as [Hin|Hin]; [try discriminate|]); try contradiction.
  injection Hin as <-. exact Hg.
Qed.

(** The title step leaves the store as it is or sets one title, to a text
    without a newline; the description step likewise. *)
Lemma title_step_store a md h :
  fst (title_step a md h) = h \/
  exists t, forallb dot t = true /\ fst (title_step a md h) = alter (with_title t) a h.
Proof.
  rewrite title_step_run.
  destruct (title_token md); [|left; reflexivity].
  destruct (re_search pat_title md) as [m|] eqn:Em; [|left; reflexivity].
  destruct (m_1 m) as [t|] eqn:Et; [|left; reflexivity].
  right. exists t. split; [|reflexivity]. eapply title_group_single_line; eassumption.
Qed.

Lemma desc_step_store a md h :
  fst (desc_step a md h) = h \/
  exists d, forallb dot d = true /\ fst (desc_step a md h) = alter (with_desc d) a h.
Proof.
  rewrite desc_step_run.
  destruct (desc_token md); [|left; reflexivity].
  destruct (re_search pat_desc md) as [m|] eqn:Em; [|left; reflexivity].
  destruct (m_1 m) as [t|] eqn:Et; [|left; reflexivity].
  right. exists t. split; [|reflexivity]. eapply desc_group_single_line; eassumption.
Qed.

(** A property of the store that every single assignment of the
    preprocessor keeps is kept by the preprocessor. *)
Lemma preprocess_md_keeps (P : Store -> Prop) state a md h :
  (forall t h0, forallb dot t = true -> P h0 -> P (alter (with_title t) a h0)) ->
  (forall d h0, forallb dot d = true -> P h0 -> P (alter (with_desc d) a h0)) ->
  P h -> P (fst (preprocess_md state a md h)).
Proof.
  intros Ht Hd Hh. rewrite preprocess_md_split. unfold title_desc_steps, bind.
  assert (H1 : P (fst (title_step a md h))).
  { destruct (title_step_store a md h) as [->|(t & Hdot & ->)]; auto. }
  destruct (title_step a md h) as [h1 [md1|e]]; simpl in *; [|exact H1].
  assert (H2 : P (fst (desc_step a md1 h1))).
  { destruct (desc_step_store a md1 h1) as [->|(d & Hdot & ->)]; auto. }
  destruct (desc_step a md1 h1) as [h2 [md2|e]]; simpl in *; [|exact H2].
  pose proof (posts_step_store state md2 h2) as H3.
  destruct (posts_step state md2 h2) as [h3 [md3|e]]; simpl in *; subst h3; exact H2.
Qed.

Lemma preprocess_page_keeps (P : Store -> Prop) state p h :
  (forall t h0, forallb dot t = true -> P h0 -> P (alter (with_title t) p h0)) ->
  (forall d h0, forallb dot d = true -> P h0 -> P (alter (with_desc d) p h0)) ->
  (forall x h0, P h0 -> P (alter (with_md x) p h0)) ->
  P h -> P (fst (preprocess_page state p h)).
Proof.
  intros Ht Hd Hm Hh. unfold preprocess_page, bind, load.
  pose proof (preprocess_md_keeps P state p (File_md (h !!! p)) h Ht Hd Hh) as H1.
  destruct (preprocess_md state p (File_md (h !!! p)) h) as [h1 [[x|e]|e]];
    simpl in *; auto.
Qed.

Lemma for_each_keeps (P : Store -> Prop) state l h :
  (forall p t h0, forallb dot t = true -> P h0 -> P (alter (with_title t) p h0)) ->
  (forall p d h0, forallb dot d = true -> P h0 -> P (alter (with_desc d) p h0)) ->
  (forall p x h0, P h0 -> P (alter (with_md x) p h0)) ->
  P h -> P (fst (for_each l (preprocess_page state) h)).
Proof.
  intros Ht Hd Hm. revert h. induction l as [|p l IH]; intros h Hh; [exact Hh|].
  cbn [for_each]. unfold bind.
  pose proof (preprocess_page_keeps P state p h (Ht p) (Hd p) (Hm p) Hh) as H1.
  destruct (preprocess_page state p h) as [h1 [[]|e]]; simpl in *; [|exact H1].
  apply IH, H1.
Qed.

(** ** Substrings and the marker *)

Lemma startswith_prefix_of z u v : startswith z (u ++ v) = true -> startswith z u = true.
Proof.
  intros H. apply startswith_true_iff in H as [r ->].
  rewrite <- app_assoc. apply startswith_app.
Qed.

Lemma contains_prefix_of u v s : contains (u ++ v) s = true -> contains u s = true.
Proof.
  intros H. apply contains_true_iff in H as [i H].
  apply contains_true_iff. exists i. eapply startswith_prefix_of, H.
Qed.

Lemma contains_absent_prefix u v s : contains u s = false -> contains (u ++ v) s = false.
Proof.
  intros H. destruct (contains (u ++ v) s) eqn:E; [|reflexivity].
  apply contains_prefix_of in E. congruence.
Qed.

Lemma contains_inside sub v x v' :
  contains sub x = true -> contains sub (v ++ x ++ v') = true.
Proof.
  intros H. apply contains_true_iff in H as [i H].
  apply contains_true_iff. exists (length v + i)%nat.
  rewrite <- drop_drop, drop_app_length, drop_app.
  apply startswith_app_l, H.
Qed.

Lemma strip_inside s : exists v v', s = v ++ strip s ++ v'.
Proof.
  unfold strip. destruct (lstrip_suffix s) as [v Hv].
  destruct (rstrip_prefix (lstrip s)) as [v' Hv'].
  exists v, v'. rewrite <- Hv'. exact Hv.
Qed.

Lemma contains_strip sub s : contains sub s = false -> contains sub (strip s) = false.
Proof.
  intros H. destruct (contains sub (strip s)) eqn:E; [|reflexivity].
  destruct (strip_inside s) as (v & v' & Hs).
  rewrite Hs, (contains_inside _ _ _ _ E) in H. discriminate.
Qed.

Lemma replace_toc_peel x d r :
  replace x (lit "[toc]") (lit "[TOC]") = d :: r -> d <> "["%char ->
  exists x', x = d :: x' /\ r = replace x' (lit "[toc]") (lit "[TOC]").
Proof.
  intros H Hd. destruct x as [|c x]; [discriminate|].
  rewrite replace_cons in H by discriminate.
  destruct (startswith (c :: x) (lit "[toc]")).
  - injection H as H _. congruence.
  - injection H as -> <-. eauto.
Qed.

Lemma contains_cons sub c s :
  contains sub (c :: s) = startswith (c :: s) sub || contains sub s.
Proof. reflexivity. Qed.

Lemma contains_after_TOC r :
  contains (lit "[toc]") (lit "[TOC]" ++ r) = contains (lit "[toc]") r.
Proof.
  change (lit "[TOC]" ++ r)
    with ("["%char :: "T"%char :: "O"%char :: "C"%char :: "]"%char :: r).
  rewrite !contains_cons.
  replace (startswith ("["%char :: "T"%char :: "O"%char :: "C"%char :: "]"%char :: r)
             (lit "[toc]")) with false by reflexivity.
  replace (startswith ("T"%char :: "O"%char :: "C"%char :: "]"%char :: r) (lit "[toc]"))
    with false by reflexivity.
  replace (startswith ("O"%char :: "C"%char :: "]"%char :: r) (lit "[toc]"))
    with false by reflexivity.
  replace (startswith ("C"%char :: "]"%char :: r) (lit "[toc]")) with false by reflexivity.
  replace (startswith ("]"%char :: r) (lit "[toc]")) with false by reflexivity.
  reflexivity.
Qed.

(** After the marker has been rewritten no lowercase marker is left. *)
Lemma replace_toc_free s :
  contains (lit "[toc]") (replace s (lit "[toc]") (lit "[TOC]")) = false.
Proof.
  remember (length s) as n eqn:Hn. revert s Hn.
  induction n as [n IH] using lt_wf_ind. intros s Hn.
  destruct s as [|c s]; [reflexivity|].
  rewrite replace_cons by discriminate.
  destruct (startswith (c :: s) (lit "[toc]")) eqn:Es.
  - assert (Hrest : contains (lit "[toc]")
                      (replace (drop (length (lit "[toc]")) (c :: s))
                         (lit "[toc]") (lit "[TOC]")) = false).
    { apply (IH (length (drop (length (lit "[toc]")) (c :: s)))); [|reflexivity].
      subst n. rewrite length_drop. simpl. lia. }
    rewrite contains_after_TOC. exact Hrest.
  - cbn [contains]. apply orb_false_iff. split.
    + destruct (startswith (c :: replace s (lit "[toc]") (lit "[TOC]")) (lit "[toc]"))
        eqn:E; [|reflexivity].
      apply startswith_true_iff in E as [r E]. cbn in E.
      injection E as -> E.
      apply replace_toc_peel in E as (s1 & -> & E); [|discriminate].
      symmetry in E. apply replace_toc_peel in E as (s2 & -> & E); [|discriminate].
      symmetry in E. apply replace_toc_peel in E as (s3 & -> & E); [|discriminate].
      symmetry in E. apply replace_toc_peel in E as (s4 & -> & E); [|discriminate].
      cbn in Es. rewrite startswith_nil in Es. discriminate.
    + apply (IH (length s)); [|reflexivity]. subst n. simpl. lia.
Qed.

Lemma toc_step_free md : contains (lit "[toc]") (toc_step md) = false.
Proof.
  unfold toc_step. destruct (contains (lit "[toc]") md) eqn:E; [|exact E].
  apply replace_toc_free.
Qed.

Lemma tokens_need_braces md :
  contains (lit "{{") md = false ->
  title_token md = false /\ desc_token md = false /\ posts_token md = false.
Proof.
  intros H. unfold title_token, desc_token, posts_token.
  change (lit "{{ title") with (lit "{{" ++ lit " title").
  change (lit "{{title") with (lit "{{" ++ lit "title").
  change (lit "{{ desc") with (lit "{{" ++ lit " desc").
  change (lit "{{desc") with (lit "{{" ++ lit "desc").
  change (lit "{{ posts") with (lit "{{" ++ lit " posts").
  change (lit "{{posts") with (lit "{{" ++ lit "posts").
  rewrite !(contains_absent_prefix _ _ _ H). auto.
Qed.

Lemma preprocess_md_without_tokens state a md h :
  title_token md = false -> desc_token md = false -> posts_token md = false ->
  preprocess_md state a md h = (h, Return (Ok (strip (toc_step md)))).
Proof.
  intros Ht Hd Hp. unfold preprocess_md, bind.
  rewrite title_step_run, Ht, desc_step_run, Hd, posts_step_run, Hp. reflexivity.
Qed.

(** ** What the tree builder finds *)

Lemma map_flat_map {A B C} (f : B -> C) (g : A -> list B) (l : list A) :
  map f (flat_map g l) = flat_map (fun x => map f (g x)) l.
Proof.
  induction l as [|x l IH]; simpl; [reflexivity|].
  rewrite map_app, IH. reflexivity.
Qed.

Lemma tree_files_paths path files trees :
  map File_path (tree_files (MkFileTree path files trees))
    = map File_path files ++ flat_map (fun c => map File_path (tree_files c)) trees.
Proof. cbn [tree_files]. rewrite map_app, map_flat_map. reflexivity. Qed.

Lemma build_loop_paths cp rec dir root config es :
  Forall (fun e => forall p t, rec (snd e) p = Return (Ok t) ->
                     map File_path (tree_files t) = cp (snd e) p) es ->
  forall files trees t,
    build_loop rec dir root config es files trees = Return (Ok t) ->
    map File_path (tree_files t)
      = map File_path files ++ paths_here config dir es
        ++ flat_map (fun c => map File_path (tree_files c)) trees
        ++ paths_below cp config dir es.
Proof.
  induction 1 as [|[fname child] es Hchild _ IH]; intros files trees t Hrun;
    cbn [build_loop] in Hrun.
  - inversion Hrun; subst. rewrite tree_files_paths.
    unfold paths_here, paths_below. simpl. rewrite app_nil_r. reflexivity.
  - unfold paths_here, paths_below in *. cbn [flat_map fst snd].
    fold (is_excluded config fname) in Hrun.
    destruct (is_excluded config fname); [apply IH, Hrun|].
    cbn [orb].
    destruct (isdir child).
    + destruct (rec child (path_join dir fname)) as [[c|e]|e] eqn:Erec; try discriminate.
      rewrite (IH _ _ _ Hrun), flat_map_app. cbn [flat_map negb app].
      rewrite (Hchild _ _ Erec), app_nil_r, <- !app_assoc. reflexivity.
    + destruct (Config_posts_dir config) as [posts_dir|]; [|discriminate].
      rewrite (IH _ _ _ Hrun), map_app. cbn [map negb app File_path new_File].
      rewrite <- !app_assoc. reflexivity.
Qed.

(** The files of a returned tree are the content files of the file
    system, each once, in the order of the walk. *)
Lemma build_file_tree_paths root config node :
  forall dir t,
    build_file_tree node dir root config = Return (Ok t) ->
    map File_path (tree_files t) = content_paths config node dir.
Proof.
  induction node as [| | |entries IH] using fsnode_induction; intros dir t Hrun;
    try discriminate.
  rewrite build_file_tree_loop in Hrun.
  rewrite (build_loop_paths (content_paths config) _ _ _ _ _ IH _ _ _ Hrun).
  reflexivity.
Qed.

(** The loop of [build_file_tree] adds to its lists what the listing
    holds, in order and without the excluded names. *)
Lemma build_loop_mirrors (P : fsnode -> FileTree -> Prop) rec dir root config es :
  Forall (fun e => forall p c, rec (snd e) p = Return (Ok c) ->
                     FileTree_path c = p /\ P (snd e) c) es ->
  forall files trees t,
    build_loop rec dir root config es files trees = Return (Ok t) ->
    FileTree_path t = dir /\
    map File_path (FileTree_files t) = map File_path files ++ paths_here config dir es /\
    exists new, FileTree_trees t = trees ++ new /\ subtrees_mirror P config dir es new.
Proof.
  induction 1 as [|[fname child] es Hchild _ IH]; intros files trees t Hrun;
    cbn [build_loop] in Hrun.
  - inversion Hrun; subst. cbn. rewrite app_nil_r. split; [reflexivity|].
    split; [reflexivity|]. exists []. now rewrite app_nil_r.
  - unfold paths_here in *. cbn [flat_map fst snd subtrees_mirror].
    fold (is_excluded config fname) in Hrun.
    destruct (is_excluded config fname); [apply IH, Hrun|].
    cbn [orb].
    destruct (isdir child); cbn [negb].
    + destruct (rec child (path_join dir fname)) as [[c|e]|e] eqn:Erec; try discriminate.
      destruct (IH _ _ _ Hrun) as (Hp & Hf & new & Ht & Hnew).
      destruct (Hchild _ _ Erec) as [Hc1 Hc2]. cbn [snd] in Hc2.
      split; [exact Hp|]. split; [exact Hf|].
      exists (c :: new). split; [rewrite Ht, <- app_assoc; reflexivity|].
      auto.
    + destruct (Config_posts_dir config) as [posts_dir|]; [|discriminate].
      destruct (IH _ _ _ Hrun) as (Hp & Hf & new & Ht & Hnew).
      split; [exact Hp|]. split; [|eauto].
      rewrite Hf, map_app. cbn [map app File_path new_File].
      rewrite <- app_assoc. reflexivity.
Qed.


(** The walk of a healthy directory: [cp] gives the content paths below a
    subdirectory. *)
Lemma build_loop_healthy cp rec dir root config es :
  forallb (fun e => healthy (snd e)) es = true ->
  Forall (fun e => healthy (snd e) = true -> isdir (snd e) = true -> forall p,
            match Config_posts_dir config, cp (snd e) p with
            | None, _ :: _ => rec (snd e) p = Raise TypeError
            | _, _ => exists t, rec (snd e) p = Return (Ok t)
            end) es ->
  forall files trees,
    match Config_posts_dir config,
          paths_here config dir es ++ paths_below cp config dir es with
    | None, _ :: _ => build_loop rec dir root config es files trees = Raise TypeError
    | _, _ => exists t, build_loop rec dir root config es files trees = Return (Ok t)
    end.
Proof.
  intros Hh Hrec. revert Hh.
  induction Hrec as [|[fname child] es Hchild _ IH]; intros Hh files trees.
  - cbn. destruct (Config_posts_dir config); eauto.
  - cbn [forallb snd] in Hh. apply andb_true_iff in Hh as [Hc Hes].
    specialize (IH Hes).
    unfold paths_here, paths_below in *. cbn [flat_map fst snd build_loop].
    fold (is_excluded config fname).
    destruct (is_excluded config fname); [apply IH|].
    cbn [orb]. destruct (isdir child) eqn:Edir; cbn [negb app].
    + specialize (Hchild Hc Edir (path_join dir fname)). cbn [snd] in Hchild.
      destruct (Config_posts_dir config) as [pd|] eqn:Epd.
      * destruct Hchild as [c ->]. apply IH.
      * destruct (cp child (path_join dir fname)) as [|x xs] eqn:Ecp.
        -- destruct Hchild as [c ->]. cbn [app]. apply IH.
        -- rewrite Hchild.
           destruct (flat_map _ es) as [|y ys]; reflexivity.
    + destruct (Config_posts_dir config) as [pd|] eqn:Epd; [|reflexivity].
      specialize (IH (files ++ [new_File (path_join dir fname)
                                  (bool_decide (dir = path_join root pd))]) trees).
      exact IH.
Qed.

Lemma build_file_tree_healthy root config node :
  healthy node = true -> isdir node = true ->
  forall dir,
    match Config_posts_dir config, content_paths config node dir with
    | None, _ :: _ => build_file_tree node dir root config = Raise TypeError
    | _, _ => exists t, build_file_tree node dir root config = Return (Ok t)
    end.
Proof.
  induction node as [| | |entries IH] using fsnode_induction; intros Hh Hd dir;
    try discriminate.
  rewrite build_file_tree_loop.
  cbn [healthy] in Hh.
  apply (build_loop_healthy (content_paths config)
           (fun child p => build_file_tree child p root config)
           dir root config entries Hh IH [] []).
Qed.

(** ** Loading the files of a tree *)

Lemma process_files_app w l1 l2 state h :
  process_files w (l1 ++ l2) state h
    = (state1 <- process_files w l1 state ;; process_files w l2 state1) h.
Proof.
  revert state h. induction l1 as [|file l1 IH]; intros state h.
  - reflexivity.
  - cbn [app]. unfold bind in *. rewrite !process_files_step.
    destruct (W_open w (File_path file)) as [text|[]]; try reflexivity.
    apply IH.
Qed.

(** The walk over the tree is the loop over its files in order. *)
Lemma process_tree_flat w t :
  forall state h, process_tree w t state h = process_files w (tree_files t) state h.
Proof.
  induction t as [path files trees IH] using FileTree_induction. intros state h.
  cbn [process_tree tree_files]. rewrite process_files_app. unfold bind.
  destruct (process_files w files state h) as [h1 [state1|e]]; [|reflexivity].
  clear state h. revert state1 h1.
  induction IH as [|c cs Hc _ IHcs]; intros state1 h1; [reflexivity|].
  cbn [flat_map]. rewrite process_files_app. unfold bind.
  rewrite Hc.
  destruct (process_files w (tree_files c) state1 h1) as [h2 [state2|e]]; [|reflexivity].
  apply IHcs.
Qed.

Lemma alter_at_end (f : File -> File) (h : list File) (x : File) :
  alter f (length h) (h ++ [x]) = h ++ [f x].
Proof.
  induction h as [|y h IH]; [reflexivity|].
  cbn [length app]. change (alter f (S (length h)) (y :: (h ++ [x])))
    with (y :: alter f (length h) (h ++ [x])).
  rewrite IH. reflexivity.
Qed.

Lemma extend_state_nil state : extend_state state [] [] = state.
Proof. destruct state. unfold extend_state. cbn. rewrite !app_nil_r. reflexivity. Qed.

Lemma extend_append_file state file a posts pages :
  extend_state (append_file state (File_is_post file) a) posts pages
    = extend_state state
        ((if Bool.eqb (File_is_post file) true then [a] else []) ++ posts)
        ((if Bool.eqb (File_is_post file) false then [a] else []) ++ pages).
Proof.
  unfold extend_state, append_file.
  destruct (File_is_post file); cbn; rewrite <- ?app_assoc; reflexivity.
Qed.

Lemma process_files_all_read w files :
  (forall f, f ∈ files -> readable w (File_path f)) ->
  forall state h,
    process_files w files state h
      = (h ++ map (loaded_file w) files,
         Return (extend_state state (addresses (length h) files true)
                                    (addresses (length h) files false))).
Proof.
  induction files as [|file rest IH]; intros Hread state h.
  - cbn. rewrite app_nil_r, extend_state_nil. reflexivity.
  - rewrite process_files_step.
    destruct (Hread file ltac:(constructor)) as [text Htext].
    rewrite Htext.
    rewrite alter_at_end, IH by (intros f Hf; apply Hread; now constructor).
    rewrite length_app. cbn [length].
    replace (length h + 1)%nat with (S (length h)) by lia.
    rewrite extend_append_file. cbn [map addresses].
    unfold loaded_file at 2. rewrite Htext.
    rewrite <- app_assoc. reflexivity.
Qed.

Lemma process_files_first_unreadable w pre file suf state h e :
  (forall f, f ∈ pre -> readable w (File_path f)) ->
  W_open w (File_path file) = Raise e ->
  process_files w (pre ++ file :: suf) state h
    = (h ++ map (loaded_file w) pre ++ [file],
       Raise (load_error (File_path file) e)).
Proof.
  intros Hpre Hfile. rewrite process_files_app. unfold bind.
  rewrite (process_files_all_read w pre Hpre).
  rewrite process_files_step, Hfile, <- app_assoc.
  destruct e; reflexivity.
Qed.

(** ** Rendering and writing *)

Lemma compile_body_run w state file h :
  compile_body w state file h = (alter (with_html (wrapped w state h file)) file h, Return tt).
Proof. reflexivity. Qed.

Lemma compile_loop w state l :
  forall h,
    let r := for_each l (compile_body w state) h in
    snd r = Return tt /\
    length (fst r) = length h /\
    (forall b, kept_but_html (h !!! b) (fst r !!! b)) /\
    (forall a, a ∈ l -> (a < length h)%nat ->
               File_html (fst r !!! a) = wrapped w state h a) /\
    (forall b, b ∉ l -> fst r !!! b = h !!! b).
Proof.
  induction l as [|p l IH]; intros h; cbv zeta.
  - cbn. repeat split; try reflexivity. intros a Ha. inversion Ha.
  - cbn [for_each]. unfold bind. rewrite compile_body_run.
    set (h1 := alter (with_html (wrapped w state h p)) p h).
    specialize (IH h1). cbv zeta in IH.
    destruct IH as (Hret & Hlen & Hkept & Hhtml & Hother).
    assert (Hk1 : forall b, kept_but_html (h !!! b) (h1 !!! b)).
    { intros b. unfold kept_but_html, h1.
      rewrite (alter_field File_path), (alter_field File_metadata),
        (alter_field File_is_post), (alter_field File_md) by reflexivity.
      auto. }
    assert (Hw : forall a, wrapped w state h1 a = wrapped w state h a).
    { intros a. unfold wrapped. destruct (Hk1 a) as (_ & _ & _ & ->). reflexivity. }
    split; [exact Hret|]. split; [rewrite Hlen; apply length_alter|].
    split; [|split].
    + intros b. destruct (Hkept b) as (A1 & A2 & A3 & A4).
      destruct (Hk1 b) as (B1 & B2 & B3 & B4).
      unfold kept_but_html. rewrite A1, A2, A3, A4. auto.
    + intros a Ha Hlt. destruct (decide (a ∈ l)) as [Hin|Hnin].
      * rewrite Hhtml, Hw; [reflexivity|exact Hin|].
        unfold h1. rewrite length_alter. exact Hlt.
      * apply elem_of_cons in Ha as [->|Ha]; [|contradiction].
        rewrite (Hother p Hnin). unfold h1.
        rewrite list_lookup_total_alter_eq by exact Hlt. reflexivity.
    + intros b Hb. rewrite Hother.
      * unfold h1. apply alter_other. intros ->. apply Hb. constructor.
      * intros Hin. apply Hb. now constructor.
Qed.

Lemma first_at_suffix old p s k :
  first_at old (p ++ s) (length p + k) -> first_at old s k.
Proof.
  intros [H1 H2]. split.
  - rewrite <- drop_drop, drop_app_length in H1. exact H1.
  - intros i Hi. specialize (H2 (length p + i)%nat ltac:(lia)).
    rewrite <- drop_drop, drop_app_length in H2. exact H2.
Qed.

Lemma post_url_of_stem root stem :
  contains (lit "/") root = false ->
  first_at (lit ".md") (lit "/" ++ stem ++ lit ".md") (length (lit "/" ++ stem)) ->
  post_url (root ++ lit "/" ++ stem ++ lit ".md") = lit "/" ++ stem ++ lit ".html".
Proof.
  intros Hroot Hext. unfold post_url, find.
  change (lit "/") with ["/"%char] in *.
  cbn [app] in *.
  rewrite (find_from_absent_char "/"%char root (stem ++ lit ".md") 0 Hroot).
  rewrite Z.add_0_l, slice_from_length.
  change ("/"%char :: stem ++ lit ".md") with (("/"%char :: stem) ++ lit ".md" ++ []).
  rewrite replace_once.
  - rewrite app_nil_r. reflexivity.
  - discriminate.
  - rewrite app_nil_r. exact Hext.
  - reflexivity.
Qed.

(** ** The driver *)

Lemma addresses_length base files :
  (length (addresses base files true) + length (addresses base files false))%nat
    = length files.
Proof.
  revert base. induction files as [|f files IH]; intros base; [reflexivity|].
  cbn [addresses length]. rewrite !length_app, <- (IH (S base)).
  destruct (File_is_post f); cbn; lia.
Qed.









(** ** Trimming *)

Lemma strip_head s :
  match strip s with [] => True | c :: _ => isspace c = false end.
Proof.
  unfold strip. pose proof (lstrip_head s) as Hh.
  destruct (rstrip_prefix (lstrip s)) as [v Hv].
  destruct (rstrip (lstrip s)) as [|c r]; [exact I|].
  rewrite Hv in Hh. exact Hh.
Qed.

Lemma strip_last s :
  match rev (strip s) with [] => True | c :: _ => isspace c = false end.
Proof.
  unfold strip, rstrip. rewrite rev_involutive. apply lstrip_head.
Qed.

(** ** The configuration *)

Lemma fill_config_props items :
  fill_config items props new_RawConfig
    = {| Raw_posts_dir := attribute (lit "posts dir") items;
         Raw_include_before := attribute (lit "include before") items;
         Raw_include_after := attribute (lit "include after") items;
         Raw_static_src := attribute (lit "static src") items;
         Raw_static_dest := attribute (lit "static dest") items |}.
Proof.
  unfold props, attribute. cbn [fill_config].
  destruct (dict_get (lit "posts dir") items) as [v1|];
    destruct (dict_get (lit "include before") items) as [v2|];
    destruct (dict_get (lit "include after") items) as [v3|];
    destruct (dict_get (lit "static src") items) as [v4|];
    destruct (dict_get (lit "static dest") items) as [v5|];
    vm_compute; reflexivity.
Qed.

Lemma typed_field_str v s : typed_field v = Some (Some s) -> v = PyStr s.
Proof. destruct v; cbn; intros H; try discriminate. now injection H as ->. Qed.

Lemma attribute_str key items s :
  attribute key items = PyStr s -> dict_get key items = Some (PyStr s).
Proof.
  unfold attribute. destruct (dict_get key items) as [v|]; cbn; [now intros ->|discriminate].
Qed.

(** ** The calls of the run *)

(** Making a list of calls: all of them return, or the first that
    raises is the last one made. *)
Lemma perform_cases w calls :
  forall log,
    (perform w calls log = (log ++ calls, Return tt) /\
     forall pre c suf, calls = pre ++ c :: suf -> W_io w (log ++ pre) c = None) \/
    (exists pre c suf e,
       calls = pre ++ c :: suf /\ W_io w (log ++ pre) c = Some e /\
       (forall pre' c' suf', pre = pre' ++ c' :: suf' -> W_io w (log ++ pre') c' = None) /\
       perform w calls log = (log ++ pre ++ [c], Raise e)).
Proof.
  unfold perform. induction calls as [|c calls IH]; intros log.
  - left. split; [cbn; now rewrite app_nil_r|].
    intros pre c suf H. destruct pre; discriminate.
  - cbn [for_each]. unfold bind, call at 1 3.
    destruct (W_io w log c) as [e|] eqn:E.
    + right. exists [], c, calls, e. rewrite app_nil_r.
      split; [reflexivity|]. split; [exact E|]. split; [|reflexivity].
      intros pre' c' suf' H. destruct pre'; discriminate.
    + destruct (IH (log ++ [c])) as [[Hrun Hall]|(pre & c' & suf & e & Hc & He & Hpre & Hrun)].
      * left. rewrite Hrun, <- app_assoc. split; [reflexivity|].
        intros pre c' suf H. destruct pre as [|x pre].
        -- injection H as <- _. rewrite app_nil_r. exact E.
        -- injection H as <- H. specialize (Hall pre c' suf H).
           rewrite <- app_assoc in Hall. exact Hall.
      * right. exists (c :: pre), c', suf, e. rewrite Hrun, Hc.
        rewrite <- !app_assoc in *. split; [reflexivity|]. split; [exact He|].
        split; [|reflexivity].
        intros pre' c'' suf' H. destruct pre' as [|x pre'].
        -- injection H as <- _. rewrite app_nil_r. exact E.
        -- injection H as <- H. specialize (Hpre pre' c'' suf' H).
           rewrite <- app_assoc in Hpre. exact Hpre.
Qed.

(** [main] with a configuration: the stages in their order, each one
    ending the run when it raises. *)
Lemma main_stages w config :
  W_config w = Return (Ok config) ->
  main w =
    match build_file_tree (W_tree w) (W_srcdir w) (W_srcdir w) config with
    | Raise e => ([], Raise e)
    | Return r_tree =>
        match process_pages w
                (fst (load_before_after_files w (W_srcdir w) config new_State))
                (ok r_tree) [] with
        | (_, Raise e) => ([], Raise e)
        | (h, Return state) =>
            match preprocess_pages state h with
            | (_, Raise e) => ([], Raise e)
            | (h, Return _) =>
                match compile_files w state h with
                | (_, Raise e) => ([], Raise e)
                | (h, Return _) => write_phase w config state h
                end
            end
        end
    end.
Proof. intros H. unfold main, write_phase. rewrite H. reflexivity. Qed.

(** How the end of [main] can go: every call returns and the value is 0;
    or a call raises, and it is the last one made; or a static path is
    missing from the configuration, after the pages have been written. *)
Lemma write_phase_cases w config state h :
  let calls := write_files state (W_srcdir w) (W_outdir w) h in
  (exists src dst,
     Config_static_src config = Some src /\ Config_static_dest config = Some dst /\
     write_phase w config state h
       = (calls ++ [CopyTree (path_join (W_srcdir w) src) (path_join (W_outdir w) dst)],
          Return 0)) \/
  (exists log c e,
     W_io w log c = Some e /\ write_phase w config state h = (log ++ [c], Raise e)) \/
  ((Config_static_src config = None \/ Config_static_dest config = None) /\
   write_phase w config state h = (calls, Raise TypeError)).
Proof.
  intros calls. unfold write_phase. fold calls.
  destruct (perform_cases w calls [])
    as [[Hrun _]|(pre & c & suf & e & Hc & He & _ & Hrun)]; rewrite Hrun; cbn [app].
  - destruct (Config_static_src config) as [src|], (Config_static_dest config) as [dst|];
      cbn [path_join_opt]; try (right; right; split; [auto|reflexivity]).
    unfold call. destruct (W_io w calls _) as [e|] eqn:E.
    + right. left. eauto.
    + left. eauto.
  - right. left. exists pre, c, e. cbn [app] in He. auto.
Qed.

Lemma write_phase_code w config state h code :
  snd (write_phase w config state h) = Return code -> code = 0.
Proof.
  destruct (write_phase_cases w config state h)
    as [(src & dst & _ & _ & ->)|[(log & c & e & _ & ->)|[_ ->]]]; cbn [snd];
    intros H; try discriminate. now injection H as <-.
Qed.

Lemma main_exit_one w :
  snd (main w) = Return 1 <-> exists e, W_config w = Return (Err e).
Proof.
  destruct (W_config w) as [[config|e]|e] eqn:Hconfig.
  - split; [|intros [e He]; discriminate].
    rewrite (main_stages w config Hconfig).
    destruct (build_file_tree (W_tree w) (W_srcdir w) (W_srcdir w) config)
      as [r_tree|e]; cbn [snd]; [|discriminate].
    destruct (process_pages w _ (ok r_tree) []) as [h [state|e]]; cbn [snd]; [|discriminate].
    destruct (preprocess_pages state h) as [h1 [u|e]]; cbn [snd]; [|discriminate].
    destruct (compile_files w state h1) as [h2 [u2|e]]; cbn [snd]; [|discriminate].
    intros H. apply write_phase_code in H. discriminate.
  - unfold main. rewrite Hconfig. split; [eauto|reflexivity].
  - unfold main. rewrite Hconfig. split; [discriminate|intros [e' He']; discriminate].
Qed.

Lemma main_returns_static w config code :
  W_config w = Return (Ok config) ->
  snd (main w) = Return code ->
  code = 0 /\
  exists src dst, Config_static_src config = Some src /\ Config_static_dest config = Some dst.
Proof.
  intros Hconfig. rewrite (main_stages w config Hconfig).
  destruct (build_file_tree (W_tree w) (W_srcdir w) (W_srcdir w) config)
    as [r_tree|e]; cbn [snd]; [|discriminate].
  destruct (process_pages w _ (ok r_tree) []) as [h [state|e]]; cbn [snd]; [|discriminate].
  destruct (preprocess_pages state h) as [h1 [u|e]]; cbn [snd]; [|discriminate].
  destruct (compile_files w state h1) as [h2 [u2|e]]; cbn [snd]; [|discriminate].
  destruct (write_phase_cases w config state h2)
    as [(src & dst & Hs & Hd & ->)|[(log & c & e & _ & ->)|[_ ->]]]; cbn [snd];
    intros H; try discriminate. injection H as <-. eauto.
Qed.

(** ** Opening braces *)

Lemma isspace_not_open c : isspace c = true -> not_open c = true.
Proof.
  intros H. unfold not_open. destruct (Ascii.eqb c "{") eqn:E; [|reflexivity].
  apply Ascii.eqb_eq in E. subst c. discriminate.
Qed.

Lemma blanks_not_open ws : forallb isspace ws = true -> forallb not_open ws = true.
Proof.
  induction ws as [|c ws IH]; [reflexivity|]. cbn [forallb].
  intros H. apply andb_true_iff in H as [H1 H2].
  now rewrite (isspace_not_open c H1), IH.
Qed.

(** No two braces open at a character that is not an opening brace. *)
Lemma open_needs_brace c s : not_open c = true -> startswith (c :: s) (lit "{{") = false.
Proof.
  unfold not_open. intros H. cbn [lit list_ascii_of_string startswith].
  rewrite Ascii.eqb_sym. destruct (Ascii.eqb c "{"); [discriminate|reflexivity].
Qed.

Lemma contains_skip u v :
  forallb not_open u = true -> contains (lit "{{") (u ++ v) = contains (lit "{{") v.
Proof.
  induction u as [|c u IH]; [reflexivity|]. cbn [forallb app].
  intros H. apply andb_true_iff in H as [H1 H2].
  rewrite contains_cons, open_needs_brace by exact H1. cbn [orb]. now apply IH.
Qed.

(** An opening brace followed by another character opens nothing. *)
Lemma contains_brace_then c s :
  not_open c = true ->
  contains (lit "{{") ("{"%char :: c :: s) = contains (lit "{{") (c :: s).
Proof.
  intros H. rewrite contains_cons.
  replace (startswith ("{"%char :: c :: s) (lit "{{")) with false; [reflexivity|].
  unfold not_open in H. cbn [lit list_ascii_of_string startswith].
  rewrite (Ascii.eqb_sym "{" c). destruct (Ascii.eqb c "{"); [discriminate|reflexivity].
Qed.

Lemma plain_cons c u : plain (c :: u) -> plain u.
Proof.
  unfold plain. cbn [app]. rewrite contains_cons. intros H.
  apply orb_false_iff in H as [_ H]. exact H.
Qed.

(** Joining a plain text with a text without two opening braces. *)
Lemma no_open_app u v :
  plain u -> contains (lit "{{") v = false -> contains (lit "{{") (u ++ v) = false.
Proof.
  induction u as [|c u IH]; intros Hu Hv; [exact Hv|].
  cbn [app]. rewrite contains_cons.
  rewrite (IH (plain_cons _ _ Hu) Hv), orb_false_r.
  unfold plain in Hu. cbn [app] in Hu. rewrite contains_cons in Hu.
  apply orb_false_iff in Hu as [Hu _].
  destruct u as [|d u]; cbn [app] in *.
  - cbn [lit list_ascii_of_string startswith] in *.
    destruct (Ascii.eqb "{" c); [vm_compute in Hu; discriminate|reflexivity].
  - cbn [lit list_ascii_of_string startswith] in *.
    rewrite startswith_nil in *. exact Hu.
Qed.

Lemma plain_app u v : plain u -> plain v -> plain (u ++ v).
Proof. unfold plain at 2 3. intros Hu Hv. rewrite <- app_assoc. now apply no_open_app. Qed.

Lemma plain_no_open u : plain u -> contains (lit "{{") u = false.
Proof. intros H. rewrite <- (app_nil_r u). now apply no_open_app. Qed.

Lemma plain_nil : plain [].
Proof. reflexivity. Qed.

(** A text without two opening braces, then a character that is no
    opening brace. *)
Lemma no_open_sep u c v :
  contains (lit "{{") u = false -> not_open c = true ->
  contains (lit "{{") (c :: v) = false ->
  contains (lit "{{") (u ++ c :: v) = false.
Proof.
  intros Hu Hc Hv. induction u as [|d u IH]; [exact Hv|].
  rewrite contains_cons in Hu. apply orb_false_iff in Hu as [Hd Hu].
  cbn [app]. rewrite contains_cons, (IH Hu), orb_false_r.
  destruct u as [|d' u]; cbn [app].
  - cbn [lit list_ascii_of_string startswith].
    unfold not_open in Hc. rewrite (Ascii.eqb_sym "{" c).
    destruct (Ascii.eqb c "{"); [discriminate|]. now rewrite andb_false_r.
  - cbn [lit list_ascii_of_string startswith] in *.
    rewrite startswith_nil in *. exact Hd.
Qed.

Lemma plain_sep u c :
  contains (lit "{{") u = false -> not_open c = true -> plain (u ++ [c]).
Proof.
  intros Hu Hc. unfold plain. rewrite <- app_assoc. cbn [app].
  apply no_open_sep; [exact Hu|exact Hc|].
  rewrite contains_cons, open_needs_brace by exact Hc. reflexivity.
Qed.

Lemma plain_heading title :
  match title with Some t => contains (lit "{{") t = false | None => True end ->
  plain (heading title).
Proof.
  destruct title as [t|]; intros H; [|reflexivity].
  unfold heading, nl.
  change (lit "# " ++ t ++ ["010"%char]) with (lit "# " ++ (t ++ ["010"%char])).
  unfold plain. rewrite <- app_assoc, contains_skip by reflexivity.
  now apply plain_sep.
Qed.

(** ** Where two braces open in a document with directives *)

Lemma contains_open_after A Z :
  A <> [] -> forallb not_open A = true ->
  contains (lit "{{") ("{"%char :: A ++ Z) = contains (lit "{{") Z.
Proof.
  intros Hne HA. destruct A as [|c A]; [congruence|].
  cbn [forallb] in HA. pose proof HA as HA'. apply andb_true_iff in HA as [Hc _].
  cbn [app]. rewrite contains_brace_then by exact Hc.
  change (c :: A ++ Z) with ((c :: A) ++ Z). now apply contains_skip.
Qed.

(** Behind its opening braces a well written directive has no two
    opening braces, when the text after it has none. *)
Lemma directive_interior keyword d y :
  lit keyword <> [] -> forallb not_open (lit keyword) = true ->
  well_written d ->
  contains (lit "{{") y = false ->
  contains (lit "{{") (tl (directive_text keyword d ++ y)) = false.
Proof.
  intros Hk1 Hk2 (Hws1 & Hne & Hws2 & _ & Harg & Hws3) Hy.
  unfold directive_text, written_directive, quoted.
  set (A := w_ws1 d ++ lit keyword ++ w_ws2 d ++ [dquote]).
  set (B := dquote :: w_ws3 d ++ lit "}}").
  replace (tl ((lit "{{" ++ w_ws1 d ++ lit keyword ++ w_ws2 d
                ++ (dquote :: w_arg d ++ [dquote]) ++ w_ws3 d ++ lit "}}") ++ y))
    with ("{"%char :: A ++ w_arg d ++ B ++ y).
  2:{ unfold A, B. cbn [lit list_ascii_of_string app tl].
      repeat first [rewrite <- app_assoc|progress cbn [app]]. reflexivity. }
  rewrite contains_open_after.
  - unfold B. cbn [app]. apply no_open_sep; [exact Harg|reflexivity|].
    change (dquote :: (w_ws3 d ++ lit "}}") ++ y)
      with ((dquote :: w_ws3 d ++ lit "}}") ++ y).
    rewrite contains_skip; [exact Hy|].
    cbn [forallb]. rewrite forallb_app, (blanks_not_open _ Hws3). reflexivity.
  - unfold A. destruct (w_ws1 d); [|discriminate].
    destruct (lit keyword); [congruence|discriminate].
  - unfold A. rewrite !forallb_app, Hk2, (blanks_not_open _ Hws2).
    destruct Hws1 as [-> | ->]; reflexivity.
Qed.

Lemma directive_opens keyword d y :
  directive_text keyword d ++ y = "{"%char :: tl (directive_text keyword d ++ y).
Proof. reflexivity. Qed.

(** In a plain text followed by a text that opens with a brace and has
    no two opening braces behind it, two braces open at one place only. *)
Lemma open_only_at x z j :
  plain x -> startswith z (lit "{") = true ->
  contains (lit "{{") (tl z) = false ->
  startswith (drop j (x ++ z)) (lit "{{") = true -> j = length x.
Proof.
  intros Hx Hz Htl Hj.
  destruct z as [|c z]; [discriminate|]. cbn [tl] in Htl.
  cbn [lit list_ascii_of_string startswith] in Hz.
  rewrite startswith_nil, andb_true_r in Hz.
  apply Ascii.eqb_eq in Hz. subst c.
  destruct (Nat.lt_total j (length x)) as [Hlt|[Heq|Hgt]]; [|exact Heq|].
  - rewrite (no_open_before x z j Hx Hlt) in Hj. discriminate.
  - rewrite drop_app_ge in Hj by lia.
    replace (j - length x)%nat with (S (j - length x - 1)) in Hj by lia.
    cbn [drop] in Hj. rewrite (contains_false_drop _ _ _ Htl) in Hj. discriminate.
Qed.

(** The same before a second place where two braces open. *)
Lemma open_only_before x m z j :
  plain x -> startswith m (lit "{") = true -> plain (tl m) ->
  (j < length (x ++ m))%nat ->
  startswith (drop j ((x ++ m) ++ "{"%char :: z)) (lit "{{") = true -> j = length x.
Proof.
  intros Hx Hm Htl Hlt Hj.
  destruct m as [|c m]; [discriminate|]. cbn [tl] in Htl.
  cbn [lit list_ascii_of_string startswith] in Hm.
  rewrite startswith_nil, andb_true_r in Hm.
  apply Ascii.eqb_eq in Hm. subst c.
  rewrite length_app in Hlt. cbn [length] in Hlt.
  rewrite <- app_assoc in Hj. cbn [app] in Hj.
  destruct (Nat.lt_total j (length x)) as [Hl|[Heq|Hgt]]; [|exact Heq|].
  - rewrite (no_open_before x _ j Hx Hl) in Hj. discriminate.
  - rewrite drop_app_ge in Hj by lia.
    replace (j - length x)%nat with (S (j - length x - 1)) in Hj by lia.
    cbn [drop] in Hj.
    rewrite (no_open_before m z _ Htl) in Hj by lia. discriminate.
Qed.

(** A text that begins with two opening braces occurs only where two
    braces open. *)
Lemma absent_where_open sub s :
  startswith sub (lit "{{") = true ->
  (forall j, startswith (drop j s) (lit "{{") = true -> startswith (drop j s) sub = false) ->
  contains sub s = false.
Proof.
  intros Hsub H. destruct (contains sub s) eqn:E; [|reflexivity].
  apply contains_true_iff in E as [j Hj].
  apply startswith_split in Hsub.
  rewrite H in Hj; [discriminate|].
  rewrite Hsub in Hj. eapply startswith_prefix_of. exact Hj.
Qed.

(** ** The marker keeps the braces *)

Lemma open2_cons c x :
  startswith (c :: x) (lit "{{") = Ascii.eqb "{" c && startswith x (lit "{").
Proof. reflexivity. Qed.

Lemma open1_cons c x : startswith (c :: x) (lit "{") = Ascii.eqb "{" c.
Proof.
  cbn [lit list_ascii_of_string startswith]. now rewrite startswith_nil, andb_true_r.
Qed.

Lemma replace_toc_no_open n :
  forall s, (length s <= n)%nat ->
    contains (lit "{{") s = false ->
    contains (lit "{{") (replace s (lit "[toc]") (lit "[TOC]")) = false /\
    startswith (replace s (lit "[toc]") (lit "[TOC]")) (lit "{")
      = startswith s (lit "{").
Proof.
  induction n as [|n IH]; intros s Hlen Hs.
  - destruct s; [|simpl in Hlen; lia]. rewrite replace_nil by discriminate. auto.
  - destruct s as [|c s]; [rewrite replace_nil by discriminate; auto|].
    cbn [length] in Hlen. rewrite replace_cons by discriminate.
    destruct (startswith (c :: s) (lit "[toc]")) eqn:E.
    + assert (Hc : c = "["%char).
      { cbn [lit list_ascii_of_string startswith] in E.
        apply andb_true_iff in E as [E _]. apply Ascii.eqb_eq in E. now subst. }
      subst c.
      destruct (IH (drop (length (lit "[toc]")) ("["%char :: s))) as [H1 H2].
      * rewrite length_drop. cbn. lia.
      * apply contains_false_suffix, Hs.
      * rewrite contains_skip by reflexivity. split; [exact H1|].
        reflexivity.
    + rewrite contains_cons in Hs. apply orb_false_iff in Hs as [Hc Hs].
      destruct (IH s ltac:(lia) Hs) as [H1 H2].
      rewrite contains_cons, H1, orb_false_r, open2_cons, H2, !open1_cons.
      rewrite open2_cons in Hc. auto.
Qed.

Lemma toc_step_no_open md :
  contains (lit "{{") md = false -> contains (lit "{{") (toc_step md) = false.
Proof.
  intros H. unfold toc_step. destruct (contains (lit "[toc]") md); [|exact H].
  apply (replace_toc_no_open (length md) md (le_n _) H).
Qed.

(** ** A second pass over a text without two opening braces *)

(** When the title and description steps leave a text without two
    opening braces, the call returns it with the markers in uppercase
    and the ends trimmed, and a second pass changes nothing. *)
Lemma second_pass_plain state a md h h1 md2 :
  title_desc_steps a md h = (h1, Return md2) ->
  contains (lit "{{") md2 = false ->
  let out := strip (toc_step md2) in
  preprocess_md state a md h = (h1, Return (Ok out)) /\
  title_desc_steps a out h1 = (h1, Return out) /\
  preprocess_md state a out h1 = (h1, Return (Ok out)).
Proof.
  intros Hsteps Hmd2 out.
  destruct (tokens_need_braces md2 Hmd2) as (_ & _ & Hp).
  assert (Hout : contains (lit "{{") out = false)
    by (apply contains_strip, toc_step_no_open, Hmd2).
  destruct (tokens_need_braces out Hout) as (Ht' & Hd' & Hp').
  split; [|split].
  - rewrite preprocess_md_split. unfold bind. rewrite Hsteps, posts_step_run, Hp.
    reflexivity.
  - unfold title_desc_steps, bind. rewrite title_step_run, Ht', desc_step_run, Hd'.
    reflexivity.
  - rewrite preprocess_md_without_tokens by assumption.
    assert (Htoc : toc_step out = out).
    { unfold toc_step. unfold out at 1.
      rewrite (contains_strip _ _ (toc_step_free md2)). reflexivity. }
    rewrite Htoc. unfold out. rewrite strip_idem. reflexivity.
Qed.

(** ** One directive of each kind *)

(** Where a description directive begins there is no title token and no
    match of the title pattern, and the other way round. *)
Lemma desc_is_no_title d y :
  well_written d ->
  startswith (directive_text "desc" d ++ y) (lit "{{ title") = false /\
  startswith (directive_text "desc" d ++ y) (lit "{{title") = false /\
  match_here pat_title (directive_text "desc" d ++ y) = None.
Proof.
  intros (Hws1 & _). destruct d as [ws1 ws2 arg ws3]. cbn [w_ws1] in Hws1.
  unfold directive_text, written_directive. cbn [w_ws1 w_ws2 w_arg w_ws3].
  destruct Hws1 as [-> | ->]; repeat split; reflexivity.
Qed.

Lemma title_is_no_desc t y :
  well_written t ->
  startswith (directive_text "title" t ++ y) (lit "{{ desc") = false /\
  startswith (directive_text "title" t ++ y) (lit "{{desc") = false /\
  match_here pat_desc (directive_text "title" t ++ y) = None.
Proof.
  intros (Hws1 & _). destruct t as [ws1 ws2 arg ws3]. cbn [w_ws1] in Hws1.
  unfold directive_text, written_directive. cbn [w_ws1 w_ws2 w_arg w_ws3].
  destruct Hws1 as [-> | ->]; repeat split; reflexivity.
Qed.

(** The directive opens with one of the two tokens of its pre-check. *)
Lemma title_text_token t :
  well_written t ->
  exists tail, directive_text "title" t = lit "{{ title" ++ tail
               \/ directive_text "title" t = lit "{{title" ++ tail.
Proof.
  intros (Hws1 & _). destruct t as [ws1 ws2 arg ws3]. cbn [w_ws1] in Hws1.
  unfold directive_text, written_directive. cbn [w_ws1 w_ws2 w_arg w_ws3].
  destruct Hws1 as [-> | ->]; eexists; [right|left]; reflexivity.
Qed.

Lemma desc_text_token d :
  well_written d ->
  exists tail, directive_text "desc" d = lit "{{ desc" ++ tail
               \/ directive_text "desc" d = lit "{{desc" ++ tail.
Proof.
  intros (Hws1 & _). destruct d as [ws1 ws2 arg ws3]. cbn [w_ws1] in Hws1.
  unfold directive_text, written_directive. cbn [w_ws1 w_ws2 w_arg w_ws3].
  destruct Hws1 as [-> | ->]; eexists; [right|left]; reflexivity.
Qed.

Lemma title_token_present u t v :
  well_written t -> title_token (u ++ directive_text "title" t ++ v) = true.
Proof.
  intros Ht. destruct (title_text_token t Ht) as [tail [E|E]]; rewrite E;
    unfold title_token; apply orb_true_iff; [left|right];
    rewrite <- app_assoc; apply contains_middle.
Qed.

Lemma desc_token_present u d v :
  well_written d -> desc_token (u ++ directive_text "desc" d ++ v) = true.
Proof.
  intros Hd. destruct (desc_text_token d Hd) as [tail [E|E]]; rewrite E;
    unfold desc_token; apply orb_true_iff; [left|right];
    rewrite <- app_assoc; apply contains_middle.
Qed.

Lemma directive_text_open keyword d y :
  startswith (directive_text keyword d ++ y) (lit "{") = true.
Proof. reflexivity. Qed.

Lemma directive_text_open2 keyword d :
  startswith (directive_text keyword d) (lit "{{") = true.
Proof.
  unfold directive_text, written_directive.
  cbn [lit list_ascii_of_string app startswith]. now rewrite startswith_nil.
Qed.

(** The title step on a document in which the title pattern has no match
    before the directive and the text of the directive does not come
    again after it. *)
Lemma title_step_on a h u t v :
  (forall j, (j < length u)%nat ->
     match_here pat_title (drop j (u ++ directive_text "title" t ++ v)) = None) ->
  well_written t -> quote_free_line v = true ->
  contains (directive_text "title" t) v = false ->
  title_step a (u ++ directive_text "title" t ++ v) h
    = (alter (with_title (w_arg t)) a h, Return (lit "# " ++ w_arg t ++ nl ++ u ++ v)).
Proof.
  intros Hskip Ht Hv Hrest.
  pose proof Ht as (Hws1 & Hne & Hws2 & Harg & _ & Hws3).
  assert (Hsp : forallb isspace (w_ws1 t) = true)
    by (destruct Hws1 as [-> | ->]; reflexivity).
  pose proof (quoted_pattern_here "title" _ _ _ _ v eq_refl Hsp Hne Hws2 Harg Hws3 Hv)
    as Hhere.
  fold (directive_text "title" t) in Hhere.
  change (quoted_pattern "title") with pat_title in Hhere.
  assert (Hm : re_search pat_title (u ++ directive_text "title" t ++ v)
               = Some {| m_start := length u; m_0 := directive_text "title" t;
                         m_1 := Some (w_arg t) |}).
  { unfold re_search. now rewrite (search_from_skip _ u _ 0 _ _ Hskip Hhere). }
  rewrite title_step_run, (title_token_present u t v Ht), Hm.
  rewrite (replace_found _ _ _ [] u v Hm); [|discriminate|reflexivity|reflexivity].
  cbn [m_1 m_0 app]. rewrite replace_absent by (try discriminate; exact Hrest).
  reflexivity.
Qed.

Lemma desc_step_on a h u d v :
  (forall j, (j < length u)%nat ->
     match_here pat_desc (drop j (u ++ directive_text "desc" d ++ v)) = None) ->
  well_written d -> quote_free_line v = true ->
  contains (directive_text "desc" d) v = false ->
  desc_step a (u ++ directive_text "desc" d ++ v) h
    = (alter (with_desc (w_arg d)) a h, Return (u ++ v)).
Proof.
  intros Hskip Hd Hv Hrest.
  pose proof Hd as (Hws1 & Hne & Hws2 & Harg & _ & Hws3).
  assert (Hsp : forallb isspace (w_ws1 d) = true)
    by (destruct Hws1 as [-> | ->]; reflexivity).
  pose proof (quoted_pattern_here "desc" _ _ _ _ v eq_refl Hsp Hne Hws2 Harg Hws3 Hv)
    as Hhere.
  fold (directive_text "desc" d) in Hhere.
  change (quoted_pattern "desc") with pat_desc in Hhere.
  assert (Hm : re_search pat_desc (u ++ directive_text "desc" d ++ v)
               = Some {| m_start := length u; m_0 := directive_text "desc" d;
                         m_1 := Some (w_arg d) |}).
  { unfold re_search. now rewrite (search_from_skip _ u _ 0 _ _ Hskip Hhere). }
  rewrite desc_step_run, (desc_token_present u d v Hd), Hm.
  rewrite (replace_found _ _ _ [] u v Hm); [|discriminate|reflexivity|reflexivity].
  cbn [m_1 m_0 app]. rewrite replace_absent by (try discriminate; exact Hrest).
  reflexivity.
Qed.

Lemma no_match_in_plain keyword u z j :
  plain u -> (j < length u)%nat ->
  match_here (quoted_pattern keyword) (drop j (u ++ "{"%char :: z)) = None.
Proof.
  intros Hu Hj. unfold quoted_pattern. apply braces_needed, no_open_before; assumption.
Qed.

(** A text that begins with two opening braces and is not what the
    directive begins with does not occur in a document whose only two
    opening braces are those of the directive. *)
Lemma absent_beside keyword x d y sub :
  lit keyword <> [] -> forallb not_open (lit keyword) = true ->
  plain x -> well_written d -> contains (lit "{{") y = false ->
  startswith sub (lit "{{") = true ->
  startswith (directive_text keyword d ++ y) sub = false ->
  contains sub (x ++ directive_text keyword d ++ y) = false.
Proof.
  intros Hk1 Hk2 Hx Hd Hy Hsub Hno.
  apply absent_where_open; [exact Hsub|]. intros j Hj.
  apply open_only_at in Hj; [|exact Hx|reflexivity|].
  - subst j. rewrite drop_app_length. exact Hno.
  - now apply directive_interior.
Qed.

Lemma contains_directive_absent keyword d s :
  contains (lit "{{") s = false -> contains (directive_text keyword d) s = false.
Proof.
  intros H. unfold directive_text, written_directive.
  now apply contains_absent_prefix.
Qed.

Lemma startswith_not_prefix z u v : startswith z u = false -> startswith z (u ++ v) = false.
Proof.
  intros H. destruct (startswith z (u ++ v)) eqn:E; [|reflexivity].
  apply startswith_prefix_of in E. congruence.
Qed.

Lemma desc_is_no_title_text d y t :
  well_written d -> well_written t ->
  startswith (directive_text "desc" d ++ y) (directive_text "title" t) = false.
Proof.
  intros Hd Ht. destruct (desc_is_no_title d y Hd) as (H1 & H2 & _).
  destruct (title_text_token t Ht) as [tail [-> | ->]];
    now apply startswith_not_prefix.
Qed.

(** *** The four documents *)

Lemma steps_title_only a h x t y :
  plain x -> contains (lit "{{") y = false -> well_written t ->
  quote_free_line y = true ->
  title_desc_steps a (x ++ directive_text "title" t ++ y) h
    = (with_metadata (Some (w_arg t)) None a h,
       Return (heading (Some (w_arg t)) ++ x ++ y)) /\
  contains (lit "{{") (heading (Some (w_arg t)) ++ x ++ y) = false.
Proof.
  intros Hx Hy Ht Hq.
  assert (Hplain : contains (lit "{{") (heading (Some (w_arg t)) ++ x ++ y) = false).
  { apply no_open_app; [apply plain_heading, Ht|]. now apply no_open_app. }
  split; [|exact Hplain].
  unfold title_desc_steps, bind.
  rewrite title_step_on; [| |exact Ht|exact Hq|now apply contains_directive_absent].
  2:{ intros j Hj. rewrite directive_opens. now apply no_match_in_plain. }
  destruct (tokens_need_braces _ Hplain) as (_ & Hd & _).
  unfold heading in Hd. rewrite <- !app_assoc in Hd.
  rewrite desc_step_run, Hd. unfold heading. rewrite <- !app_assoc. reflexivity.
Qed.

Lemma steps_desc_only a h x d y :
  plain x -> contains (lit "{{") y = false -> well_written d ->
  quote_free_line y = true ->
  title_desc_steps a (x ++ directive_text "desc" d ++ y) h
    = (with_metadata None (Some (w_arg d)) a h, Return (heading None ++ x ++ y)) /\
  contains (lit "{{") (heading None ++ x ++ y) = false.
Proof.
  intros Hx Hy Hd Hq.
  split; [|cbn [heading app]; now apply no_open_app].
  destruct (desc_is_no_title d y Hd) as (H1 & H2 & _).
  assert (Ht : title_token (x ++ directive_text "desc" d ++ y) = false).
  { unfold title_token.
    rewrite !(absent_beside "desc" x d y) by (assumption || reflexivity || discriminate).
    reflexivity. }
  unfold title_desc_steps, bind. rewrite title_step_run, Ht.
  rewrite desc_step_on; [reflexivity| |exact Hd|exact Hq|now apply contains_directive_absent].
  intros j Hj. rewrite directive_opens. now apply no_match_in_plain.
Qed.

Lemma steps_title_desc a h p t q d r :
  plain p -> plain q -> contains (lit "{{") r = false ->
  well_written t -> well_written d ->
  quote_free_line (q ++ directive_text "desc" d ++ r) = true ->
  quote_free_line r = true ->
  title_desc_steps a
    (p ++ directive_text "title" t ++ q ++ directive_text "desc" d ++ r) h
    = (with_metadata (Some (w_arg t)) (Some (w_arg d)) a h,
       Return (heading (Some (w_arg t)) ++ p ++ q ++ r)) /\
  contains (lit "{{") (heading (Some (w_arg t)) ++ p ++ q ++ r) = false.
Proof.
  intros Hp Hq Hr Ht Hd Hq1 Hq2.
  assert (Hhead : plain (heading (Some (w_arg t)))) by (apply plain_heading, Ht).
  split.
  2:{ apply no_open_app; [exact Hhead|]. apply no_open_app; [exact Hp|].
      now apply no_open_app. }
  unfold title_desc_steps, bind.
  rewrite title_step_on; [| |exact Ht|exact Hq1|].
  2:{ intros j Hj. rewrite directive_opens. now apply no_match_in_plain. }
  2:{ apply (absent_beside "desc"); try assumption; try reflexivity; try discriminate.
      - apply directive_text_open2.
      - now apply desc_is_no_title_text. }
  replace (lit "# " ++ w_arg t ++ nl ++ p ++ q ++ directive_text "desc" d ++ r)
    with ((heading (Some (w_arg t)) ++ p ++ q) ++ directive_text "desc" d ++ r)
    by (unfold heading; rewrite <- !app_assoc; reflexivity).
  rewrite desc_step_on; [| |exact Hd|exact Hq2|now apply contains_directive_absent].
  - rewrite <- !app_assoc. reflexivity.
  - intros j Hj. rewrite directive_opens. apply no_match_in_plain; [|exact Hj].
    apply plain_app; [exact Hhead|]. now apply plain_app.
Qed.

Lemma steps_desc_title a h p d q t r :
  plain p -> plain q -> contains (lit "{{") r = false ->
  well_written t -> well_written d ->
  quote_free_line r = true ->
  quote_free_line (q ++ r) = true ->
  title_desc_steps a
    (p ++ directive_text "desc" d ++ q ++ directive_text "title" t ++ r) h
    = (with_metadata (Some (w_arg t)) (Some (w_arg d)) a h,
       Return (heading (Some (w_arg t)) ++ p ++ q ++ r)) /\
  contains (lit "{{") (heading (Some (w_arg t)) ++ p ++ q ++ r) = false.
Proof.
  intros Hp Hq Hr Ht Hd Hq1 Hq2.
  assert (Hhead : plain (heading (Some (w_arg t)))) by (apply plain_heading, Ht).
  assert (Hqr : contains (lit "{{") (q ++ r) = false) by now apply no_open_app.
  split.
  2:{ apply no_open_app; [exact Hhead|]. now apply no_open_app. }
  unfold title_desc_steps, bind.
  replace (p ++ directive_text "desc" d ++ q ++ directive_text "title" t ++ r)
    with ((p ++ directive_text "desc" d ++ q) ++ directive_text "title" t ++ r)
    by (rewrite <- !app_assoc; reflexivity).
  rewrite title_step_on; [| |exact Ht|exact Hq1|now apply contains_directive_absent].
  2:{ intros j Hj.
      destruct (startswith
                  (drop j ((p ++ directive_text "desc" d ++ q)
                           ++ directive_text "title" t ++ r)) (lit "{{")) eqn:E.
      - rewrite directive_opens in E.
        apply (open_only_before p (directive_text "desc" d ++ q)) in E;
          [|exact Hp|reflexivity| |exact Hj].
        + subst j. rewrite <- !app_assoc, drop_app_length.
          apply (desc_is_no_title d _ Hd).
        + unfold plain.
          change (tl (directive_text "desc" d ++ q) ++ lit "{")
            with (tl ((directive_text "desc" d ++ q) ++ lit "{")).
          rewrite <- app_assoc.
          apply directive_interior; [discriminate|reflexivity|exact Hd|exact Hq].
      - apply braces_needed, E. }
  replace (lit "# " ++ w_arg t ++ nl ++ (p ++ directive_text "desc" d ++ q) ++ r)
    with ((heading (Some (w_arg t)) ++ p) ++ directive_text "desc" d ++ q ++ r)
    by (unfold heading; rewrite <- !app_assoc; reflexivity).
  rewrite desc_step_on; [| |exact Hd|exact Hq2|now apply contains_directive_absent].
  - rewrite <- !app_assoc. reflexivity.
  - intros j Hj. rewrite directive_opens. apply no_match_in_plain; [|exact Hj].
    now apply plain_app.
Qed.

(** * The claims *)

(** ** Order of preprocessing *)


Lemma flat_map_agree {A} (f g : A -> str) (l : list A) :
  (forall x, x ∈ l -> f x = g x) -> flat_map f l = flat_map g l.
Proof.
  induction l as [|x l IH]; intros H; simpl; [reflexivity|].
  rewrite (H x), IH; [reflexivity| |constructor].
  intros y Hy. apply H. now constructor.
Qed.



(** ** A posts index inside a post *)

(** C10.  When the document of the post [p] carries a [posts] directive,
    the directive is expanded while the posts pass is at [p]: the posts
    [pre] before it have been preprocessed, the posts [suf] after it have
    not.  With [File] objects that start with the default metadata, the
    fragment put into the document of [p] has, for every post after [p],
    the block with the empty title and the empty description.  The two
    hypotheses on the posts hold in every run, by [process_pages_fresh]. *)
Theorem posts_inside_post_reads_defaults state h pre p suf h1 h3 md m :
  State_posts state = pre ++ p :: suf ->
  NoDup (State_posts state) ->
  (forall a, a ∈ State_posts state -> File_metadata (h !!! a) = new_FileMetadata) ->
  for_each pre (preprocess_page state) h = (h1, Return tt) ->
  title_desc_steps p (File_md (h1 !!! p)) h1 = (h3, Return md) ->
  posts_token md = true ->
  re_search pat_posts md = Some m ->
  let later :=
    flat_map (fun a => post_block (post_url (File_path (h !!! a))) [] []) suf in
  let fragment :=
    wrap_posts (flat_map (fun a => entry_of (h3 !!! a)) (pre ++ [p]) ++ later) in
  preprocess_pages state h
    = for_each (p :: suf ++ State_static_pages state) (preprocess_page state) h1 /\
  preprocess_page state p h1
    = (alter (with_md (strip (toc_step (replace md (m_0 m) fragment)))) p h3, Return tt).
Proof.
  intros Hposts Hnodup Hdefault Hpre Hsteps Htoken Hmatch later fragment.
  split.
  - unfold preprocess_pages. rewrite Hposts, <- app_assoc, for_each_app.
    unfold bind. rewrite Hpre. reflexivity.
  - assert (E : flat_map (fun a => entry_of (h3 !!! a)) suf = later).
    { apply flat_map_agree. intros a Ha.
      assert (Hnot : a ∉ pre ++ [p]).
      { rewrite Hposts in Hnodup.
        replace (pre ++ p :: suf) with ((pre ++ [p]) ++ suf) in Hnodup
          by now rewrite <- app_assoc.
        apply NoDup_app in Hnodup as (_ & Hdis & _).
        intros Hin. exact (Hdis a Hin Ha). }
      pose proof (for_each_untouched state pre h) as U1. rewrite Hpre in U1.
      pose proof (title_desc_steps_untouched p (File_md (h1 !!! p)) h1) as U2.
      rewrite Hsteps in U2. simpl in U1, U2.
      assert (Hsame : h3 !!! a = h !!! a).
      { rewrite U2, U1; [reflexivity| |].
        - intros Hin. apply Hnot, elem_of_app. left. exact Hin.
        - intros Hin. apply Hnot, elem_of_app. right. exact Hin. }
      rewrite Hsame. unfold entry_of. rewrite Hdefault; [reflexivity|].
      rewrite Hposts. apply elem_of_app. right. now constructor. }
    rewrite preprocess_page_run, Hsteps, posts_step_run, Htoken, Hmatch.
    unfold fragment. rewrite <- E, <- flat_map_app, Hposts, <- app_assoc.
    reflexivity.
Qed.

Lemma posts_inside_post_reads_defaults_witness :
  let h3 := alter (with_title (lit "A")) 0%nat blog_store in
  let md := lit "# A" ++ nl ++ nl ++ lit "{{posts}}" in
  let fragment :=
    wrap_posts (entry_of (h3 !!! 0%nat)
                ++ post_block (lit "/posts/b.html") [] []) in
  preprocess_pages blog_state blog_store
    = for_each [0%nat; 1%nat; 2%nat] (preprocess_page blog_state) blog_store /\
  preprocess_page blog_state 0%nat blog_store
    = (alter (with_md (strip (toc_step (replace md (lit "{{posts}}") fragment)))) 0%nat h3,
       Return tt).
Proof.
  intros h3 md fragment.
  pose proof (posts_inside_post_reads_defaults
                blog_state blog_store [] 0%nat [1%nat] blog_store h3 md
                {| m_start := 5; m_0 := lit "{{posts}}"; m_1 := None |}) as H.
  apply H.
  - reflexivity.
  - apply NoDup_cons. split; [|apply NoDup_cons; split; [|constructor]].
    + intros Hin. apply list_elem_of_singleton in Hin. discriminate.
    + intros Hin. inversion Hin.
  - intros a Ha. simpl in Ha.
    apply elem_of_cons in Ha as [->|Ha]; [reflexivity|].
    apply list_elem_of_singleton in Ha. subst a. reflexivity.
  - reflexivity.
  - vm_compute. reflexivity.
  - vm_compute. reflexivity.
  - vm_compute. reflexivity.
Defined.

(** ** The posts index *)

(** C2, on the code, at a source directory of two segments.  The
    fragment has one block for the post, made of its own path, title and
    description, but [posts] cuts the path at its first slash, so the
    href keeps the second segment of the root, where the specification
    removes the whole root prefix; [write_files], which replaces the
    whole source directory, writes the page of the post where the href
    of the specification points, not where the href of [posts] does. *)
Theorem posts_href_keeps_root_segment :
  let root := lit "site/src" in
  let path := path_join (path_join root (lit "posts")) (lit "hello.md") in
  let state := {| State_posts := [0%nat]; State_static_pages := [];
                  State_include_before := []; State_include_after := [] |} in
  let h := [with_html (lit "<p>Hello</p>") (new_File path true)] in
  posts state (lit "{{posts}}") (lit "{{posts}}") h
    = (h, Return (Ok (wrap_posts (post_block (lit "/src/posts/hello.html") [] [])))) /\
  spec_href root path = lit "/posts/hello.html" /\
  post_url path <> spec_href root path /\
  write_files state root (lit "out") h
    = [ Mkdir (lit "out//posts");
        WriteText (lit "out/" ++ spec_href root path) (lit "<p>Hello</p>") ].
Proof.
  intros root path state h.
  split; [vm_compute; reflexivity|]. split; [vm_compute; reflexivity|].
  split; [vm_compute; discriminate|]. vm_compute. reflexivity.
Qed.

(** ** The description directive and its pre-check *)

(** C3, at a directive with two blanks after the braces: the pattern of
    [desc] matches it and [desc] itself would set the description and
    delete the directive, but the document has neither of the two strings
    of the pre-check, so [preprocess_md] never calls [desc]: the metadata
    and the text stay as they were. *)
Theorem desc_with_two_blanks_is_skipped :
  let md := lit "{{  desc " ++ quoted (lit "x") ++ lit " }}" in
  let h := [loaded "root/page.md" false md] in
  re_search pat_desc md = Some {| m_start := 0; m_0 := md; m_1 := Some (lit "x") |} /\
  desc 0%nat md md h = (alter (with_desc (lit "x")) 0%nat h, Return (Ok [])) /\
  desc_token md = false /\
  preprocess_md blog_state 0%nat md h = (h, Return (Ok md)).
Proof.
  intros md h. repeat split; vm_compute; reflexivity.
Qed.

(** ** Malformed directives *)

(** C4, the claim at a document with a well-formed title directive and a
    description token without an argument: preprocessing fails, and the
    title of the record has already been set. *)
Lemma malformed_desc_counterexample :
  let md := directive "title" "A" ++ nl ++ lit "{{ desc }}" in
  let h := [loaded "root/page.md" false md] in
  let h1 := alter (with_title (lit "A")) 0%nat h in
  preprocess_page blog_state 0%nat h
    = (h1, Raise (UnwrapError (lit "Invalid match on 'desc'"))) /\
  File_metadata (h1 !!! 0%nat) <> File_metadata (h !!! 0%nat).
Proof.
  intros md h h1. split; [vm_compute; reflexivity|].
  vm_compute. discriminate.
Qed.

(** C4, amended.  For the document [md] of the record at [p]: when it has
    a title token and no match of the title pattern, preprocessing fails
    with the error of [title] and the store is as before; when, after the
    title step, it has a description token and no match of the
    description pattern, preprocessing fails with the error of [desc],
    no document and no description has changed, and the store is as
    before unless the title step has set the title of the record; when
    it has neither token, the two steps return it as it is. *)
Theorem malformed_directive state p h :
  let md := File_md (h !!! p) in
  (title_token md = true -> re_search pat_title md = None ->
   preprocess_page state p h
     = (h, Raise (UnwrapError (lit "Invalid match on 'title'")))) /\
  (forall h1 md1,
     title_step p md h = (h1, Return md1) ->
     desc_token md1 = true -> re_search pat_desc md1 = None ->
     preprocess_page state p h
       = (h1, Raise (UnwrapError (lit "Invalid match on 'desc'"))) /\
     (forall b, File_md (h1 !!! b) = File_md (h !!! b)) /\
     (forall b, FileMetadata_desc (File_metadata (h1 !!! b))
                = FileMetadata_desc (File_metadata (h !!! b))) /\
     (title_token md = false -> h1 = h)) /\
  (title_token md = false -> desc_token md = false ->
   title_desc_steps p md h = (h, Return md)).
Proof.
  intros md. split; [|split].
  - intros Htok Hno. rewrite preprocess_page_run. fold md.
    unfold title_desc_steps, bind. rewrite title_step_run, Htok, Hno. reflexivity.
  - intros h1 md1 Hstep Htok Hno. split; [|split; [|split]].
    + rewrite preprocess_page_run. fold md.
      unfold title_desc_steps, bind. rewrite Hstep, desc_step_run, Htok, Hno.
      reflexivity.
    + intros b. rewrite title_step_run in Hstep.
      destruct (title_token md); [|inversion Hstep; reflexivity].
      destruct (re_search pat_title md) as [m|]; [|discriminate].
      destruct (m_1 m) as [t|]; [|discriminate].
      inversion Hstep; subst. apply alter_field. reflexivity.
    + intros b. rewrite title_step_run in Hstep.
      destruct (title_token md); [|inversion Hstep; reflexivity].
      destruct (re_search pat_title md) as [m|]; [|discriminate].
      destruct (m_1 m) as [t|]; [|discriminate].
      inversion Hstep; subst.
      apply (alter_field (fun f => FileMetadata_desc (File_metadata f))). reflexivity.
    + intros Hnone. rewrite title_step_run, Hnone in Hstep. inversion Hstep. reflexivity.
  - intros Ht Hd. unfold title_desc_steps, bind.
    rewrite title_step_run, Ht, desc_step_run, Hd. reflexivity.
Qed.

Lemma malformed_directive_witness :
  let h := [loaded "root/page.md" false (lit "{{ title }}")] in
  preprocess_page blog_state 0%nat h
    = (h, Raise (UnwrapError (lit "Invalid match on 'title'"))).
Proof.
  intros h.
  apply (proj1 (malformed_directive blog_state 0%nat h)); vm_compute; reflexivity.
Defined.

(** ** Repeated directives *)

(** C6, the claim at a document with the same title directive on two
    lines: both occurrences are deleted, so the text of the second one is
    not in the output. *)
Lemma repeated_title_counterexample :
  let md := directive "title" "A" ++ nl ++ directive "title" "A" in
  let h := [loaded "root/page.md" false md] in
  preprocess_md blog_state 0%nat md h
    = (alter (with_title (lit "A")) 0%nat h, Return (Ok (lit "# A"))) /\
  contains (directive "title" "A") (lit "# A") = false.
Proof.
  intros md h. split; vm_compute; reflexivity.
Qed.

(** C6, amended.  In a document that has the pre-check token of the
    title (of the description) and a match of its pattern, the value is
    the argument of the leftmost match [m] alone: the pattern matches
    nowhere before [m], and the text of [m] stands nowhere before it.
    The step keeps the text before the match and deletes the match and,
    in the text after it, every further occurrence of the exact text of
    the match, as [str.replace] does; the title step puts the heading
    line of the value before the result.  When the text of the match
    does not occur again after it, all that stands after the match, a
    later directive of the same kind included, is kept as it is; and
    when no other step applies to the result of the step, this result,
    trimmed, is the output document of [preprocess_md]. *)
Theorem first_match_only state a md h m :
  let before := take (m_start m) md in
  let after := drop (m_start m + length (m_0 m)) md in
  (title_token md = true -> re_search pat_title md = Some m ->
   exists g,
     m_1 m = Some g /\
     md = before ++ m_0 m ++ after /\
     (forall i, (i < m_start m)%nat -> match_here pat_title (drop i md) = None) /\
     first_at (m_0 m) md (m_start m) /\
     let md1 := lit "# " ++ g ++ nl ++ before ++ replace after (m_0 m) [] in
     title_step a md h = (alter (with_title g) a h, Return md1) /\
     (contains (m_0 m) after = false -> replace after (m_0 m) [] = after) /\
     (desc_token md1 = false -> posts_token md1 = false ->
      contains (lit "[toc]") md1 = false ->
      preprocess_md state a md h = (alter (with_title g) a h, Return (Ok (strip md1))))) /\
  (desc_token md = true -> re_search pat_desc md = Some m ->
   exists g,
     m_1 m = Some g /\
     md = before ++ m_0 m ++ after /\
     (forall i, (i < m_start m)%nat -> match_here pat_desc (drop i md) = None) /\
     first_at (m_0 m) md (m_start m) /\
     let md1 := before ++ replace after (m_0 m) [] in
     desc_step a md h = (alter (with_desc g) a h, Return md1) /\
     (contains (m_0 m) after = false -> replace after (m_0 m) [] = after) /\
     (title_token md = false -> posts_token md1 = false ->
      contains (lit "[toc]") md1 = false ->
      preprocess_md state a md h = (alter (with_desc g) a h, Return (Ok (strip md1))))).
Proof.
  intros before after. split; intros Htok Hm.
  - destruct (title_match_group _ _ Hm) as [g Hg]. exists g.
    destruct (re_search_first_at _ _ _ Hm) as [Hfirst Hsplit].
    destruct (re_search_match _ _ _ Hm) as [t Ht].
    pose proof (title_match_nonempty _ _ _ Ht) as Hne.
    split; [exact Hg|]. split; [exact Hsplit|].
    split; [intros i Hi; apply search_from_spec in Hm as (k & Hk & _ & Hlt);
            apply Hlt; cbn in Hk; lia|].
    split; [exact Hfirst|].
    intros md1.
    assert (Hstep : title_step a md h = (alter (with_title g) a h, Return md1)).
    { rewrite title_step_run, Htok, Hm, Hg.
      rewrite (replace_from_match _ _ _ [] Hm Hne). reflexivity. }
    split; [exact Hstep|]. split; [intros Hrest; now apply replace_absent|].
    intros Hd Hp Htoc.
    unfold preprocess_md, bind. rewrite Hstep, desc_step_run, Hd, posts_step_run, Hp.
    unfold toc_step. rewrite Htoc. reflexivity.
  - destruct (desc_match_group _ _ Hm) as [g Hg]. exists g.
    destruct (re_search_first_at _ _ _ Hm) as [Hfirst Hsplit].
    destruct (re_search_match _ _ _ Hm) as [t Ht].
    pose proof (desc_match_nonempty _ _ _ Ht) as Hne.
    split; [exact Hg|]. split; [exact Hsplit|].
    split; [intros i Hi; apply search_from_spec in Hm as (k & Hk & _ & Hlt);
            apply Hlt; cbn in Hk; lia|].
    split; [exact Hfirst|].
    intros md1.
    assert (Hstep : desc_step a md h = (alter (with_desc g) a h, Return md1)).
    { rewrite desc_step_run, Htok, Hm, Hg.
      rewrite (replace_from_match _ _ _ [] Hm Hne). reflexivity. }
    split; [exact Hstep|]. split; [intros Hrest; now apply replace_absent|].
    intros Ht' Hp Htoc.
    unfold preprocess_md, bind. rewrite title_step_run, Ht', Hstep, posts_step_run, Hp.
    unfold toc_step. rewrite Htoc. reflexivity.
Qed.

Lemma first_match_only_witness :
  let md := directive "title" "A" ++ nl ++ directive "title" "B"
            ++ nl ++ directive "title" "A" in
  let h := [loaded "root/page.md" false md] in
  title_step 0%nat md h
    = (alter (with_title (lit "A")) 0%nat h,
       Return (lit "# A" ++ nl ++ nl ++ directive "title" "B" ++ nl)) /\
  preprocess_md blog_state 0%nat md h
    = (alter (with_title (lit "A")) 0%nat h,
       Return (Ok (lit "# A" ++ nl ++ nl ++ directive "title" "B"))).
Proof.
  intros md h.
  destruct (proj1 (first_match_only blog_state 0%nat md h
                     {| m_start := 0; m_0 := directive "title" "A";
                        m_1 := Some (lit "A") |}))
    as (g & Hg & _ & _ & _ & Hstep & _ & Hpre);
    [vm_compute; reflexivity|vm_compute; reflexivity|].
  cbn [m_1] in Hg. injection Hg as <-.
  split; [rewrite Hstep; vm_compute; reflexivity|].
  rewrite Hpre; vm_compute; reflexivity.
Defined.

(** ** A second pass *)

(** C7, the claim at a document with two different title directives on
    two lines: the first pass leaves the second directive in the text, and
    the title step of a second pass puts a second heading before the
    first. *)
Lemma second_pass_counterexample :
  let md := directive "title" "A" ++ nl ++ directive "title" "B" in
  let h := [loaded "root/page.md" false md] in
  let h1 := alter (with_title (lit "A")) 0%nat h in
  let once := lit "# A" ++ nl ++ nl ++ directive "title" "B" in
  preprocess_md blog_state 0%nat md h = (h1, Return (Ok once)) /\
  title_desc_steps 0%nat once h1
    = (alter (with_title (lit "B")) 0%nat h1,
       Return (lit "# B" ++ nl ++ lit "# A" ++ nl ++ nl)) /\
  strip (lit "# B" ++ nl ++ lit "# A" ++ nl ++ nl) <> once.
Proof.
  intros md h h1 once. split; [vm_compute; reflexivity|].
  split; [vm_compute; reflexivity|]. vm_compute. discriminate.
Qed.

(** C7, amended.  The title and description extraction is idempotent on
    a document with at most one title directive and at most one
    description directive, in either order, and no two opening braces
    anywhere else.  Each directive is well written: no blank or one
    blank after its opening braces, blanks before its quoted argument,
    an argument without a newline and without two opening braces,
    blanks before its closing braces; the text before a directive is
    plain, and no further double quote follows a directive on its line
    (for a description directive that stands before the title directive,
    once the title directive is taken out).  On such a document
    [preprocess_md] sets the title and the description and returns the
    heading of the title followed by the text without the directives,
    markers in uppercase and ends trimmed; and a second pass over this
    output, of the title and description steps or of all of
    [preprocess_md], changes neither the text nor the metadata: there is
    no description handling and no second heading. *)
Theorem second_pass_is_noop state a h :
  (forall md,
     contains (lit "{{") md = false ->
     idempotent_on state a h md None None md) /\
  (forall x t y,
     plain x -> contains (lit "{{") y = false -> well_written t ->
     quote_free_line y = true ->
     idempotent_on state a h (x ++ directive_text "title" t ++ y)
       (Some (w_arg t)) None (x ++ y)) /\
  (forall x d y,
     plain x -> contains (lit "{{") y = false -> well_written d ->
     quote_free_line y = true ->
     idempotent_on state a h (x ++ directive_text "desc" d ++ y)
       None (Some (w_arg d)) (x ++ y)) /\
  (forall p t q d r,
     plain p -> plain q -> contains (lit "{{") r = false ->
     well_written t -> well_written d ->
     quote_free_line (q ++ directive_text "desc" d ++ r) = true ->
     quote_free_line r = true ->
     idempotent_on state a h
       (p ++ directive_text "title" t ++ q ++ directive_text "desc" d ++ r)
       (Some (w_arg t)) (Some (w_arg d)) (p ++ q ++ r)) /\
  (forall p d q t r,
     plain p -> plain q -> contains (lit "{{") r = false ->
     well_written t -> well_written d ->
     quote_free_line r = true ->
     quote_free_line (q ++ r) = true ->
     idempotent_on state a h
       (p ++ directive_text "desc" d ++ q ++ directive_text "title" t ++ r)
       (Some (w_arg t)) (Some (w_arg d)) (p ++ q ++ r)).
Proof.
  unfold idempotent_on. split; [|split; [|split; [|split]]].
  - intros md Hmd. apply second_pass_plain; [|exact Hmd].
    destruct (tokens_need_braces md Hmd) as (Ht & Hd & _).
    unfold title_desc_steps, bind. now rewrite title_step_run, Ht, desc_step_run, Hd.
  - intros x t y Hx Hy Ht Hq.
    destruct (steps_title_only a h x t y Hx Hy Ht Hq) as [Hsteps Hplain].
    exact (second_pass_plain state a _ h _ _ Hsteps Hplain).
  - intros x d y Hx Hy Hd Hq.
    destruct (steps_desc_only a h x d y Hx Hy Hd Hq) as [Hsteps Hplain].
    exact (second_pass_plain state a _ h _ _ Hsteps Hplain).
  - intros p t q d r Hp Hq Hr Ht Hd Hq1 Hq2.
    destruct (steps_title_desc a h p t q d r Hp Hq Hr Ht Hd Hq1 Hq2) as [Hsteps Hplain].
    exact (second_pass_plain state a _ h _ _ Hsteps Hplain).
  - intros p d q t r Hp Hq Hr Ht Hd Hq1 Hq2.
    destruct (steps_desc_title a h p d q t r Hp Hq Hr Ht Hd Hq1 Hq2) as [Hsteps Hplain].
    exact (second_pass_plain state a _ h _ _ Hsteps Hplain).
Qed.

Lemma second_pass_is_noop_witness :
  let t := {| w_ws1 := lit " "; w_ws2 := lit " "; w_arg := lit "Hello"; w_ws3 := lit " " |} in
  let d := {| w_ws1 := []; w_ws2 := lit " "; w_arg := lit "A post"; w_ws3 := [] |} in
  let md := directive_text "title" t ++ nl ++ directive_text "desc" d
            ++ nl ++ lit "[toc]" ++ nl ++ lit "Body {text}" ++ nl in
  let h := [loaded "root/page.md" false md] in
  let h1 := alter (with_desc (lit "A post")) 0%nat (alter (with_title (lit "Hello")) 0%nat h) in
  let out := lit "# Hello" ++ nl ++ nl ++ nl ++ lit "[TOC]" ++ nl ++ lit "Body {text}" in
  preprocess_md blog_state 0%nat md h = (h1, Return (Ok out)) /\
  title_desc_steps 0%nat out h1 = (h1, Return out) /\
  preprocess_md blog_state 0%nat out h1 = (h1, Return (Ok out)).
Proof.
  intros t d md h h1 out.
  pose proof (proj1 (proj2 (proj2 (proj2 (second_pass_is_noop blog_state 0%nat h))))
                [] t nl d (nl ++ lit "[toc]" ++ nl ++ lit "Body {text}" ++ nl)) as H.
  unfold idempotent_on in H. cbv zeta in H.
  replace (strip (toc_step (heading (Some (w_arg t)) ++ []
             ++ nl ++ nl ++ lit "[toc]" ++ nl ++ lit "Body {text}" ++ nl)))
    with out in H by (vm_compute; reflexivity).
  apply H.
  - reflexivity.
  - reflexivity.
  - reflexivity.
  - repeat split; try reflexivity; [right; reflexivity|discriminate].
  - repeat split; try reflexivity; [left; reflexivity|discriminate].
  - reflexivity.
  - reflexivity.
Defined.

(** ** Classification of the files *)

(** C5.  In a tree that [build_file_tree] returns, a file found in the
    directory [FileTree_path sub] has [is_post] set if and only if that
    directory, the one that holds the file, is the root path joined with
    the configured posts directory; the files of every other directory,
    the subdirectories of the posts directory among them, are pages. *)
Theorem build_file_tree_classifies node dir root config t sub f :
  build_file_tree node dir root config = Return (Ok t) ->
  subtree sub t ->
  f ∈ FileTree_files sub ->
  exists posts_dir fname,
    Config_posts_dir config = Some posts_dir /\
    File_path f = path_join (FileTree_path sub) fname /\
    (File_is_post f = true <-> FileTree_path sub = path_join root posts_dir).
Proof.
  intros Hrun Hsub Hf.
  destruct (build_file_tree_classified root config node dir t Hrun) as [_ H].
  exact (H sub f Hsub Hf).
Qed.

Lemma build_file_tree_classifies_witness :
  exists posts_dir fname,
    Config_posts_dir blog_config = Some posts_dir /\
    lit "site/posts/drafts/d.md" = path_join (lit "site/posts/drafts") fname /\
    (false = true <-> lit "site/posts/drafts" = path_join (lit "site") posts_dir).
Proof.
  apply (build_file_tree_classifies blog_tree (lit "site") (lit "site") blog_config
           blog_file_tree drafts_subtree (new_File (lit "site/posts/drafts/d.md") false)).
  - vm_compute. reflexivity.
  - eapply subtree_below; [constructor|].
    eapply subtree_below; [constructor|]. constructor.
  - constructor.
Defined.

(** ** The include files *)

(** C8, the claim at a run whose configured [header.html] cannot be
    read: [load_before_after_files] returns as if nothing had happened,
    with the include text still empty, and what its caller gets is what
    it gets when no include file is configured at all. *)
Lemma unreadable_include_counterexample :
  let bare := {| Config_posts_dir := Some (lit "posts");
                 Config_include_before := None; Config_include_after := None;
                 Config_static_src := Some (lit "static");
                 Config_static_dest := Some (lit "static") |} in
  Config_include_before blog_config = Some (lit "header.html") /\
  W_open blog_world (path_join (lit "site") (lit "header.html")) = Raise OSError /\
  load_before_after_files blog_world (lit "site") blog_config new_State
    = (new_State, Return tt) /\
  load_before_after_files blog_world (lit "site") blog_config new_State
    = load_before_after_files blog_world (lit "site") bare new_State.
Proof. intros bare. repeat split; vm_compute; reflexivity. Qed.

(** C8, amended.  [load_before_after_files] reports no failure to its
    caller: it always returns normally.  When the read of the configured
    before file raises, the state is left as it was and the after file
    is not looked at; when the read of the configured after file raises,
    the after text is left as it was.  The two stages that follow do
    report: [build_file_tree] returns an [Err] for what is not a
    directory, and [process_pages] raises when the read of a content
    file raises, the [UnwrapError] of the [Err] of [load_md_file] for an
    [OSError] and the exception of the read itself otherwise. *)
Theorem load_before_after_files_swallows w root config state :
  let result := load_before_after_files w root config state in
  snd result = Return tt /\
  (forall include_before e,
     Config_include_before config = Some include_before ->
     W_open w (path_join root include_before) = Raise e ->
     fst result = state) /\
  (forall include_after e,
     Config_include_after config = Some include_after ->
     W_open w (path_join root include_after) = Raise e ->
     State_include_after (fst result) = State_include_after state) /\
  (forall dir, build_file_tree RegularFile dir root config
               = Return (Err (not_a_directory dir))) /\
  (forall file rest h e,
     W_open w (File_path file) = Raise e ->
     process_files w (file :: rest) state h
       = (h ++ [file], Raise (load_error (File_path file) e)) /\
     load_error (File_path file) OSError
       = UnwrapError (lit "Failed to compile file " ++ File_path file) /\
     (e <> OSError -> load_error (File_path file) e = e)).
Proof.
  unfold load_before_after_files, try_pass, bind, open_read, ret, raise.
  cbv zeta. split; [|split; [|split; [|split]]].
  - destruct (Config_include_before config) as [ib|];
      [destruct (W_open w (path_join root ib))|];
      cbn; destruct (Config_include_after config) as [ia|];
      try destruct (W_open w (path_join root ia)); reflexivity.
  - intros ib e -> ->. reflexivity.
  - intros ia e -> ->.
    destruct (Config_include_before config) as [ib|];
      [destruct (W_open w (path_join root ib))|]; reflexivity.
  - reflexivity.
  - intros file rest h e Hopen. split; [|split].
    + rewrite process_files_step, Hopen. destruct e; reflexivity.
    + reflexivity.
    + intros He. destruct e; try reflexivity. congruence.
Qed.

Lemma load_before_after_files_swallows_witness :
  fst (load_before_after_files blog_world (lit "site") blog_config new_State) = new_State.
Proof.
  apply (proj1 (proj2 (load_before_after_files_swallows
                         blog_world (lit "site") blog_config new_State))
           (lit "header.html") OSError).
  - reflexivity.
  - vm_compute. reflexivity.
Defined.

(** ** The driver and the tree builder's error *)

(** C9, on the code: when [build_file_tree] returns an [Err], [main] does
    not take the branch that prints it and returns 1, because the test
    [r_tree is None] is false for an [Err]; [tree] becomes [None] and
    [process_pages] raises an [AttributeError], which escapes [main]. *)
Theorem main_tree_error w config e :
  W_config w = Return (Ok config) ->
  build_file_tree (W_tree w) (W_srcdir w) (W_srcdir w) config = Return (Err e) ->
  main w = ([], Raise AttributeError).
Proof.
  intros Hc Ht. unfold main. rewrite Hc, Ht. reflexivity.
Qed.

Lemma main_tree_error_witness :
  build_file_tree (W_tree stale_world) (lit "site") (lit "site") blog_config
    = Return (Err (not_a_directory (lit "site/posts"))) /\
  main stale_world = ([], Raise AttributeError).
Proof.
  split; [vm_compute; reflexivity|].
  apply (main_tree_error stale_world blog_config (not_a_directory (lit "site/posts"))).
  - reflexivity.
  - vm_compute. reflexivity.
Defined.

(** * Further properties of the code *)

(** ** Written directives are found and expanded *)

(** X1.  A title directive written with no blank or one blank after the
    opening braces, any blanks around its quoted argument, an argument
    without a newline, and no other double quote after it on its line, in
    a document that has no two braces before it: the title step sets the
    title of the record to the argument, quotes inside it included,
    deletes the directive wherever its text occurs and puts the heading
    line before the document. *)
Theorem title_directive_expanded a h prefix ws1 ws2 arg ws3 rest :
  contains (lit "{{") (prefix ++ lit "{") = false ->
  ws1 = [] \/ ws1 = lit " " ->
  ws2 <> [] -> forallb isspace ws2 = true ->
  forallb dot arg = true ->
  forallb isspace ws3 = true ->
  quote_free_line rest = true ->
  let d := written_directive "title" ws1 ws2 arg ws3 in
  title_step a (prefix ++ d ++ rest) h
    = (alter (with_title arg) a h,
       Return (lit "# " ++ arg ++ nl ++ prefix ++ replace rest d [])).
Proof.
  intros Hprefix Hws1 Hne Hws2 Harg Hws3 Hrest d.
  assert (Hsp : forallb isspace ws1 = true) by (destruct Hws1 as [->| ->]; reflexivity).
  pose proof (quoted_directive_search "title" prefix ws1 ws2 arg ws3 rest
                eq_refl Hprefix Hsp Hne Hws2 Harg Hws3 Hrest) as Hm.
  change (quoted_pattern "title") with pat_title in Hm. fold d in Hm.
  assert (Htok : title_token (prefix ++ d ++ rest) = true).
  { unfold title_token. apply orb_true_iff.
    destruct Hws1 as [E|E]; [right|left]; subst ws1.
    - change d with (lit "{{title" ++ ws2 ++ quoted arg ++ ws3 ++ lit "}}").
      rewrite <- app_assoc. apply contains_middle.
    - change d with (lit "{{ title" ++ ws2 ++ quoted arg ++ ws3 ++ lit "}}").
      rewrite <- app_assoc. apply contains_middle. }
  rewrite title_step_run, Htok, Hm.
  rewrite (replace_found _ _ _ [] prefix rest Hm); [reflexivity|discriminate|reflexivity..].
Qed.

Lemma title_directive_expanded_witness :
  let arg := lit "Say " ++ quoted (lit "hi") in
  let d := written_directive "title" (lit " ") (lit " ") arg (lit " ") in
  title_step 0%nat ((lit "Intro" ++ nl) ++ d ++ lit " tail" ++ nl ++ d) blog_store
    = (alter (with_title arg) 0%nat blog_store,
       Return (lit "# " ++ arg ++ nl ++ lit "Intro" ++ nl ++ lit " tail" ++ nl)).
Proof.
  intros arg d.
  pose proof (title_directive_expanded 0%nat blog_store (lit "Intro" ++ nl)
                (lit " ") (lit " ") arg (lit " ") (lit " tail" ++ nl ++ d)) as H.
  cbv zeta in H. fold d in H.
  rewrite H; try (vm_compute; reflexivity).
  - right. reflexivity.
  - discriminate.
Defined.

(** X2.  The same for a description directive: the description step sets
    the description of the record to the argument and deletes the
    directive wherever its text occurs; nothing is put before the
    document. *)
Theorem desc_directive_expanded a h prefix ws1 ws2 arg ws3 rest :
  contains (lit "{{") (prefix ++ lit "{") = false ->
  ws1 = [] \/ ws1 = lit " " ->
  ws2 <> [] -> forallb isspace ws2 = true ->
  forallb dot arg = true ->
  forallb isspace ws3 = true ->
  quote_free_line rest = true ->
  let d := written_directive "desc" ws1 ws2 arg ws3 in
  desc_step a (prefix ++ d ++ rest) h
    = (alter (with_desc arg) a h, Return (prefix ++ replace rest d [])).
Proof.
  intros Hprefix Hws1 Hne Hws2 Harg Hws3 Hrest d.
  assert (Hsp : forallb isspace ws1 = true) by (destruct Hws1 as [->| ->]; reflexivity).
  pose proof (quoted_directive_search "desc" prefix ws1 ws2 arg ws3 rest
                eq_refl Hprefix Hsp Hne Hws2 Harg Hws3 Hrest) as Hm.
  change (quoted_pattern "desc") with pat_desc in Hm. fold d in Hm.
  assert (Htok : desc_token (prefix ++ d ++ rest) = true).
  { unfold desc_token. apply orb_true_iff.
    destruct Hws1 as [E|E]; [right|left]; subst ws1.
    - change d with (lit "{{desc" ++ ws2 ++ quoted arg ++ ws3 ++ lit "}}").
      rewrite <- app_assoc. apply contains_middle.
    - change d with (lit "{{ desc" ++ ws2 ++ quoted arg ++ ws3 ++ lit "}}").
      rewrite <- app_assoc. apply contains_middle. }
  rewrite desc_step_run, Htok, Hm.
  rewrite (replace_found _ _ _ [] prefix rest Hm); [reflexivity|discriminate|reflexivity..].
Qed.

Lemma desc_directive_expanded_witness :
  let d := written_directive "desc" [] (lit " ") (lit "second") [] in
  desc_step 1%nat (lit "Text " ++ d ++ nl ++ lit "more") blog_store
    = (alter (with_desc (lit "second")) 1%nat blog_store,
       Return (lit "Text " ++ nl ++ lit "more")).
Proof.
  intros d.
  pose proof (desc_directive_expanded 1%nat blog_store (lit "Text ")
                [] (lit " ") (lit "second") [] (nl ++ lit "more")) as H.
  cbv zeta in H. fold d in H.
  rewrite H; try (vm_compute; reflexivity).
  - left. reflexivity.
  - discriminate.
Defined.

(** X3.  A posts directive written with no blank or one blank after the
    opening braces and any blanks before the closing ones, in a document
    that has no two braces before it, is replaced, wherever its text
    occurs, by the container with one block for each post of the state;
    the store is not changed. *)
Theorem posts_directive_expanded state h prefix ws1 ws2 rest :
  contains (lit "{{") (prefix ++ lit "{") = false ->
  ws1 = [] \/ ws1 = lit " " ->
  forallb isspace ws2 = true ->
  let d := written_posts ws1 ws2 in
  let fragment :=
    wrap_posts (flat_map (fun p => entry_of (h !!! p)) (State_posts state)) in
  posts_step state (prefix ++ d ++ rest) h
    = (h, Return (prefix ++ fragment ++ replace rest d fragment)).
Proof.
  intros Hprefix Hws1 Hws2 d fragment.
  assert (Hsp : forallb isspace ws1 = true) by (destruct Hws1 as [->| ->]; reflexivity).
  pose proof (posts_directive_search prefix ws1 ws2 rest Hprefix Hsp Hws2) as Hm.
  fold d in Hm.
  assert (Htok : posts_token (prefix ++ d ++ rest) = true).
  { unfold posts_token. apply orb_true_iff.
    destruct Hws1 as [E|E]; [right|left]; subst ws1.
    - change d with (lit "{{posts" ++ ws2 ++ lit "}}").
      rewrite <- app_assoc. apply contains_middle.
    - change d with (lit "{{ posts" ++ ws2 ++ lit "}}").
      rewrite <- app_assoc. apply contains_middle. }
  rewrite posts_step_run, Htok, Hm.
  rewrite (replace_found _ _ _ _ prefix rest Hm); [reflexivity|discriminate|reflexivity..].
Qed.

Lemma posts_directive_expanded_witness :
  let fragment :=
    wrap_posts (flat_map (fun p => entry_of (blog_store !!! p)) [0%nat; 1%nat]) in
  posts_step blog_state ((lit "All posts:" ++ nl) ++ written_posts (lit " ") nl ++ [])
    blog_store
    = (blog_store, Return (lit "All posts:" ++ nl ++ fragment)).
Proof.
  intros fragment.
  pose proof (posts_directive_expanded blog_state blog_store (lit "All posts:" ++ nl)
                (lit " ") nl []) as H.
  cbv zeta in H.
  rewrite H; try (vm_compute; reflexivity).
  right. reflexivity.
Defined.

(** ** What the preprocessor writes *)

(** X4.  After a title step that found a directive, the title stored in
    the record has no newline and the document begins with the heading
    line made of that very title. *)
Theorem title_step_heading a md h h' out :
  (a < length h)%nat ->
  title_token md = true ->
  title_step a md h = (h', Return out) ->
  let t := FileMetadata_title (File_metadata (h' !!! a)) in
  forallb dot t = true /\
  startswith out (lit "# " ++ t ++ nl) = true /\
  h' = alter (with_title t) a h.
Proof.
  intros Ha Htok Hrun. rewrite title_step_run, Htok in Hrun.
  destruct (re_search pat_title md) as [m|] eqn:Em; [|discriminate].
  destruct (m_1 m) as [t0|] eqn:Et; [|discriminate].
  inversion Hrun; subst; clear Hrun. cbv zeta.
  rewrite list_lookup_total_alter_eq by exact Ha.
  cbn [with_title File_metadata FileMetadata_title].
  split; [eapply title_group_single_line; eassumption|].
  split; [|reflexivity].
  apply startswith_true_iff. exists (replace md (m_0 m) []).
  rewrite <- !app_assoc. reflexivity.
Qed.

Lemma title_step_heading_witness :
  let h' := fst (title_step 0%nat (File_md (blog_store !!! 0%nat)) blog_store) in
  let t := FileMetadata_title (File_metadata (h' !!! 0%nat)) in
  forallb dot t = true /\
  startswith (lit "# A" ++ nl ++ nl ++ lit "{{posts}}") (lit "# " ++ t ++ nl) = true /\
  h' = alter (with_title t) 0%nat blog_store.
Proof.
  intros h' t.
  apply (title_step_heading 0%nat (File_md (blog_store !!! 0%nat)) blog_store h'
           (lit "# A" ++ nl ++ nl ++ lit "{{posts}}")).
  - simpl. lia.
  - vm_compute. reflexivity.
  - vm_compute. reflexivity.
Defined.

(** X5.  Titles and descriptions stay on one line: when no title and no
    description of the store has a newline, none has after
    [preprocess_pages], whether it returns or raises.  The metadata of new
    [File] objects is empty, so this holds after every run. *)
Theorem preprocess_pages_single_line state h :
  Forall single_line h ->
  Forall single_line (fst (preprocess_pages state h)).
Proof.
  intros Hh. unfold preprocess_pages.
  apply (for_each_keeps (Forall single_line)); [| | |exact Hh].
  - intros p t h0 Ht H0. apply Forall_alter; [exact H0|].
    intros f _ [_ Hd]. split; [exact Ht|exact Hd].
  - intros p d h0 Hd H0. apply Forall_alter; [exact H0|].
    intros f _ [Ht _]. split; [exact Ht|exact Hd].
  - intros p x h0 H0. apply Forall_alter; [exact H0|].
    intros f _ Hf. exact Hf.
Qed.

Lemma preprocess_pages_single_line_witness :
  Forall single_line (fst (preprocess_pages blog_state blog_store)).
Proof.
  apply preprocess_pages_single_line.
  repeat constructor.
Defined.

(** X6.  [preprocess_md] writes nothing but the title and the description
    of the record it is given: the store keeps its size, every object
    keeps its path, its kind, its document and its html, and every other
    object is as it was, whether the call returns or raises. *)
Theorem preprocess_md_writes_metadata_only state a md h :
  let h' := fst (preprocess_md state a md h) in
  length h' = length h /\
  (forall b, same_record (h !!! b) (h' !!! b) /\ File_md (h' !!! b) = File_md (h !!! b)) /\
  (forall b, b <> a -> h' !!! b = h !!! b).
Proof.
  cbv zeta. split; [|split].
  - apply (preprocess_md_keeps (fun h0 => length h0 = length h)); [| |reflexivity];
      intros; now rewrite length_alter.
  - apply (preprocess_md_keeps
             (fun h0 => forall b, same_record (h !!! b) (h0 !!! b)
                                  /\ File_md (h0 !!! b) = File_md (h !!! b))).
    + intros t h0 _ H0 b. destruct (H0 b) as [(H1 & H2 & H3) H4].
      unfold same_record.
      rewrite !(alter_field File_path), !(alter_field File_is_post),
        !(alter_field File_html), !(alter_field File_md) by reflexivity.
      auto.
    + intros d h0 _ H0 b. destruct (H0 b) as [(H1 & H2 & H3) H4].
      unfold same_record.
      rewrite !(alter_field File_path), !(alter_field File_is_post),
        !(alter_field File_html), !(alter_field File_md) by reflexivity.
      auto.
    + intros b. unfold same_record. auto.
  - intros b Hb. apply preprocess_md_untouched.
    intros Hin. apply list_elem_of_singleton in Hin. contradiction.
Qed.

(** X7.  [preprocess_pages] writes nothing but the documents and the
    metadata of the records in the two lists of the state: the store
    keeps its size, every object keeps its path, its kind and its html,
    and the objects outside the lists are as they were, whether the loop
    ends or raises. *)
Theorem preprocess_pages_writes_listed_only state h :
  let h' := fst (preprocess_pages state h) in
  length h' = length h /\
  (forall b, same_record (h !!! b) (h' !!! b)) /\
  (forall b, b ∉ State_posts state ++ State_static_pages state -> h' !!! b = h !!! b).
Proof.
  cbv zeta. split; [|split].
  - unfold preprocess_pages.
    apply (for_each_keeps (fun h0 => length h0 = length h)); [| | |reflexivity];
      intros; now rewrite length_alter.
  - unfold preprocess_pages.
    apply (for_each_keeps (fun h0 => forall b, same_record (h !!! b) (h0 !!! b))).
    + intros p t h0 _ H0 b. destruct (H0 b) as (H1 & H2 & H3). unfold same_record.
      rewrite !(alter_field File_path), !(alter_field File_is_post),
        !(alter_field File_html) by reflexivity.
      auto.
    + intros p d h0 _ H0 b. destruct (H0 b) as (H1 & H2 & H3). unfold same_record.
      rewrite !(alter_field File_path), !(alter_field File_is_post),
        !(alter_field File_html) by reflexivity.
      auto.
    + intros p x h0 H0 b. destruct (H0 b) as (H1 & H2 & H3). unfold same_record.
      rewrite !(alter_field File_path), !(alter_field File_is_post),
        !(alter_field File_html) by reflexivity.
      auto.
    + intros b. unfold same_record. auto.
  - apply for_each_untouched.
Qed.

(** ** Documents without directives, and a second pass *)

(** X8.  A document in which no two opening braces occur passes
    [preprocess_md] with the store untouched: what comes back is the
    document with its lowercase table-of-contents markers in uppercase and
    its ends trimmed, and no lowercase marker is left in it. *)
Theorem plain_document_passes state a md h :
  contains (lit "{{") md = false ->
  preprocess_md state a md h = (h, Return (Ok (strip (toc_step md)))) /\
  contains (lit "[toc]") (strip (toc_step md)) = false.
Proof.
  intros H. destruct (tokens_need_braces md H) as (Ht & Hd & Hp).
  split; [now apply preprocess_md_without_tokens|].
  apply contains_strip, toc_step_free.
Qed.

Lemma plain_document_passes_witness :
  preprocess_md blog_state 2%nat (lit "  See [toc] and {x}" ++ nl) blog_store
    = (blog_store, Return (Ok (lit "See [TOC] and {x}"))).
Proof.
  pose proof (plain_document_passes blog_state 2%nat
                (lit "  See [toc] and {x}" ++ nl) blog_store) as H.
  destruct H as [H _]; [vm_compute; reflexivity|].
  rewrite H. vm_compute. reflexivity.
Defined.

(** X9.  [preprocess_md] is idempotent on what it returns once no
    directive token is left in it: a second call on the returned text
    returns the same text and leaves the store as the first call left
    it. *)
Theorem preprocess_md_second_call state a md h h1 out :
  preprocess_md state a md h = (h1, Return (Ok out)) ->
  title_token out = false ->
  desc_token out = false ->
  posts_token out = false ->
  preprocess_md state a out h1 = (h1, Return (Ok out)).
Proof.
  intros Hrun Ht Hd Hp.
  rewrite preprocess_md_without_tokens by assumption.
  rewrite preprocess_md_split in Hrun. unfold bind, ret in Hrun.
  destruct (title_desc_steps a md h) as [h2 [md2|e]]; [|discriminate].
  destruct (posts_step state md2 h2) as [h3 [md3|e]]; [|discriminate].
  injection Hrun as _ <-.
  assert (Htoc : toc_step (strip (toc_step md3)) = strip (toc_step md3)).
  { unfold toc_step at 1.
    rewrite (contains_strip _ _ (toc_step_free md3)). reflexivity. }
  rewrite Htoc, strip_idem. reflexivity.
Qed.

Lemma preprocess_md_second_call_witness :
  let md := File_md (blog_store !!! 1%nat) in
  let h1 := fst (preprocess_md blog_state 1%nat md blog_store) in
  preprocess_md blog_state 1%nat (lit "# B") h1 = (h1, Return (Ok (lit "# B"))).
Proof.
  intros md h1.
  apply (preprocess_md_second_call blog_state 1%nat md blog_store h1 (lit "# B"));
    vm_compute; reflexivity.
Defined.

(** ** The tree builder *)

(** X10.  Excluded names never enter the tree: a tree that
    [build_file_tree] returns is the source directory without
    [config.json], the configured before and after files and the
    configured static directory.  At every directory of the tree the
    files carry, in the order of the listing, the paths of the listed
    names that are not excluded and are no directories, and the
    subtrees are, in that order, the trees of the listed directories
    that are not excluded, each at the path of the directory joined
    with its listed name; nothing below an excluded name is visited. *)
Theorem build_file_tree_skips_excluded node dir root config t :
  build_file_tree node dir root config = Return (Ok t) ->
  FileTree_path t = dir /\ mirrors config node t /\
  forall fname,
    is_excluded config fname = true <->
    fname = lit "config.json" \/ Config_include_before config = Some fname \/
    Config_include_after config = Some fname \/ Config_static_src config = Some fname.
Proof.
  intros Hrun.
  assert (Hm : FileTree_path t = dir /\ mirrors config node t).
  { revert dir t Hrun.
    induction node as [| | |entries IH] using fsnode_induction; intros dir t Hrun;
      try discriminate.
    rewrite build_file_tree_loop in Hrun.
    destruct (build_loop_mirrors (mirrors config) _ dir root config entries IH [] [] t Hrun)
      as (Hp & Hf & new & Ht & Hnew).
    split; [exact Hp|]. cbn [mirrors]. rewrite Hp, Ht. auto. }
  destruct Hm as [Hp Hm]. split; [exact Hp|]. split; [exact Hm|].
  intros fname. unfold is_excluded, excluded. split.
  - intros H. apply bool_decide_eq_true in H. rewrite !elem_of_cons in H.
    destruct H as [H|[H|[H|[H|H]]]]; [left; now injection H|auto..|inversion H].
  - intros H. apply bool_decide_eq_true. rewrite !elem_of_cons.
    destruct H as [->|[H|[H|H]]]; [left; reflexivity|rewrite H; auto..].
Qed.

Lemma build_file_tree_skips_excluded_witness :
  FileTree_path blog_file_tree = lit "site" /\
  mirrors blog_config blog_tree blog_file_tree /\
  forall fname,
    is_excluded blog_config fname = true <->
    fname = lit "config.json" \/ Config_include_before blog_config = Some fname \/
    Config_include_after blog_config = Some fname \/
    Config_static_src blog_config = Some fname.
Proof.
  apply (build_file_tree_skips_excluded blog_tree (lit "site") (lit "site") blog_config
           blog_file_tree).
  vm_compute. reflexivity.
Defined.

(** X11.  The walk is exact: the files of a returned tree, in the order
    in which [process_pages] visits them, carry the paths of the content
    files of the file system, each once: the regular files of a directory
    in the order of its listing, then what lies below its subdirectories,
    without the excluded names and all that is below them. *)
Theorem build_file_tree_finds_content node dir root config t :
  build_file_tree node dir root config = Return (Ok t) ->
  map File_path (tree_files t) = content_paths config node dir.
Proof. apply build_file_tree_paths. Qed.

Lemma build_file_tree_finds_content_witness :
  map File_path (tree_files blog_file_tree)
    = [lit "site/index.md"; lit "site/posts/a.md"; lit "site/posts/drafts/d.md"].
Proof.
  rewrite (build_file_tree_finds_content blog_tree (lit "site") (lit "site")
             blog_config blog_file_tree).
  - vm_compute. reflexivity.
  - vm_compute. reflexivity.
Defined.

(** X12.  On a source directory in which every directory can be listed,
    [build_file_tree] returns a tree when the posts directory is
    configured or there is no content file; when the posts directory is
    missing from the configuration and there is a content file, joining
    the root with [None] raises a [TypeError]. *)
Theorem build_file_tree_on_healthy_directory node dir root config :
  healthy node = true ->
  isdir node = true ->
  (Config_posts_dir config <> None \/ content_paths config node dir = [] ->
   exists t, build_file_tree node dir root config = Return (Ok t)) /\
  (Config_posts_dir config = None -> content_paths config node dir <> [] ->
   build_file_tree node dir root config = Raise TypeError).
Proof.
  intros Hh Hd.
  pose proof (build_file_tree_healthy root config node Hh Hd dir) as H.
  split.
  - intros [Hpd|Hcp].
    + destruct (Config_posts_dir config); [|congruence].
      destruct (content_paths config node dir); exact H.
    + rewrite Hcp in H. destruct (Config_posts_dir config); exact H.
  - intros Hpd Hcp. rewrite Hpd in H.
    destruct (content_paths config node dir); [congruence|exact H].
Qed.

Lemma build_file_tree_on_healthy_directory_witness :
  let config := {| Config_posts_dir := None; Config_include_before := None;
                   Config_include_after := None; Config_static_src := None;
                   Config_static_dest := None |} in
  build_file_tree blog_tree (lit "site") (lit "site") config = Raise TypeError.
Proof.
  intros config.
  apply (proj2 (build_file_tree_on_healthy_directory blog_tree (lit "site") (lit "site")
                  config eq_refl eq_refl)).
  - reflexivity.
  - vm_compute. discriminate.
Defined.

(** ** Loading the pages *)

(** X13.  When every file of the tree can be read, [process_pages] stores
    each file once, with its text, after the objects that are there, in
    the order of the walk (the files of a directory before its
    subdirectories), and it puts the address of each post at the end of
    [state.posts] and of each other file at the end of
    [state.static_pages], in that same order; the include texts stay. *)
Theorem process_pages_loads_all w t state h :
  (forall f, f ∈ tree_files t -> readable w (File_path f)) ->
  process_pages w state (Some t) h
    = (h ++ map (loaded_file w) (tree_files t),
       Return (extend_state state
                 (addresses (length h) (tree_files t) true)
                 (addresses (length h) (tree_files t) false))).
Proof.
  intros Hread. cbn [process_pages].
  rewrite process_tree_flat. apply process_files_all_read, Hread.
Qed.

Lemma process_pages_loads_all_witness :
  process_pages blog_world new_State (Some blog_file_tree) []
    = ([ loaded "site/index.md" false (lit "{{ posts }}");
         loaded "site/posts/a.md" true (directive "title" "A");
         loaded "site/posts/drafts/d.md" false (lit "draft") ],
       Return {| State_posts := [1%nat]; State_static_pages := [0%nat; 2%nat];
                 State_include_before := []; State_include_after := [] |}).
Proof.
  rewrite (process_pages_loads_all blog_world blog_file_tree new_State []).
  - vm_compute. reflexivity.
  - intros f Hf. cbn in Hf.
    repeat (apply elem_of_cons in Hf as [->|Hf]; [eexists; vm_compute; reflexivity|]).
    inversion Hf.
Defined.

(** X14.  [process_pages] stops at the first file, in the order of the
    walk, whose read raises.  When the read raises an [OSError] it raises
    the error that names this file; any other exception of the read,
    such as the [ValueError] of bytes that are not text, escapes as it
    is.  The files before it are stored with their text, the file itself
    is stored without text, and no later file is stored. *)
Theorem process_pages_stops_at_unreadable w t state h pre file suf e :
  tree_files t = pre ++ file :: suf ->
  (forall f, f ∈ pre -> readable w (File_path f)) ->
  W_open w (File_path file) = Raise e ->
  process_pages w state (Some t) h
    = (h ++ map (loaded_file w) pre ++ [file], Raise (load_error (File_path file) e)) /\
  load_error (File_path file) OSError
    = UnwrapError (lit "Failed to compile file " ++ File_path file) /\
  (e <> OSError -> load_error (File_path file) e = e).
Proof.
  intros Hfiles Hpre Hfile. split; [|split].
  - cbn [process_pages]. rewrite process_tree_flat, Hfiles.
    apply process_files_first_unreadable; assumption.
  - reflexivity.
  - intros He. destruct e; try reflexivity. congruence.
Qed.

Lemma process_pages_stops_at_unreadable_witness :
  let w := {| W_srcdir := lit "site"; W_outdir := lit "out";
              W_config := Return (Ok blog_config);
              W_open := fun path => if bool_decide (path = lit "site/index.md")
                                    then Return (lit "home")
                                    else if bool_decide (path = lit "site/posts/a.md")
                                    then Raise ValueError else Raise OSError;
              W_tree := blog_tree;
              W_markdown := fun md => md;
              W_io := io_ok |} in
  process_pages w new_State (Some blog_file_tree) []
    = ([ loaded "site/index.md" false (lit "home");
         new_File (lit "site/posts/a.md") true ],
       Raise ValueError).
Proof.
  intros w.
  destruct (process_pages_stops_at_unreadable w blog_file_tree new_State []
              [new_File (lit "site/index.md") false]
              (new_File (lit "site/posts/a.md") true)
              [new_File (lit "site/posts/drafts/d.md") false] ValueError)
    as [H _].
  - reflexivity.
  - intros f Hf. apply list_elem_of_singleton in Hf. subst f.
    eexists. vm_compute. reflexivity.
  - vm_compute. reflexivity.
  - rewrite H. vm_compute. reflexivity.
Defined.

(** ** Rendering and writing *)

(** X15.  [compile_files] never fails.  It gives to every record of the
    two lists the html made of the before text, the rendering of the
    document of the record and the after text; it changes no path, no
    metadata and no document, and no object outside the lists. *)
Theorem compile_files_wraps w state h :
  let r := compile_files w state h in
  snd r = Return tt /\
  length (fst r) = length h /\
  (forall b, kept_but_html (h !!! b) (fst r !!! b)) /\
  (forall a, a ∈ State_static_pages state ++ State_posts state ->
             (a < length h)%nat ->
             File_html (fst r !!! a)
               = State_include_before state ++ W_markdown w (File_md (h !!! a))
                 ++ State_include_after state) /\
  (forall b, b ∉ State_static_pages state ++ State_posts state -> fst r !!! b = h !!! b).
Proof. apply compile_loop. Qed.

(** X16.  Pages are written where the posts index links to them.  For a
    record whose path is the source directory, a slash, a stem and [.md],
    where the name of the source directory has no slash and occurs
    nowhere else in the path and [.md] occurs in the destination only as
    the extension, [write_files] writes the html of the record to the
    output directory followed by a slash and by the href that [posts]
    computes for the record. *)
Theorem written_where_linked srcdir outdir stem f :
  srcdir <> [] ->
  contains (lit "/") srcdir = false ->
  contains srcdir (lit "/" ++ stem ++ lit ".md") = false ->
  File_path f = srcdir ++ lit "/" ++ stem ++ lit ".md" ->
  find ((outdir ++ lit "/") ++ lit "/" ++ stem ++ lit ".md") (lit ".md")
    = Z.of_nat (length ((outdir ++ lit "/") ++ lit "/" ++ stem)) ->
  let dest := replace (File_path f) srcdir (outdir ++ lit "/") in
  write_file dest (File_html f)
    = [ Mkdir (slice_to dest (rfind dest (lit "/")));
        WriteText (outdir ++ lit "/" ++ post_url (File_path f)) (File_html f) ].
Proof.
  intros Hne Hslash Honce Hpath Hext dest.
  assert (Hdest : dest = (outdir ++ lit "/") ++ lit "/" ++ stem ++ lit ".md").
  { unfold dest. rewrite Hpath.
    change (srcdir ++ lit "/" ++ stem ++ lit ".md")
      with ([] ++ srcdir ++ lit "/" ++ stem ++ lit ".md").
    rewrite replace_first.
    - rewrite replace_absent by assumption. reflexivity.
    - exact Hne.
    - apply first_at_head. cbn [app]. apply startswith_app. }
  apply find_first_at in Hext.
  assert (Hext2 : first_at (lit ".md")
                    ((outdir ++ lit "/") ++ (lit "/" ++ stem ++ lit ".md"))
                    (length (outdir ++ lit "/") + length (lit "/" ++ stem))).
  { rewrite length_app in Hext. exact Hext. }
  apply first_at_suffix in Hext2.
  assert (Hurl : post_url (File_path f) = lit "/" ++ stem ++ lit ".html").
  { rewrite Hpath. apply post_url_of_stem; assumption. }
  unfold write_file. rewrite Hurl. do 2 f_equal.
  rewrite Hdest.
  replace ((outdir ++ lit "/") ++ lit "/" ++ stem ++ lit ".md")
    with (((outdir ++ lit "/") ++ lit "/" ++ stem) ++ lit ".md" ++ []).
  2:{ rewrite app_nil_r, <- ?app_assoc. reflexivity. }
  rewrite replace_once.
  - rewrite app_nil_r, <- ?app_assoc. reflexivity.
  - discriminate.
  - rewrite app_nil_r. rewrite <- ?app_assoc in Hext. rewrite <- ?app_assoc. exact Hext.
  - reflexivity.
Qed.

Lemma written_where_linked_witness :
  let f := with_html (lit "<p>A</p>") (new_File (lit "site/posts/a.md") true) in
  let dest := replace (File_path f) (lit "site") (lit "out" ++ lit "/") in
  write_file dest (File_html f)
    = [ Mkdir (slice_to dest (rfind dest (lit "/")));
        WriteText (lit "out" ++ lit "/" ++ post_url (File_path f)) (File_html f) ].
Proof.
  intros f dest.
  apply (written_where_linked (lit "site") (lit "out") (lit "posts/a") f).
  - discriminate.
  - vm_compute. reflexivity.
  - vm_compute. reflexivity.
  - reflexivity.
  - vm_compute. reflexivity.
Defined.

(** ** The driver *)

(** X17.  [main] returns 1 exactly when [read_config] returns an error;
    every other value it returns is 0.  No failure of a later stage is
    turned into the exit code 1. *)
Theorem main_exit_code w :
  (snd (main w) = Return 1 <-> exists e, W_config w = Return (Err e)) /\
  (forall code, snd (main w) = Return code -> code = 0 \/ code = 1).
Proof.
  split; [apply main_exit_one|].
  intros code Hc. destruct (W_config w) as [[config|e]|e] eqn:Hconfig.
  - left. exact (proj1 (main_returns_static w config code Hconfig Hc)).
  - unfold main in Hc. rewrite Hconfig in Hc. injection Hc as <-. auto.
  - unfold main in Hc. rewrite Hconfig in Hc. discriminate.
Qed.

(** X18.  [main] makes no call that writes before every page has been
    loaded, preprocessed and rendered: when an exception escapes after a
    call, every stage before [write_files] has returned, and the
    exception is the one of the last call made, a [mkdir], a write or
    the [copytree], or it is the [TypeError] of a static source or
    destination that is missing from the configuration, raised after
    the pages have been written. *)
Theorem main_writes_late w e :
  snd (main w) = Raise e ->
  fst (main w) <> [] ->
  (exists config t state h1 h2 h3,
     W_config w = Return (Ok config) /\
     build_file_tree (W_tree w) (W_srcdir w) (W_srcdir w) config = Return (Ok t) /\
     process_pages w (fst (load_before_after_files w (W_srcdir w) config new_State))
       (Some t) [] = (h1, Return state) /\
     preprocess_pages state h1 = (h2, Return tt) /\
     compile_files w state h2 = (h3, Return tt) /\
     ((e = TypeError /\
       (Config_static_src config = None \/ Config_static_dest config = None) /\
       fst (main w) = write_files state (W_srcdir w) (W_outdir w) h3) \/
      exists log c, fst (main w) = log ++ [c] /\ W_io w log c = Some e)).
Proof.
  destruct (W_config w) as [[config|e0]|e0] eqn:Hconfig;
    [|unfold main; rewrite Hconfig; cbn [snd fst];
      first [discriminate|intros _ H; now destruct H]..].
  rewrite (main_stages w config Hconfig).
  destruct (build_file_tree (W_tree w) (W_srcdir w) (W_srcdir w) config)
    as [[t|e1]|e1] eqn:Ebuild; cbn [snd fst ok]; try (intros _ H; now destruct H).
  destruct (process_pages w _ (Some t) []) as [h1 [state|e1]] eqn:E1; cbn [snd fst];
    [|intros _ H; now destruct H].
  destruct (preprocess_pages state h1) as [h2 [[]|e1]] eqn:E2; cbn [snd fst];
    [|intros _ H; now destruct H].
  destruct (compile_files w state h2) as [h3 [[]|e1]] eqn:E3; cbn [snd fst];
    [|intros _ H; now destruct H].
  intros He _. exists config, t, state, h1, h2, h3.
  repeat (split; [first [reflexivity|assumption]|]).
  destruct (write_phase_cases w config state h3)
    as [(src & dst & _ & _ & Hw)|[(log & c & e1 & Hio & Hw)|[Hs Hw]]];
    rewrite Hw in He |- *; cbn [snd fst] in *.
  - discriminate.
  - injection He as <-. right. eauto.
  - injection He as <-. left. auto.
Qed.

Lemma main_writes_late_witness :
  let w := {| W_srcdir := lit "site"; W_outdir := lit "out";
              W_config := Return (Ok blog_config);
              W_open := blog_open;
              W_tree := blog_tree;
              W_markdown := fun md => md;
              W_io := io_second_run |} in
  exists config t state h1 h2 h3,
    W_config w = Return (Ok config) /\
    build_file_tree (W_tree w) (W_srcdir w) (W_srcdir w) config = Return (Ok t) /\
    process_pages w (fst (load_before_after_files w (W_srcdir w) config new_State))
      (Some t) [] = (h1, Return state) /\
    preprocess_pages state h1 = (h2, Return tt) /\
    compile_files w state h2 = (h3, Return tt) /\
    ((OSError = TypeError /\
      (Config_static_src config = None \/ Config_static_dest config = None) /\
      fst (main w) = write_files state (W_srcdir w) (W_outdir w) h3) \/
     exists log c, fst (main w) = log ++ [c] /\ W_io w log c = Some OSError).
Proof.
  intros w. apply (main_writes_late w OSError).
  - vm_compute. reflexivity.
  - vm_compute. discriminate.
Defined.



(** ** Failures and results of the preprocessor *)

(** X20.  [preprocess_pages] stops at the first record whose
    preprocessing raises: the exception escapes with the store as that
    record left it, and the records that come later in the two lists (and
    every object that is not one of the records before) are as they were
    at the start. *)
Theorem preprocess_pages_stops_at_failure state h pre p suf h1 h2 e :
  State_posts state ++ State_static_pages state = pre ++ p :: suf ->
  for_each pre (preprocess_page state) h = (h1, Return tt) ->
  preprocess_page state p h1 = (h2, Raise e) ->
  preprocess_pages state h = (h2, Raise e) /\
  (forall b, b ∉ pre ++ [p] -> h2 !!! b = h !!! b).
Proof.
  intros Hlist Hpre Hp. split.
  - unfold preprocess_pages. rewrite Hlist, for_each_app. unfold bind.
    rewrite Hpre. cbn [for_each]. unfold bind. rewrite Hp. reflexivity.
  - intros b Hb.
    pose proof (for_each_untouched state pre h) as U1. rewrite Hpre in U1.
    pose proof (preprocess_page_untouched state p h1) as U2. rewrite Hp in U2.
    cbn [fst] in U1, U2.
    rewrite U2, U1; [reflexivity| |].
    + intros Hin. apply Hb, elem_of_app. left. exact Hin.
    + intros Hin. apply Hb, elem_of_app. right. exact Hin.
Qed.

Lemma preprocess_pages_stops_at_failure_witness :
  let h := [ loaded "root/posts/a.md" true (directive "title" "A");
             loaded "root/posts/b.md" true (lit "{{ title }}");
             loaded "root/index.md" false (lit "{{ posts }}") ] in
  let h2 := alter (with_md (lit "# A")) 0%nat (alter (with_title (lit "A")) 0%nat h) in
  preprocess_pages blog_state h
    = (h2, Raise (UnwrapError (lit "Invalid match on 'title'"))) /\
  (forall b, b ∉ [] ++ [0%nat] ++ [1%nat] -> h2 !!! b = h !!! b).
Proof.
  intros h h2.
  apply (preprocess_pages_stops_at_failure blog_state h [0%nat] 1%nat [2%nat] h2 h2).
  - reflexivity.
  - vm_compute. reflexivity.
  - vm_compute. reflexivity.
Defined.

(** X21.  The document that [preprocess_md] returns is trimmed: it is
    empty, or it neither begins nor ends with a whitespace character, so
    trimming it again changes nothing. *)
Theorem preprocess_md_returns_trimmed state a md h h' out :
  preprocess_md state a md h = (h', Return (Ok out)) ->
  match out with [] => True | c :: _ => isspace c = false end /\
  match rev out with [] => True | c :: _ => isspace c = false end /\
  strip out = out.
Proof.
  intros Hrun. rewrite preprocess_md_split in Hrun. unfold bind, ret in Hrun.
  destruct (title_desc_steps a md h) as [h2 [md2|e]]; [|discriminate].
  destruct (posts_step state md2 h2) as [h3 [md3|e]]; [|discriminate].
  injection Hrun as _ <-.
  split; [apply strip_head|]. split; [apply strip_last|apply strip_idem].
Qed.

Lemma preprocess_md_returns_trimmed_witness :
  let out := lit "# A" ++ nl ++ lit " " ++ nl ++ lit "x" in
  match out with [] => True | c :: _ => isspace c = false end /\
  match rev out with [] => True | c :: _ => isspace c = false end /\
  strip out = out.
Proof.
  intros out.
  apply (preprocess_md_returns_trimmed blog_state 0%nat
           (lit " " ++ directive "title" "A" ++ nl ++ lit "x" ++ nl) blog_store
           (alter (with_title (lit "A")) 0%nat blog_store) out).
  vm_compute. reflexivity.
Defined.

(** X22.  [preprocess_md] never returns an [Err]: what it returns is an
    [Ok], and a directive token without a match makes it raise the
    [UnwrapError] of [title], of [desc] or of [posts]; no other exception
    escapes it. *)
Theorem preprocess_md_outcomes state a md h :
  (exists out, snd (preprocess_md state a md h) = Return (Ok out)) \/
  snd (preprocess_md state a md h) = Raise (UnwrapError (lit "Invalid match on 'title'")) \/
  snd (preprocess_md state a md h) = Raise (UnwrapError (lit "Invalid match on 'desc'")) \/
  snd (preprocess_md state a md h) = Raise (UnwrapError (lit "Invalid match on 'posts'")).
Proof.
  unfold preprocess_md, bind.
  rewrite title_step_run.
  destruct (title_token md);
    [destruct (re_search pat_title md) as [m|]; [destruct (m_1 m)|]|];
    cbn [snd]; auto.
  all: rewrite desc_step_run;
    match goal with
    | |- context [desc_token ?x] =>
        destruct (desc_token x);
        [destruct (re_search pat_desc x) as [m'|]; [destruct (m_1 m')|]|]
    end; cbn [snd]; auto.
  all: rewrite posts_step_run;
    match goal with
    | |- context [posts_token ?x] =>
        destruct (posts_token x); [destruct (re_search pat_posts x) as [m''|]|]
    end; cbn [snd ret]; eauto 6.
Qed.

(** ** The configuration *)

(** X23.  From a [config.json] that holds an object, [read_config]
    returns a configuration in which each of the five attributes has the
    value of its key, written with a blank where the attribute has an
    underscore, and is [None] when the object has no such key.  No other
    key of the object has any effect, and no value is checked. *)
Theorem read_config_attributes type_error root items :
  read_config type_error root (Parsed (PyDict items))
    = ConfigReturn (Ok {| Raw_posts_dir := attribute (lit "posts dir") items;
                          Raw_include_before := attribute (lit "include before") items;
                          Raw_include_after := attribute (lit "include after") items;
                          Raw_static_src := attribute (lit "static src") items;
                          Raw_static_dest := attribute (lit "static dest") items |}).
Proof.
  cbn [read_config]. now rewrite fill_config_props.
Qed.

(** X24.  A run ends with the exit code 1 exactly when [config.json] is
    missing or holds a value that is not an object; a file that cannot
    be opened or is not JSON makes [read_config], and [main] with it,
    raise.  When the file is missing, the run prints the path it looked
    for and does nothing else.  (The configurations are those whose
    attributes are strings or [None].) *)
Theorem main_exit_one_sources type_error source w :
  reads_config type_error source w ->
  (snd (main w) = Return 1 <->
   source = Missing \/ exists j, source = Parsed j /\ is_dict j = false) /\
  (source = Missing ->
   main w = ([Print (lit "Couldn't find " ++ path_join (W_srcdir w) (lit "config.json")
                     ++ lit ". Does it exist?")], Return 1)).
Proof.
  unfold reads_config. intros Hreads. split.
  - rewrite main_exit_one.
    destruct source as [| | |j]; cbn [read_config seen_by_main] in Hreads.
    + injection Hreads as <-. split; eauto.
    + injection Hreads as <-. split; [intros [e He]; discriminate|].
      intros [H|[j [H _]]]; discriminate.
    + injection Hreads as <-. split; [intros [e He]; discriminate|].
      intros [H|[j [H _]]]; discriminate.
    + destruct j as [| | | | | |items]; cbn [seen_by_main] in Hreads;
        try (injection Hreads as <-; split; [intros _; right; eexists; eauto|eauto]).
      destruct (typed_config _) as [config|]; [|discriminate].
      injection Hreads as <-. split; [intros [e He]; discriminate|].
      intros [H|[j [H Hd]]]; [discriminate|]. injection H as <-. discriminate.
  - intros ->. cbn [read_config seen_by_main] in Hreads. injection Hreads as Hc.
    unfold main. now rewrite <- Hc.
Qed.

Lemma main_exit_one_sources_witness :
  let w := {| W_srcdir := lit "site"; W_outdir := lit "out";
              W_config := Return (Err (lit "Failed to read config: "
                                       ++ type_error_311 (PyList [])));
              W_open := blog_open; W_tree := blog_tree;
              W_markdown := fun md => md; W_io := io_ok |} in
  (snd (main w) = Return 1 <->
   Parsed (PyList []) = Missing \/
   exists j, Parsed (PyList []) = Parsed j /\ is_dict j = false) /\
  (Parsed (PyList []) = Missing ->
   main w = ([Print (lit "Couldn't find " ++ path_join (W_srcdir w) (lit "config.json")
                     ++ lit ". Does it exist?")], Return 1)).
Proof.
  intros w. apply (main_exit_one_sources type_error_311 (Parsed (PyList [])) w).
  vm_compute. reflexivity.
Defined.

(** X25.  With a [config.json] that holds an object, a run returns only
    when the object gives a string to both [static src] and
    [static dest], and then it returns 0: when one of the two keys is
    missing or null, every run ends with an exception. *)
Theorem main_needs_static_keys type_error items w code :
  reads_config type_error (Parsed (PyDict items)) w ->
  snd (main w) = Return code ->
  code = 0 /\
  exists src dst,
    dict_get (lit "static src") items = Some (PyStr src) /\
    dict_get (lit "static dest") items = Some (PyStr dst).
Proof.
  unfold reads_config. cbn [read_config seen_by_main]. rewrite fill_config_props.
  unfold typed_config. cbn [Raw_posts_dir Raw_include_before Raw_include_after
                            Raw_static_src Raw_static_dest].
  destruct (typed_field (attribute (lit "posts dir") items)) as [a|]; [|discriminate].
  destruct (typed_field (attribute (lit "include before") items)) as [b|]; [|discriminate].
  destruct (typed_field (attribute (lit "include after") items)) as [c|]; [|discriminate].
  destruct (typed_field (attribute (lit "static src") items)) as [d|] eqn:Hsrc;
    [|discriminate].
  destruct (typed_field (attribute (lit "static dest") items)) as [e|] eqn:Hdst;
    [|discriminate].
  intros Hreads Hcode. injection Hreads as Hconfig. symmetry in Hconfig.
  destruct (main_returns_static w _ code Hconfig Hcode) as [-> [src [dst [Hs Hd]]]].
  cbn [Config_static_src Config_static_dest] in Hs, Hd. subst d e.
  split; [reflexivity|]. exists src, dst.
  split; apply attribute_str, typed_field_str; assumption.
Qed.

Lemma main_needs_static_keys_witness :
  0 = 0 /\
  exists src dst,
    dict_get (lit "static src") blog_items = Some (PyStr src) /\
    dict_get (lit "static dest") blog_items = Some (PyStr dst).
Proof.
  apply (main_needs_static_keys type_error_311 blog_items blog_world 0).
  - vm_compute. reflexivity.
  - vm_compute. reflexivity.
Defined.
